(** * Finite-difference PDE solvers of the FDM notebook (CS_demos)

    A shallow embedding of the numeric cells of the finite-difference
    notebook: the explicit forward-Euler stepper of the 1-D heat equation
    and the CTCS assembly of the 1-D and 2-D wave equations.

    Numbers.  The notebook computes with IEEE doubles; this development
    models them by the real numbers of the Standard Library, so every
    arithmetic operation is exact.  What remains of Python's arithmetic is
    the exception raised by a division by zero.

    Arrays.  A NumPy array of shape [(N_t, N_x)] is the list of its [N_t]
    rows, each a list of [N_x] reals; subscripts are Python integers ([Z]),
    normalised the way NumPy does (a negative subscript counts from the
    end, a subscript out of range raises [IndexError]).

    Effects.  Cells that may raise run in the error monad [result]; the
    [for] loops that grow [eqs] and [col] thread that pair as state. *)

From Stdlib Require Import Reals Lra Lia ZArith List Bool Arith.
Import ListNotations.

Open Scope R_scope.

(** ** Python exceptions and the error monad *)

Inductive PyError : Set :=
| IndexError
| ZeroDivisionError
| ValueError.

Inductive result (A : Type) : Type :=
| Ok (a : A)
| Raise (e : PyError).

Arguments Ok {A} a.
Arguments Raise {A} e.

Definition bind {A B : Type} (m : result A) (k : A -> result B) : result B :=
  match m with
  | Ok a => k a
  | Raise e => Raise e
  end.

Notation "x <- m ;; k" := (bind m (fun x => k))
  (at level 61, m at next level, right associativity).
Notation "' p <- m ;; k" := (bind m (fun x => let p := x in k))
  (at level 61, p pattern, m at next level, right associativity).

(** [for i in l: s = body(i, s)] *)
Fixpoint for_ {S I : Type} (l : list I) (body : I -> S -> result S) (s : S)
  : result S :=
  match l with
  | [] => Ok s
  | i :: l' => s' <- body i s ;; for_ l' body s'
  end.

(** [range(lo, hi)] for [0 <= lo]; empty when [hi <= lo]. *)
Definition range (lo hi : nat) : list nat := seq lo (hi - lo).

(** Python's [/] on floats. *)
Definition pydiv (x y : R) : result R :=
  if Req_dec_T y 0 then Raise ZeroDivisionError else Ok (x / y).

(** [p / q / q] *)
Definition div2 (p q : R) : result R :=
  k <- pydiv p q ;; pydiv k q.

(** ** Lists as one-dimensional arrays *)

(** [l[k] = v] for a subscript already in range; out of range nothing is
    written (callers check the range first). *)
Fixpoint upd {A} (k : nat) (v : A) (l : list A) : list A :=
  match l, k with
  | [], _ => []
  | _ :: l', O => v :: l'
  | a :: l', S k' => a :: upd k' v l'
  end.

(** NumPy's subscript normalisation on an axis of length [n]. *)
Definition norm_index (n : nat) (k : Z) : result nat :=
  if ((0 <=? k) && (k <? Z.of_nat n))%Z then Ok (Z.to_nat k)
  else if ((- Z.of_nat n <=? k) && (k <? 0))%Z then Ok (Z.to_nat (k + Z.of_nat n))
  else Raise IndexError.

(** Bounds of a slice [lo:hi] on an axis of length [n]; [None] is an
    omitted bound. *)
Definition clip_index (n : nat) (k : Z) : nat :=
  if (k <? 0)%Z then Z.to_nat (Z.max 0 (k + Z.of_nat n))
  else Z.to_nat (Z.min k (Z.of_nat n)).

Definition slice_lo (n : nat) (lo : option Z) : nat :=
  match lo with None => O | Some k => clip_index n k end.

Definition slice_hi (n : nat) (hi : option Z) : nat :=
  match hi with None => n | Some k => clip_index n k end.

(** [l[lo:hi]] *)
Definition slice {A} (l : list A) (lo hi : option Z) : list A :=
  let a := slice_lo (length l) lo in
  let b := slice_hi (length l) hi in
  firstn (b - a) (skipn a l).

(** [l[lo:hi] = vs]; NumPy refuses a right-hand side of another length. *)
Definition set_slice {A} (l : list A) (lo hi : option Z) (vs : list A)
  : result (list A) :=
  let a := slice_lo (length l) lo in
  let b := slice_hi (length l) hi in
  if Nat.eqb (length vs) (b - a)
  then Ok (firstn a l ++ vs ++ skipn (a + (b - a)) l)
  else Raise ValueError.

(** [l[k]] and [l[k] = v] *)
Definition getitem1 (l : list R) (k : Z) : result R :=
  k' <- norm_index (length l) k ;; Ok (nth k' l 0).

Definition setitem1 (l : list R) (k : Z) (v : R) : result (list R) :=
  k' <- norm_index (length l) k ;; Ok (upd k' v l).

(** Element-wise arithmetic on arrays of one shape. *)
Fixpoint map2 {A B C} (f : A -> B -> C) (l1 : list A) (l2 : list B) : list C :=
  match l1, l2 with
  | a :: l1', b :: l2' => f a b :: map2 f l1' l2'
  | _, _ => []
  end.

Definition vadd : list R -> list R -> list R := map2 Rplus.
Definition vsub : list R -> list R -> list R := map2 Rminus.
Definition vscale (k : R) : list R -> list R := map (Rmult k).

(** ** Two-dimensional arrays *)

Definition array2 := list (list R).

(** [np.zeros((n, m))] *)
Definition zeros2 (n m : nat) : array2 := repeat (repeat 0 m) n.

(** [a[i, j]], [a[i, j] = v] and [a[i, j] += v]; the augmented assignment
    reads the entry before it evaluates its right-hand side. *)
Definition getitem2 (a : array2) (i j : Z) : result R :=
  i' <- norm_index (length a) i ;;
  getitem1 (nth i' a []) j.

Definition setitem2 (a : array2) (i j : Z) (v : R) : result array2 :=
  i' <- norm_index (length a) i ;;
  r <- setitem1 (nth i' a []) j v ;;
  Ok (upd i' r a).

Definition iadd2 (a : array2) (i j : Z) (v : result R) : result array2 :=
  x <- getitem2 a i j ;;
  v <- v ;;
  setitem2 a i j (x + v).

(** [a[i, :] = vs] *)
Definition set_row (a : array2) (i : Z) (vs : list R) : result array2 :=
  i' <- norm_index (length a) i ;;
  r <- set_slice (nth i' a []) None None vs ;;
  Ok (upd i' r a).

(** [a[:, j] = v] *)
Fixpoint set_col (a : array2) (j : Z) (v : R) : result array2 :=
  match a with
  | [] => Ok []
  | r :: a' =>
      r' <- setitem1 r j v ;;
      a'' <- set_col a' j v ;;
      Ok (r' :: a'')
  end.

(** The pure reading of an entry, [0] outside the array. *)
Definition entry (a : array2) (i j : nat) : R := nth j (nth i a []) 0.

(** An array of [n] rows of [m] entries each. *)
Definition shape2 (n m : nat) (a : array2) : Prop :=
  length a = n /\ Forall (fun r => length r = m) a.

(** [a[i, j] = v] and [a[i, j] += v] once the subscripts are normalised. *)
Definition put2 (a : array2) (i j : nat) (v : R) : array2 :=
  upd i (upd j v (nth i a [])) a.

Definition add2 (a : array2) (i j : nat) (v : R) : array2 :=
  put2 a i j (entry a i j + v).

(** ** Matrices, vectors and the linear solve *)

(** One row of the matrix applied to the flat vector of unknowns. *)
Definition dot (l v : list R) : R := fold_right Rplus 0 (map2 Rmult l v).

(** An equation's coefficient grid applied to a field: the row-major
    flattening of both, as [np.reshape] lays them out. *)
Definition dot2 (M U : array2) : R := dot (concat M) (concat U).

(** [np.reshape(u, (n, m))] of a flat vector. *)
Fixpoint reshape2 (n m : nat) (l : list R) : array2 :=
  match n with
  | O => []
  | S n' => firstn m l :: reshape2 n' m (skipn m l)
  end.

(** [u = np.linalg.solve(A, b)] over the reals: a vector of the size of
    [b] with [A u = b]. *)
Definition is_solution (A : list (list R)) (b u : list R) : Prop :=
  length u = length b /\ Forall2 (fun row bk => dot row u = bk) A b.

(** A square matrix with a trivial kernel. *)
Definition nonsingular (A : list (list R)) : Prop :=
  forall u, length u = length A -> Forall (fun row => dot row u = 0) A ->
            u = repeat 0 (length A).

(** ** Three-dimensional arrays *)

Definition array3 := list array2.

(** [np.zeros((n, m, p))] *)
Definition zeros3 (n m p : nat) : array3 := repeat (zeros2 m p) n.

(** [a[i, j, k]], [a[i, j, k] = v] and [a[i, j, k] += v] *)
Definition getitem3 (a : array3) (i j k : Z) : result R :=
  i' <- norm_index (length a) i ;;
  getitem2 (nth i' a []) j k.

Definition setitem3 (a : array3) (i j k : Z) (v : R) : result array3 :=
  i' <- norm_index (length a) i ;;
  r <- setitem2 (nth i' a []) j k v ;;
  Ok (upd i' r a).

Definition iadd3 (a : array3) (i j k : Z) (v : result R) : result array3 :=
  x <- getitem3 a i j k ;;
  v <- v ;;
  setitem3 a i j k (x + v).

Definition entry3 (a : array3) (i j k : nat) : R := entry (nth i a []) j k.

Definition shape3 (n m p : nat) (a : array3) : Prop :=
  length a = n /\ Forall (shape2 m p) a.

Definition put3 (a : array3) (i j k : nat) (v : R) : array3 :=
  upd i (put2 (nth i a []) j k v) a.

Definition add3 (a : array3) (i j k : nat) (v : R) : array3 :=
  put3 a i j k (entry3 a i j k + v).

(** [np.linspace(start, stop, num)]: [num] samples, the last one set to
    [stop] when there are at least two. *)
Definition linspace (start stop : R) (num : nat) : list R :=
  map (fun k => if (Nat.ltb 1 num && Nat.eqb k (num - 1))%bool then stop
                else start + INR k * ((stop - start) / INR (num - 1)))
      (seq 0 num).

(** Consecutive samples of [l] differ by [h]. *)
Definition uniform (l : list R) (h : R) : Prop :=
  forall k, (k + 1 < length l)%nat -> nth (k + 1) l 0 - nth k l 0 = h.

(** ** The grid cell, shared by the 1-D heat and 1-D wave examples

    [dx = (x_2 - x_1) / float(N_x)], [dt = t_f / float(N_t)],
    [x = np.linspace(x_1, x_2, N_x)], [t = np.linspace(0, t_f, N_t)]. *)

Record Grid1 : Type := mkGrid1 {
  dx : R;
  dt : R;
  x : list R;
  t : list R
}.

Definition make_grid (x_1 x_2 t_f : R) (N_x N_t : nat) : result Grid1 :=
  dx <- pydiv (x_2 - x_1) (INR N_x) ;;
  dt <- pydiv t_f (INR N_t) ;;
  Ok (mkGrid1 dx dt (linspace x_1 x_2 N_x) (linspace 0 t_f N_t)).

(** ** The 1-D heat equation, forward Euler *)

Module Heat1D.
Section Problem.

Variable f : R -> R -> R.
Variable a : R.
Variables x_1 x_2 t_f : R.
Variables h_1 h_2 : R.
Variable g_0 : R -> R.
Variables N_x N_t : nat.

(** [u = np.zeros((N_t, N_x))], then the initial row and the two boundary
    columns, in the order of the cell. *)
Definition init_field (g : Grid1) : result array2 :=
  let u := zeros2 N_t N_x in
  u <- set_row u 0 (map g_0 (x g)) ;;
  u <- set_col u 0 h_1 ;;
  set_col u (-1) h_2.

(** The body of the loop:
    [u[i+1,1:-1] = u[i,1:-1] + (a*dt/dx/dx) * (u[i,:-2] + u[i,2:] - 2*u[i,1:-1])
                   + dt*f(t[i],x[1:-1])].
    All the slices of one row have one length, so the element-wise
    operations never meet a shape mismatch. *)
Definition step (g : Grid1) (i : nat) (u : array2) : result array2 :=
  i0 <- norm_index (length u) (Z.of_nat i) ;;
  let ui := nth i0 u [] in
  let mid := slice ui (Some 1%Z) (Some (-1)%Z) in
  r <- div2 (a * dt g) (dx g) ;;
  let lap := vsub (vadd (slice ui None (Some (-2)%Z)) (slice ui (Some 2%Z) None))
                  (vscale 2 mid) in
  ti <- getitem1 (t g) (Z.of_nat i) ;;
  let src := vscale (dt g) (map (f ti) (slice (x g) (Some 1%Z) (Some (-1)%Z))) in
  let rhs := vadd (vadd mid (vscale r lap)) src in
  i1 <- norm_index (length u) (Z.of_nat i + 1) ;;
  row <- set_slice (nth i1 u []) (Some 1%Z) (Some (-1)%Z) rhs ;;
  Ok (upd i1 row u).

(** The whole computation: grid, fill, [for i in range(N_t-1)]. *)
Definition solve : result array2 :=
  g <- make_grid x_1 x_2 t_f N_x N_t ;;
  u <- init_field g ;;
  for_ (range 0 (N_t - 1)) (step g) u.

End Problem.
End Heat1D.

(** The parameter cells of the heat example. *)
Module HeatScenario.

Definition f (t x : R) : R := 0 * x * t.
Definition a : R := 1 / 10.
Definition x_1 : R := -3.
Definition x_2 : R := 3.
Definition t_f : R := 20.
Definition h_1 : R := 0.
Definition h_2 : R := 0.
Definition g_0 (x : R) : R := sin (2 * PI * x / (x_2 - x_1)).
Definition N_x : nat := 20 + 1.
Definition N_t : nat := 100.

(** The initial condition left commented out in the cell. *)
Definition g_0_alt (x : R) : R := exp (- (2 * PI * x / (x_2 - x_1)) ^ 2).

Definition solution : result array2 :=
  Heat1D.solve f a x_1 x_2 t_f h_1 h_2 g_0 N_x N_t.

End HeatScenario.

(** ** The 1-D wave equation, CTCS *)

Module Wave1D.
Section Problem.

Variable f : R -> R -> R.
Variable c : R.
Variables x_1 x_2 t_f : R.
Variables h_1 h_2 : R.
Variables g_0 g_1 : R -> R.
Variables N_x N_t : nat.

(** The two growing lists [eqs] and [col]. *)
Definition system : Type := (list array2 * list R)%type.

(** [eqs.append(mat); col.append(b)] *)
Definition append (mat : array2) (b : R) (s : system) : system :=
  (fst s ++ [mat], snd s ++ [b]).

(** The body of the differential-equation loop at [(i, j)]. *)
Definition stencil (g : Grid1) (i j : nat) (s : system) : result system :=
  let i := Z.of_nat i in
  let j := Z.of_nat j in
  let mat := zeros2 N_t N_x in
  mat <- iadd2 mat i j (div2 (-2) (dt g)) ;;
  mat <- iadd2 mat (i - 1) j (div2 1 (dt g)) ;;
  mat <- iadd2 mat (i + 1) j (div2 1 (dt g)) ;;
  mat <- iadd2 mat i j (k <- div2 (c * c) (dx g) ;; Ok (k * 2)) ;;
  mat <- iadd2 mat i (j + 1) (k <- div2 (c * c) (dx g) ;; Ok (- k)) ;;
  mat <- iadd2 mat i (j - 1) (k <- div2 (c * c) (dx g) ;; Ok (- k)) ;;
  ti <- getitem1 (t g) i ;;
  xj <- getitem1 (x g) j ;;
  Ok (append mat (f ti xj) s).

(** [for i in range(1,N_t-1): for j in range(1,N_x-1): ...] *)
Definition pde_loop (g : Grid1) : system -> result system :=
  for_ (range 1 (N_t - 1)) (fun i => for_ (range 1 (N_x - 1)) (stencil g i)).

(** IVP Dirichlet: [mat[0,j] = 1], right-hand side [g_0(x[j])]. *)
Definition ivp_dirichlet (g : Grid1) (j : nat) (s : system) : result system :=
  let mat := zeros2 N_t N_x in
  mat <- setitem2 mat 0 (Z.of_nat j) 1 ;;
  xj <- getitem1 (x g) (Z.of_nat j) ;;
  Ok (append mat (g_0 xj) s).

(** IVP Neumann: [mat[0+1,j] = 1], [mat[0,j] = -1], right-hand side
    [g_1(x[j])]. *)
Definition ivp_neumann (g : Grid1) (j : nat) (s : system) : result system :=
  let mat := zeros2 N_t N_x in
  mat <- setitem2 mat (0 + 1) (Z.of_nat j) 1 ;;
  mat <- setitem2 mat 0 (Z.of_nat j) (-1) ;;
  xj <- getitem1 (x g) (Z.of_nat j) ;;
  Ok (append mat (g_1 xj) s).

(** Space bounds: [mat[i,0] = 1] with [h_1], then [mat[i,-1] = 1] with
    [h_2]. *)
Definition bound_left (i : nat) (s : system) : result system :=
  let mat := zeros2 N_t N_x in
  mat <- setitem2 mat (Z.of_nat i) 0 1 ;;
  Ok (append mat h_1 s).

Definition bound_right (i : nat) (s : system) : result system :=
  let mat := zeros2 N_t N_x in
  mat <- setitem2 mat (Z.of_nat i) (-1) 1 ;;
  Ok (append mat h_2 s).

(** The boundary-condition cells, in the order of the notebook. *)
Definition bc_loops (g : Grid1) (s : system) : result system :=
  s <- for_ (range 0 N_x) (ivp_dirichlet g) s ;;
  s <- for_ (range 1 (N_x - 1)) (ivp_neumann g) s ;;
  s <- for_ (range 1 N_t) bound_left s ;;
  for_ (range 1 N_t) bound_right s.

(** Grid, then the assembly cells, starting from [eqs = []], [col = []]. *)
Definition assemble : result system :=
  g <- make_grid x_1 x_2 t_f N_x N_t ;;
  s <- pde_loop g ([], []) ;;
  bc_loops g s.

(** [np.reshape(eqs, (N_t*N_x, N_t*N_x))]: every equation's coefficient
    grid becomes one row of the matrix; NumPy refuses the reshape unless
    the sizes agree. *)
Definition reshape_eqs (eqs : list array2) : result (list (list R)) :=
  if Nat.eqb (length eqs * (N_t * N_x)) ((N_t * N_x) * (N_t * N_x))
  then Ok (map (@concat R) eqs)
  else Raise ValueError.

(** The linear system handed to [np.linalg.solve]. *)
Definition linear_system : result (list (list R) * list R) :=
  s <- assemble ;;
  A <- reshape_eqs (fst s) ;;
  Ok (A, snd s).

(** The last cell: [u = np.linalg.solve(eqs, col)], then
    [u = np.reshape(u, (N_t, N_x))].  The solver is LAPACK's; over the
    reals what it returns is a vector [u] with [eqs u = col], the only one
    when the matrix is nonsingular.  [solved U] says that [U] is a field
    the cell may leave in [u]. *)
Definition solved (U : array2) : Prop :=
  exists A b u,
    linear_system = Ok (A, b) /\ is_solution A b u /\ U = reshape2 N_t N_x u.

End Problem.
End Wave1D.

(** The parameter cells of the 1-D wave example. *)
Module WaveScenario.

Definition f (t x : R) : R := 0 * x * t.
Definition c : R := 1 / 2.
Definition x_1 : R := - PI.
Definition x_2 : R := PI.
Definition t_f : R := 12.
Definition h_1 : R := 0.
Definition h_2 : R := 0.
Definition g_0 (x : R) : R := sin (2 * PI * x / (x_2 - x_1)).
Definition g_1 (x : R) : R := 0 * x.
Definition N_x : nat := 20 + 1.
Definition N_t : nat := 100.

Definition assemble : result Wave1D.system :=
  Wave1D.assemble f c x_1 x_2 t_f h_1 h_2 g_0 g_1 N_x N_t.

Definition linear_system : result (list (list R) * list R) :=
  Wave1D.linear_system f c x_1 x_2 t_f h_1 h_2 g_0 g_1 N_x N_t.

Definition solved : array2 -> Prop :=
  Wave1D.solved f c x_1 x_2 t_f h_1 h_2 g_0 g_1 N_x N_t.

End WaveScenario.

(** ** The 2-D wave equation, CTCS *)

Record Grid2 : Type := mkGrid2 {
  dx2 : R;
  dy2 : R;
  dt2 : R;
  xs2 : list R;
  ys2 : list R;
  ts2 : list R
}.

(** [dx = (x_2 - x_1) / float(N_x)], [dy = (y_2 - y_1) / float(N_y)],
    [dt = t_f / float(N_t)] and the three [np.linspace]. *)
Definition make_grid2 (x_1 x_2 y_1 y_2 t_f : R) (N_x N_y N_t : nat) : result Grid2 :=
  dx <- pydiv (x_2 - x_1) (INR N_x) ;;
  dy <- pydiv (y_2 - y_1) (INR N_y) ;;
  dt <- pydiv t_f (INR N_t) ;;
  Ok (mkGrid2 dx dy dt (linspace x_1 x_2 N_x) (linspace y_1 y_2 N_y)
              (linspace 0 t_f N_t)).

Module Wave2D.
Section Problem.

Variable f : R -> R -> R -> R.
Variable c : R.
Variables x_1 x_2 y_1 y_2 t_f : R.
Variables h_1 h_2 : R.
Variables g_0 g_1 : R -> R -> R.
Variables N_x N_y N_t : nat.

Definition system : Type := (list array3 * list R)%type.

Definition append (mat : array3) (b : R) (s : system) : system :=
  (fst s ++ [mat], snd s ++ [b]).

(** The body of the differential-equation loop at [(i, j, k)]. *)
Definition stencil (g : Grid2) (i j k : nat) (s : system) : result system :=
  let i := Z.of_nat i in
  let j := Z.of_nat j in
  let k := Z.of_nat k in
  let mat := zeros3 N_t N_x N_y in
  mat <- iadd3 mat i j k (div2 (-2) (dt2 g)) ;;
  mat <- iadd3 mat (i - 1) j k (div2 1 (dt2 g)) ;;
  mat <- iadd3 mat (i + 1) j k (div2 1 (dt2 g)) ;;
  mat <- iadd3 mat i j k (q <- div2 (c * c) (dx2 g) ;; Ok (q * 2)) ;;
  mat <- iadd3 mat i (j + 1) k (q <- div2 (c * c) (dx2 g) ;; Ok (- q)) ;;
  mat <- iadd3 mat i (j - 1) k (q <- div2 (c * c) (dx2 g) ;; Ok (- q)) ;;
  mat <- iadd3 mat i j k (q <- div2 (c * c) (dy2 g) ;; Ok (q * 2)) ;;
  mat <- iadd3 mat i j (k + 1) (q <- div2 (c * c) (dy2 g) ;; Ok (- q)) ;;
  mat <- iadd3 mat i j (k - 1) (q <- div2 (c * c) (dy2 g) ;; Ok (- q)) ;;
  ti <- getitem1 (ts2 g) i ;;
  xj <- getitem1 (xs2 g) j ;;
  yk <- getitem1 (ys2 g) k ;;
  Ok (append mat (f ti xj yk) s).

Definition pde_loop (g : Grid2) : system -> result system :=
  for_ (range 1 (N_t - 1)) (fun i =>
    for_ (range 1 (N_x - 1)) (fun j =>
      for_ (range 1 (N_y - 1)) (stencil g i j))).

(** IVP Dirichlet: [mat[0,j,k] = 1], right-hand side [g_0(x[j],y[k])]. *)
Definition ivp_dirichlet (g : Grid2) (j k : nat) (s : system) : result system :=
  let mat := zeros3 N_t N_x N_y in
  mat <- setitem3 mat 0 (Z.of_nat j) (Z.of_nat k) 1 ;;
  xj <- getitem1 (xs2 g) (Z.of_nat j) ;;
  yk <- getitem1 (ys2 g) (Z.of_nat k) ;;
  Ok (append mat (g_0 xj yk) s).

(** IVP Neumann: [mat[0+1,j,k] = 1], [mat[0,j,k] = -1], right-hand side
    [g_1(x[j],y[k])]. *)
Definition ivp_neumann (g : Grid2) (j k : nat) (s : system) : result system :=
  let mat := zeros3 N_t N_x N_y in
  mat <- setitem3 mat (0 + 1) (Z.of_nat j) (Z.of_nat k) 1 ;;
  mat <- setitem3 mat 0 (Z.of_nat j) (Z.of_nat k) (-1) ;;
  xj <- getitem1 (xs2 g) (Z.of_nat j) ;;
  yk <- getitem1 (ys2 g) (Z.of_nat k) ;;
  Ok (append mat (g_1 xj yk) s).

(** Space bounds, the four faces in the order of the cell. *)
Definition bound_x1 (i k : nat) (s : system) : result system :=
  let mat := zeros3 N_t N_x N_y in
  mat <- setitem3 mat (Z.of_nat i) 0 (Z.of_nat k) 1 ;;
  Ok (append mat h_1 s).

Definition bound_x2 (i k : nat) (s : system) : result system :=
  let mat := zeros3 N_t N_x N_y in
  mat <- setitem3 mat (Z.of_nat i) (-1) (Z.of_nat k) 1 ;;
  Ok (append mat h_2 s).

Definition bound_y1 (i j : nat) (s : system) : result system :=
  let mat := zeros3 N_t N_x N_y in
  mat <- setitem3 mat (Z.of_nat i) (Z.of_nat j) 0 1 ;;
  Ok (append mat h_1 s).

Definition bound_y2 (i j : nat) (s : system) : result system :=
  let mat := zeros3 N_t N_x N_y in
  mat <- setitem3 mat (Z.of_nat i) (Z.of_nat j) (-1) 1 ;;
  Ok (append mat h_2 s).

Definition bc_loops (g : Grid2) (s : system) : result system :=
  s <- for_ (range 0 N_x) (fun j => for_ (range 0 N_y) (ivp_dirichlet g j)) s ;;
  s <- for_ (range 1 (N_x - 1)) (fun j => for_ (range 1 (N_y - 1)) (ivp_neumann g j)) s ;;
  s <- for_ (range 1 N_t) (fun i => for_ (range 0 N_y) (bound_x1 i)) s ;;
  s <- for_ (range 1 N_t) (fun i => for_ (range 0 N_y) (bound_x2 i)) s ;;
  s <- for_ (range 1 N_t) (fun i => for_ (range 1 (N_x - 1)) (bound_y1 i)) s ;;
  for_ (range 1 N_t) (fun i => for_ (range 1 (N_x - 1)) (bound_y2 i)) s.

Definition assemble : result system :=
  g <- make_grid2 x_1 x_2 y_1 y_2 t_f N_x N_y N_t ;;
  s <- pde_loop g ([], []) ;;
  bc_loops g s.

End Problem.
End Wave2D.

(** * Closed forms

    What the cells compute when they do not raise, written without the
    error monad; the properties below first show that the cells return
    these, then reason on them. *)

(** The grids of the grid cells. *)
Definition grid1 (x_1 x_2 t_f : R) (N_x N_t : nat) : Grid1 :=
  mkGrid1 ((x_2 - x_1) / INR N_x) (t_f / INR N_t)
          (linspace x_1 x_2 N_x) (linspace 0 t_f N_t).

Definition grid2 (x_1 x_2 y_1 y_2 t_f : R) (N_x N_y N_t : nat) : Grid2 :=
  mkGrid2 ((x_2 - x_1) / INR N_x) ((y_2 - y_1) / INR N_y) (t_f / INR N_t)
          (linspace x_1 x_2 N_x) (linspace y_1 y_2 N_y) (linspace 0 t_f N_t).

(** ** The rows of the heat field in closed form *)

Module HeatRows.
Section Problem.

Variable f : R -> R -> R.
Variable a : R.
Variables x_1 x_2 t_f : R.
Variables h_1 h_2 : R.
Variable g_0 : R -> R.
Variables N_x N_t : nat.

Local Abbreviation grid := (grid1 x_1 x_2 t_f N_x N_t).

(** The interior of the row that follows row [r] of time index [i]. *)
Definition interior (g : Grid1) (i : nat) (r : list R) : list R :=
  let mid := firstn (length r - 2) (skipn 1 r) in
  vadd (vadd mid
             (vscale (a * dt g / dx g / dx g)
                     (vsub (vadd (firstn (length r - 2) r) (skipn 2 r))
                           (vscale 2 mid))))
       (vscale (dt g)
               (map (f (nth i (t g) 0))
                    (firstn (length (x g) - 2) (skipn 1 (x g))))).

(** Row [nxt] after the slice assignment of iteration [i]. *)
Definition next (g : Grid1) (i : nat) (r nxt : list R) : list R :=
  firstn 1 nxt ++ interior g i r ++ skipn (length nxt - 1) nxt.

(** The rows the loop leaves behind, from row [r] of index [i] on, when
    [rest] are the rows below it before the loop reaches them. *)
Fixpoint march (g : Grid1) (i : nat) (r : list R) (rest : array2) : array2 :=
  match rest with
  | [] => [r]
  | nxt :: rest' => r :: march g (S i) (next g i r nxt) rest'
  end.

(** A row with the two boundary values written at its ends. *)
Definition edged (r : list R) : list R := upd (N_x - 1) h_2 (upd 0 h_1 r).

(** The field when the loop starts. *)
Definition field0 (g : Grid1) : array2 :=
  edged (map g_0 (x g)) :: repeat (edged (repeat 0 N_x)) (N_t - 1).

Definition field : array2 :=
  march grid 0 (edged (map g_0 (x grid))) (repeat (edged (repeat 0 N_x)) (N_t - 1)).

(** Row [i] of the returned field. *)
Definition row (i : nat) : list R := nth i field [].

(** [max_j |r[j]|] *)
Definition max_abs (r : list R) : R :=
  fold_right (fun v m => Rmax (Rabs v) m) 0 r.

End Problem.
End HeatRows.

(** ** The equations of the 1-D wave assembly in closed form *)

Module WaveEquations.
Section Problem.

Variable f : R -> R -> R.
Variable c : R.
Variables x_1 x_2 t_f : R.
Variables h_1 h_2 : R.
Variables g_0 g_1 : R -> R.
Variables N_x N_t : nat.

Local Abbreviation grid := (grid1 x_1 x_2 t_f N_x N_t).

(** The coefficient grids the loop bodies build, subscripts normalised. *)
Definition stencil_mat (g : Grid1) (i j : nat) : array2 :=
  let m0 := zeros2 N_t N_x in
  let m1 := add2 m0 i j (-2 / dt g / dt g) in
  let m2 := add2 m1 (i - 1) j (1 / dt g / dt g) in
  let m3 := add2 m2 (i + 1) j (1 / dt g / dt g) in
  let m4 := add2 m3 i j (c * c / dx g / dx g * 2) in
  let m5 := add2 m4 i (j + 1) (- (c * c / dx g / dx g)) in
  add2 m5 i (j - 1) (- (c * c / dx g / dx g)).

Definition dirichlet_mat (j : nat) : array2 := put2 (zeros2 N_t N_x) 0 j 1.

Definition neumann_mat (j : nat) : array2 :=
  put2 (put2 (zeros2 N_t N_x) 1 j 1) 0 j (-1).

Definition left_mat (i : nat) : array2 := put2 (zeros2 N_t N_x) i 0 1.

Definition right_mat (i : nat) : array2 := put2 (zeros2 N_t N_x) i (N_x - 1) 1.

(** What the differential-equation loop appends. *)
Definition pde_eqs (g : Grid1) : list array2 :=
  flat_map (fun i => map (stencil_mat g i) (range 1 (N_x - 1))) (range 1 (N_t - 1)).

Definition pde_col (g : Grid1) : list R :=
  flat_map (fun i => map (fun j => f (nth i (t g) 0) (nth j (x g) 0))
                         (range 1 (N_x - 1)))
           (range 1 (N_t - 1)).

(** What the boundary-condition loops append. *)
Definition bc_eqs : list array2 :=
  map dirichlet_mat (range 0 N_x) ++ map neumann_mat (range 1 (N_x - 1)) ++
  map left_mat (range 1 N_t) ++ map right_mat (range 1 N_t).

Definition bc_col (g : Grid1) : list R :=
  map (fun j => g_0 (nth j (x g) 0)) (range 0 N_x) ++
  map (fun j => g_1 (nth j (x g) 0)) (range 1 (N_x - 1)) ++
  map (fun _ => h_1) (range 1 N_t) ++ map (fun _ => h_2) (range 1 N_t).

(** The subscripts the body of the differential-equation loop writes at
    [(i, j)], in the order of its six statements. *)
Definition stencil_writes (i j : nat) : list (nat * nat) :=
  [(i, j); (i - 1, j); (i + 1, j); (i, j); (i, j + 1); (i, j - 1)]%nat.

(** The loop indices of the differential-equation loop. *)
Definition stencil_centres : list (nat * nat) :=
  flat_map (fun i => map (fun j => (i, j)) (range 1 (N_x - 1))) (range 1 (N_t - 1)).

(** Every subscript written by the differential-equation loop. *)
Definition stencil_index_set : list (nat * nat) :=
  flat_map (fun p => stencil_writes (fst p) (snd p)) stencil_centres.

(** Every subscript written by the boundary-condition loops. *)
Definition boundary_index_set : list (nat * nat) :=
  (map (fun j => (0, j)) (range 0 N_x) ++
   flat_map (fun j => [(0 + 1, j); (0, j)]) (range 1 (N_x - 1)) ++
   map (fun i => (i, 0)) (range 1 N_t) ++
   map (fun i => (i, N_x - 1)) (range 1 N_t))%nat.

End Problem.
End WaveEquations.

(** ** The equations of the 2-D wave assembly in closed form *)

Module Wave2DEquations.
Section Problem.

Variable f : R -> R -> R -> R.
Variable c : R.
Variables x_1 x_2 y_1 y_2 t_f : R.
Variables h_1 h_2 : R.
Variables g_0 g_1 : R -> R -> R.
Variables N_x N_y N_t : nat.

Local Abbreviation grid := (grid2 x_1 x_2 y_1 y_2 t_f N_x N_y N_t).

(** The coefficient grids the loop bodies build, subscripts normalised. *)
Definition stencil_mat (g : Grid2) (i j k : nat) : array3 :=
  let m0 := zeros3 N_t N_x N_y in
  let m1 := add3 m0 i j k (-2 / dt2 g / dt2 g) in
  let m2 := add3 m1 (i - 1) j k (1 / dt2 g / dt2 g) in
  let m3 := add3 m2 (i + 1) j k (1 / dt2 g / dt2 g) in
  let m4 := add3 m3 i j k (c * c / dx2 g / dx2 g * 2) in
  let m5 := add3 m4 i (j + 1) k (- (c * c / dx2 g / dx2 g)) in
  let m6 := add3 m5 i (j - 1) k (- (c * c / dx2 g / dx2 g)) in
  let m7 := add3 m6 i j k (c * c / dy2 g / dy2 g * 2) in
  let m8 := add3 m7 i j (k + 1) (- (c * c / dy2 g / dy2 g)) in
  add3 m8 i j (k - 1) (- (c * c / dy2 g / dy2 g)).

Definition dirichlet_mat (j k : nat) : array3 := put3 (zeros3 N_t N_x N_y) 0 j k 1.

Definition neumann_mat (j k : nat) : array3 :=
  put3 (put3 (zeros3 N_t N_x N_y) 1 j k 1) 0 j k (-1).

Definition x1_mat (i k : nat) : array3 := put3 (zeros3 N_t N_x N_y) i 0 k 1.

Definition x2_mat (i k : nat) : array3 := put3 (zeros3 N_t N_x N_y) i (N_x - 1) k 1.

Definition y1_mat (i j : nat) : array3 := put3 (zeros3 N_t N_x N_y) i j 0 1.

Definition y2_mat (i j : nat) : array3 := put3 (zeros3 N_t N_x N_y) i j (N_y - 1) 1.

(** What the loops append. *)
Definition pde_eqs (g : Grid2) : list array3 :=
  flat_map (fun i =>
    flat_map (fun j => map (stencil_mat g i j) (range 1 (N_y - 1)))
             (range 1 (N_x - 1)))
    (range 1 (N_t - 1)).

Definition pde_col (g : Grid2) : list R :=
  flat_map (fun i =>
    flat_map (fun j =>
      map (fun k => f (nth i (ts2 g) 0) (nth j (xs2 g) 0) (nth k (ys2 g) 0))
          (range 1 (N_y - 1)))
      (range 1 (N_x - 1)))
    (range 1 (N_t - 1)).

Definition dirichlet_eqs : list array3 :=
  flat_map (fun j => map (dirichlet_mat j) (range 0 N_y)) (range 0 N_x).

Definition dirichlet_col (g : Grid2) : list R :=
  flat_map (fun j => map (fun k => g_0 (nth j (xs2 g) 0) (nth k (ys2 g) 0))
                         (range 0 N_y))
           (range 0 N_x).

Definition neumann_eqs : list array3 :=
  flat_map (fun j => map (neumann_mat j) (range 1 (N_y - 1))) (range 1 (N_x - 1)).

Definition neumann_col (g : Grid2) : list R :=
  flat_map (fun j => map (fun k => g_1 (nth j (xs2 g) 0) (nth k (ys2 g) 0))
                         (range 1 (N_y - 1)))
           (range 1 (N_x - 1)).

Definition face_eqs : list array3 :=
  flat_map (fun i => map (x1_mat i) (range 0 N_y)) (range 1 N_t) ++
  flat_map (fun i => map (x2_mat i) (range 0 N_y)) (range 1 N_t) ++
  flat_map (fun i => map (y1_mat i) (range 1 (N_x - 1))) (range 1 N_t) ++
  flat_map (fun i => map (y2_mat i) (range 1 (N_x - 1))) (range 1 N_t).

Definition face_col : list R :=
  flat_map (fun i : nat => map (fun _ : nat => h_1) (range 0 N_y)) (range 1 N_t) ++
  flat_map (fun i : nat => map (fun _ : nat => h_2) (range 0 N_y)) (range 1 N_t) ++
  flat_map (fun i : nat => map (fun _ : nat => h_1) (range 1 (N_x - 1))) (range 1 N_t) ++
  flat_map (fun i : nat => map (fun _ : nat => h_2) (range 1 (N_x - 1))) (range 1 N_t).

End Problem.
End Wave2DEquations.

(** ** The discrete problem the assembled system states, and its solution by time marching *)

Module WaveProblem.
Section Problem.

Variable f : R -> R -> R.
Variable c : R.
Variables x_1 x_2 t_f : R.
Variables h_1 h_2 : R.
Variables g_0 g_1 : R -> R.
Variables N_x N_t : nat.

Local Abbreviation grid := (grid1 x_1 x_2 t_f N_x N_t).
Local Abbreviation xs := (linspace x_1 x_2 N_x).
Local Abbreviation ts := (linspace 0 t_f N_t).

(** The field [U] satisfies every equation of [eqs] with right-hand
    sides [col]: each coefficient grid dotted with the field gives the
    entry of [col]. *)
Definition satisfies (eqs : list array2) (col : list R) (U : array2) : Prop :=
  Forall2 (fun mat b => dot2 mat U = b) eqs col.

(** The difference equations the assembled system states, one family per
    loop of the assembly. *)
Definition stencil_eqn (U : array2) (i j : nat) : Prop :=
  (-2 / dt grid / dt grid + c * c / dx grid / dx grid * 2) * entry U i j
  + 1 / dt grid / dt grid * (entry U (i - 1) j + entry U (i + 1) j)
  - c * c / dx grid / dx grid * (entry U i (j + 1) + entry U i (j - 1))
  = f (nth i ts 0) (nth j xs 0).

Definition discrete_problem (U : array2) : Prop :=
  (forall i j, (1 <= i)%nat -> (i + 1 < N_t)%nat -> (1 <= j)%nat -> (j + 1 < N_x)%nat ->
     stencil_eqn U i j) /\
  (forall j, (j < N_x)%nat -> entry U 0 j = g_0 (nth j xs 0)) /\
  (forall j, (1 <= j)%nat -> (j + 1 < N_x)%nat ->
     entry U 1 j - entry U 0 j = g_1 (nth j xs 0)) /\
  (forall i, (1 <= i)%nat -> (i < N_t)%nat -> entry U i 0 = h_1) /\
  (forall i, (1 <= i)%nat -> (i < N_t)%nat -> entry U i (N_x - 1) = h_2).

(** The entry above [(i, j)] that the stencil equation at [(i, j)]
    determines from rows [prev] and [cur] of indices [i-1] and [i]. *)
Definition march_entry (i j : nat) (prev cur : list R) : R :=
  dt grid ^ 2
  * (f (nth i ts 0) (nth j xs 0)
     - (-2 / dt grid / dt grid + c * c / dx grid / dx grid * 2) * nth j cur 0
     + c * c / dx grid / dx grid * (nth (j + 1) cur 0 + nth (j - 1) cur 0))
  - nth j prev 0.

(** Row 1 from row 0, and row [i+1] from rows [i-1] and [i]. *)
Definition row1 (r0 : list R) : list R :=
  map (fun j => if Nat.eqb j 0 then h_1
                else if Nat.eqb j (N_x - 1) then h_2
                     else nth j r0 0 + g_1 (nth j xs 0))
      (seq 0 N_x).

Definition next_row (i : nat) (prev cur : list R) : list R :=
  map (fun j => if Nat.eqb j 0 then h_1
                else if Nat.eqb j (N_x - 1) then h_2
                     else march_entry i j prev cur)
      (seq 0 N_x).

(** Rows [k] and [k+1] of the marched field. *)
Fixpoint rows2 (k : nat) : list R * list R :=
  match k with
  | O => (map g_0 xs, row1 (map g_0 xs))
  | S k' => let p := rows2 k' in (snd p, next_row (S k') (fst p) (snd p))
  end.

Definition wave_row (k : nat) : list R := fst (rows2 k).

Definition wave_field : array2 := map wave_row (seq 0 N_t).

End Problem.
End WaveProblem.

(** ** The shape of a stencil equation *)

(** [mat] is the CTCS stencil centred at [(i, j)]: zero outside the
    centre and its four neighbours, [1/dt^2] at the two time neighbours
    and [-c^2/dx^2] at the two space neighbours. *)
Definition five_point (c : R) (g : Grid1) (mat : array2) (i j : nat) : Prop :=
  (forall i' j', entry mat i' j' <> 0 ->
     In (i', j') [(i, j); (i - 1, j); (i + 1, j); (i, j - 1); (i, j + 1)]%nat) /\
  entry mat (i - 1) j = 1 / dt g ^ 2 /\
  entry mat (i + 1) j = 1 / dt g ^ 2 /\
  entry mat i (j - 1) = - (c ^ 2 / dx g ^ 2) /\
  entry mat i (j + 1) = - (c ^ 2 / dx g ^ 2).

(** The same in two space dimensions, six neighbours. *)
Definition seven_point (c : R) (g : Grid2) (mat : array3) (i j k : nat) : Prop :=
  (forall i' j' k', entry3 mat i' j' k' <> 0 ->
     In (i', j', k') [(i, j, k); (i - 1, j, k); (i + 1, j, k); (i, j - 1, k);
                      (i, j + 1, k); (i, j, k - 1); (i, j, k + 1)]%nat) /\
  entry3 mat (i - 1) j k = 1 / dt2 g ^ 2 /\
  entry3 mat (i + 1) j k = 1 / dt2 g ^ 2 /\
  entry3 mat i (j - 1) k = - (c ^ 2 / dx2 g ^ 2) /\
  entry3 mat i (j + 1) k = - (c ^ 2 / dx2 g ^ 2) /\
  entry3 mat i j (k - 1) = - (c ^ 2 / dy2 g ^ 2) /\
  entry3 mat i j (k + 1) = - (c ^ 2 / dy2 g ^ 2).

(** ** Sums of fields *)

(** The sum of two fields of one shape, entry by entry. *)
Definition add_fields (U V : array2) : array2 := map2 vadd U V.

(** ** The solve cell of the 2-D wave example *)

(** The row-major flattening of a three-dimensional array, as
    [np.reshape] lays it out. *)
Definition flatten3 (a : array3) : list R := concat (map (@concat R) a).

(** [np.reshape(u, (n, m, p))] of a flat vector. *)
Definition reshape3 (n m p : nat) (l : list R) : array3 :=
  map (reshape2 m p) (reshape2 n (m * p) l).

(** An equation's coefficient grid applied to a field. *)
Definition dot3 (M U : array3) : R := dot (flatten3 M) (flatten3 U).

Module Wave2DSolve.
Section Problem.

Variable f : R -> R -> R -> R.
Variable c : R.
Variables x_1 x_2 y_1 y_2 t_f : R.
Variables h_1 h_2 : R.
Variables g_0 g_1 : R -> R -> R.
Variables N_x N_y N_t : nat.

(** [np.reshape(eqs, (N_t*N_x*N_y, N_t*N_x*N_y))]: every equation's
    coefficient grid becomes one row of the matrix; NumPy refuses the
    reshape unless the sizes agree. *)
Definition reshape_eqs (eqs : list array3) : result (list (list R)) :=
  if Nat.eqb (length eqs * (N_t * N_x * N_y)) ((N_t * N_x * N_y) * (N_t * N_x * N_y))
  then Ok (map flatten3 eqs)
  else Raise ValueError.

(** The linear system handed to [np.linalg.solve]. *)
Definition linear_system : result (list (list R) * list R) :=
  s <- Wave2D.assemble f c x_1 x_2 y_1 y_2 t_f h_1 h_2 g_0 g_1 N_x N_y N_t ;;
  A <- reshape_eqs (fst s) ;;
  Ok (A, snd s).

(** The last cell: [u = np.linalg.solve(eqs, col)], then
    [u = np.reshape(u, (N_t, N_x, N_y))]; [solved U] says that [U] is a
    field the cell may leave in [u]. *)
Definition solved (U : array3) : Prop :=
  exists A b u,
    linear_system = Ok (A, b) /\ is_solution A b u /\ U = reshape3 N_t N_x N_y u.

End Problem.
End Wave2DSolve.

(** ** The discrete problem the 2-D system states, and its solution by time marching *)

Module Wave2DProblem.
Section Problem.

Variable f : R -> R -> R -> R.
Variable c : R.
Variables x_1 x_2 y_1 y_2 t_f : R.
Variables h_1 h_2 : R.
Variables g_0 g_1 : R -> R -> R.
Variables N_x N_y N_t : nat.

Local Abbreviation grid := (grid2 x_1 x_2 y_1 y_2 t_f N_x N_y N_t).
Local Abbreviation xs := (linspace x_1 x_2 N_x).
Local Abbreviation ys := (linspace y_1 y_2 N_y).
Local Abbreviation ts := (linspace 0 t_f N_t).

Definition satisfies (eqs : list array3) (col : list R) (U : array3) : Prop :=
  Forall2 (fun mat b => dot3 mat U = b) eqs col.

(** The difference equations the assembled system states, one family per
    loop of the assembly. *)
Definition stencil_eqn (U : array3) (i j k : nat) : Prop :=
  (-2 / dt2 grid / dt2 grid + c * c / dx2 grid / dx2 grid * 2
   + c * c / dy2 grid / dy2 grid * 2) * entry3 U i j k
  + 1 / dt2 grid / dt2 grid * (entry3 U (i - 1) j k + entry3 U (i + 1) j k)
  - c * c / dx2 grid / dx2 grid * (entry3 U i (j + 1) k + entry3 U i (j - 1) k)
  - c * c / dy2 grid / dy2 grid * (entry3 U i j (k + 1) + entry3 U i j (k - 1))
  = f (nth i ts 0) (nth j xs 0) (nth k ys 0).

Definition discrete_problem (U : array3) : Prop :=
  (forall i j k, (1 <= i)%nat -> (i + 1 < N_t)%nat -> (1 <= j)%nat -> (j + 1 < N_x)%nat ->
     (1 <= k)%nat -> (k + 1 < N_y)%nat -> stencil_eqn U i j k) /\
  (forall j k, (j < N_x)%nat -> (k < N_y)%nat ->
     entry3 U 0 j k = g_0 (nth j xs 0) (nth k ys 0)) /\
  (forall j k, (1 <= j)%nat -> (j + 1 < N_x)%nat -> (1 <= k)%nat -> (k + 1 < N_y)%nat ->
     entry3 U 1 j k - entry3 U 0 j k = g_1 (nth j xs 0) (nth k ys 0)) /\
  (forall i k, (1 <= i)%nat -> (i < N_t)%nat -> (k < N_y)%nat -> entry3 U i 0 k = h_1) /\
  (forall i k, (1 <= i)%nat -> (i < N_t)%nat -> (k < N_y)%nat ->
     entry3 U i (N_x - 1) k = h_2) /\
  (forall i j, (1 <= i)%nat -> (i < N_t)%nat -> (1 <= j)%nat -> (j + 1 < N_x)%nat ->
     entry3 U i j 0 = h_1) /\
  (forall i j, (1 <= i)%nat -> (i < N_t)%nat -> (1 <= j)%nat -> (j + 1 < N_x)%nat ->
     entry3 U i j (N_y - 1) = h_2).

(** The value a time plane after the first holds at [(j, k)]: fixed by a
    space-bound equation on the four faces, [inner] elsewhere. *)
Definition face_value (j k : nat) (inner : R) : R :=
  if Nat.eqb j 0 then h_1
  else if Nat.eqb j (N_x - 1) then h_2
       else if Nat.eqb k 0 then h_1
            else if Nat.eqb k (N_y - 1) then h_2
                 else inner.

(** The value above [(i, j, k)] that the stencil equation at [(i, j, k)]
    determines from the planes [prev] and [cur] of indices [i-1] and
    [i]. *)
Definition march_value (i j k : nat) (prev cur : nat -> nat -> R) : R :=
  dt2 grid ^ 2
  * (f (nth i ts 0) (nth j xs 0) (nth k ys 0)
     - (-2 / dt2 grid / dt2 grid + c * c / dx2 grid / dx2 grid * 2
        + c * c / dy2 grid / dy2 grid * 2) * cur j k
     + c * c / dx2 grid / dx2 grid * (cur (j + 1)%nat k + cur (j - 1)%nat k)
     + c * c / dy2 grid / dy2 grid * (cur j (k + 1)%nat + cur j (k - 1)%nat))
  - prev j k.

(** Planes [n] and [n+1] of the marched field, as functions of the two
    space indices. *)
Fixpoint planes2 (n : nat) : (nat -> nat -> R) * (nat -> nat -> R) :=
  match n with
  | O => let p0 := fun j k => g_0 (nth j xs 0) (nth k ys 0) in
         (p0, fun j k => face_value j k (p0 j k + g_1 (nth j xs 0) (nth k ys 0)))
  | S n' => let p := planes2 n' in
            (snd p, fun j k => face_value j k (march_value (S n') j k (fst p) (snd p)))
  end.

Definition wave_value (i j k : nat) : R := fst (planes2 i) j k.

Definition wave_field : array3 :=
  map (fun i => map (fun j => map (wave_value i j) (seq 0 N_y)) (seq 0 N_x))
      (seq 0 N_t).

End Problem.
End Wave2DProblem.

(** The parameter cells of the 2-D wave example. *)
Module Wave2DScenario.

Definition f (t x y : R) : R := 0 * x * y * t.
Definition c : R := 1 / 10.
Definition x_1 : R := -3.
Definition x_2 : R := 3.
Definition y_1 : R := -3.
Definition y_2 : R := 3.
Definition t_f : R := 40.
Definition h_1 : R := 0.
Definition h_2 : R := 0.
Definition g_0 (x y : R) : R :=
  sin (2 * PI * x / (x_2 - x_1)) * sin (2 * PI * y / (y_2 - y_1)).
Definition g_1 (x y : R) : R := 0 * x * y.
Definition N_x : nat := 10 + 1.
Definition N_y : nat := 10 + 1.
Definition N_t : nat := 50.

Definition assemble : result Wave2D.system :=
  Wave2D.assemble f c x_1 x_2 y_1 y_2 t_f h_1 h_2 g_0 g_1 N_x N_y N_t.

Definition linear_system : result (list (list R) * list R) :=
  Wave2DSolve.linear_system f c x_1 x_2 y_1 y_2 t_f h_1 h_2 g_0 g_1 N_x N_y N_t.

Definition solved : array3 -> Prop :=
  Wave2DSolve.solved f c x_1 x_2 y_1 y_2 t_f h_1 h_2 g_0 g_1 N_x N_y N_t.

End Wave2DScenario.

(** ** The amplitude of a standing mode *)

(** The three-term recurrence [A 0 = 1], [A 1 = 1],
    [A (n + 2) = q * A (n + 1) - A n], computed on pairs of consecutive
    terms. *)
Fixpoint amplitudes (q : R) (n : nat) : R * R :=
  match n with
  | O => (1, 1)
  | S n' => let p := amplitudes q n' in (snd p, q * snd p - fst p)
  end.

Definition amplitude (q : R) (n : nat) : R := fst (amplitudes q n).

(** * Properties *)

(** ** The error monad and the loops *)

Lemma pydiv_ok (p q : R) : q <> 0 -> pydiv p q = Ok (p / q).
Proof.
  intros Hq. unfold pydiv. destruct (Req_dec_T q 0); [contradiction|reflexivity].
Qed.

Lemma div2_ok (p q : R) : q <> 0 -> div2 p q = Ok (p / q / q).
Proof.
  intros Hq. unfold div2. rewrite pydiv_ok by assumption. cbn [bind].
  now apply pydiv_ok.
Qed.

Lemma pydiv_zero (p : R) : pydiv p 0 = Raise ZeroDivisionError.
Proof.
  unfold pydiv. destruct (Req_dec_T 0 0); [reflexivity|congruence].
Qed.

Lemma bind_Ok {A B} (m : result A) (k : A -> result B) (b : B) :
  bind m k = Ok b -> exists a, m = Ok a /\ k a = Ok b.
Proof.
  destruct m as [a|e]; simpl; intros H; [eauto|discriminate].
Qed.

Lemma for_app {S I} (l1 l2 : list I) (body : I -> S -> result S) (s : S) :
  for_ (l1 ++ l2) body s = (s' <- for_ l1 body s ;; for_ l2 body s').
Proof.
  revert s; induction l1 as [|i l1 IH]; intros s; simpl; auto.
  destruct (body i s); simpl; auto.
Qed.

(** A loop whose every iteration appends to both lists appends the
    concatenation of what the iterations append. *)
Lemma for_appends {I X Y} (l : list I)
      (body : I -> (list X * list Y) -> result (list X * list Y))
      (E : I -> list X) (C : I -> list Y) :
  (forall i s, In i l -> body i s = Ok (fst s ++ E i, snd s ++ C i)) ->
  forall s, for_ l body s = Ok (fst s ++ flat_map E l, snd s ++ flat_map C l).
Proof.
  induction l as [|i l IH]; intros Hb s; simpl.
  - now rewrite !app_nil_r; destruct s.
  - rewrite Hb by now left. simpl.
    rewrite IH by (intros; apply Hb; now right). simpl.
    now rewrite <- !app_assoc.
Qed.

Lemma in_range (lo hi k : nat) : In k (range lo hi) <-> (lo <= k < hi)%nat.
Proof. unfold range. rewrite in_seq. lia. Qed.

Lemma length_range (lo hi : nat) : length (range lo hi) = (hi - lo)%nat.
Proof. unfold range. apply length_seq. Qed.

Lemma nth_range (lo hi k d : nat) :
  (k < hi - lo)%nat -> nth k (range lo hi) d = (lo + k)%nat.
Proof. intros H. unfold range. now apply seq_nth. Qed.

(** ** Subscripts *)

Lemma norm_index_nat (n k : nat) : (k < n)%nat -> norm_index n (Z.of_nat k) = Ok k.
Proof.
  intros H. unfold norm_index.
  replace ((0 <=? Z.of_nat k) && (Z.of_nat k <? Z.of_nat n))%Z with true.
  - now rewrite Nat2Z.id.
  - symmetry. apply andb_true_iff. split; [apply Z.leb_le|apply Z.ltb_lt]; lia.
Qed.

Lemma norm_index_pred (n k : nat) :
  (1 <= k <= n)%nat -> norm_index n (Z.of_nat k - 1) = Ok (k - 1)%nat.
Proof.
  intros H. replace (Z.of_nat k - 1)%Z with (Z.of_nat (k - 1)) by lia.
  apply norm_index_nat. lia.
Qed.

Lemma norm_index_succ (n k : nat) :
  (k + 1 < n)%nat -> norm_index n (Z.of_nat k + 1) = Ok (k + 1)%nat.
Proof.
  intros H. replace (Z.of_nat k + 1)%Z with (Z.of_nat (k + 1)) by lia.
  now apply norm_index_nat.
Qed.

Lemma norm_index_last (n : nat) : (1 <= n)%nat -> norm_index n (-1) = Ok (n - 1)%nat.
Proof.
  intros H. unfold norm_index.
  replace (0 <=? -1)%Z with false by reflexivity.
  replace (-1 <? 0)%Z with true by reflexivity.
  replace (- Z.of_nat n <=? -1)%Z with true by (symmetry; apply Z.leb_le; lia).
  cbv [andb]. f_equal. lia.
Qed.

Lemma norm_index_lt (n : nat) (k : Z) (k' : nat) :
  norm_index n k = Ok k' -> (k' < n)%nat.
Proof.
  unfold norm_index.
  destruct ((0 <=? k) && (k <? Z.of_nat n))%Z eqn:E1.
  - apply andb_true_iff in E1 as [H1 H2].
    apply Z.leb_le in H1. apply Z.ltb_lt in H2. intros [= <-]. lia.
  - destruct ((- Z.of_nat n <=? k) && (k <? 0))%Z eqn:E2; [|discriminate].
    apply andb_true_iff in E2 as [H1 H2].
    apply Z.leb_le in H1. apply Z.ltb_lt in H2. intros [= <-]. lia.
Qed.

(** ** Updates of lists *)

Lemma length_upd {A} (k : nat) (v : A) (l : list A) : length (upd k v l) = length l.
Proof.
  revert k; induction l as [|b l IH]; intros [|k]; simpl; auto.
Qed.

Lemma nth_upd_eq {A} (k : nat) (v : A) (l : list A) (d : A) :
  (k < length l)%nat -> nth k (upd k v l) d = v.
Proof.
  revert k; induction l as [|b l IH]; intros [|k] H; simpl in *; try lia; auto.
  apply IH; lia.
Qed.

Lemma nth_upd_neq {A} (k k' : nat) (v : A) (l : list A) (d : A) :
  k <> k' -> nth k' (upd k v l) d = nth k' l d.
Proof.
  revert k k'; induction l as [|b l IH]; intros [|k] [|k'] H; simpl;
    auto; try congruence.
Qed.

Lemma upd_app {A} (k : nat) (v b : A) (l1 l2 : list A) :
  length l1 = k -> upd k v (l1 ++ b :: l2) = l1 ++ v :: l2.
Proof.
  revert k; induction l1 as [|e l1 IH]; intros k <-; simpl; auto.
  now rewrite IH.
Qed.

(** ** Shapes and entries of two-dimensional arrays *)

Lemma shape2_zeros (n m : nat) : shape2 n m (zeros2 n m).
Proof.
  split; [apply repeat_length|].
  apply Forall_forall. intros r Hr. apply repeat_spec in Hr. subst.
  apply repeat_length.
Qed.

Lemma shape2_row (n m : nat) (a : array2) (i : nat) :
  shape2 n m a -> (i < n)%nat -> length (nth i a []) = m.
Proof.
  intros [Hn Hm] Hi. rewrite Forall_forall in Hm. apply Hm, nth_In. lia.
Qed.

Lemma Forall_upd {A} (P : A -> Prop) (k : nat) (v : A) (l : list A) :
  Forall P l -> P v -> Forall P (upd k v l).
Proof.
  intros Hl Hv. revert k; induction Hl as [|b l Hb Hl IH]; intros [|k]; simpl;
    constructor; auto.
Qed.

Lemma shape2_put2 (n m : nat) (a : array2) (i j : nat) (v : R) :
  shape2 n m a -> (i < n)%nat -> shape2 n m (put2 a i j v).
Proof.
  intros Ha Hi. pose proof (shape2_row _ _ _ _ Ha Hi) as Hr. destruct Ha as [Hn Hm].
  split; unfold put2.
  - now rewrite length_upd.
  - apply Forall_upd; auto. now rewrite length_upd.
Qed.

Lemma entry_zeros (n m i j : nat) : entry (zeros2 n m) i j = 0.
Proof.
  unfold entry, zeros2.
  destruct (Nat.lt_ge_cases i n) as [Hi|Hi].
  - rewrite nth_repeat_lt by assumption.
    destruct (Nat.lt_ge_cases j m) as [Hj|Hj].
    + now rewrite nth_repeat_lt.
    + apply nth_overflow. now rewrite repeat_length.
  - rewrite (nth_overflow (repeat (repeat 0 m) n)) by now rewrite repeat_length.
    now destruct j.
Qed.

Lemma entry_put2 (n m : nat) (a : array2) (i j i' j' : nat) (v : R) :
  shape2 n m a -> (i < n)%nat -> (j < m)%nat ->
  entry (put2 a i j v) i' j' =
  if (Nat.eqb i i' && Nat.eqb j j')%bool then v else entry a i' j'.
Proof.
  intros Ha Hi Hj. pose proof (shape2_row _ _ _ _ Ha Hi) as Hr. destruct Ha as [Hn Hm].
  unfold entry, put2.
  destruct (Nat.eqb_spec i i') as [<-|Hne]; simpl.
  - rewrite nth_upd_eq by lia.
    destruct (Nat.eqb_spec j j') as [<-|Hne].
    + apply nth_upd_eq. lia.
    + now apply nth_upd_neq.
  - now rewrite nth_upd_neq.
Qed.

Lemma entry_add2 (n m : nat) (a : array2) (i j i' j' : nat) (v : R) :
  shape2 n m a -> (i < n)%nat -> (j < m)%nat ->
  entry (add2 a i j v) i' j' =
  entry a i' j' + (if (Nat.eqb i i' && Nat.eqb j j')%bool then v else 0).
Proof.
  intros Ha Hi Hj. unfold add2. rewrite (entry_put2 _ _ _ _ _ _ _ _ Ha Hi Hj).
  destruct (Nat.eqb_spec i i') as [<-|Hne]; simpl; [|lra].
  destruct (Nat.eqb_spec j j') as [<-|Hne]; simpl; lra.
Qed.

Lemma shape2_add2 (n m : nat) (a : array2) (i j : nat) (v : R) :
  shape2 n m a -> (i < n)%nat -> shape2 n m (add2 a i j v).
Proof. intros. now apply shape2_put2. Qed.

Lemma setitem2_ok (n m : nat) (a : array2) (i j : Z) (i' j' : nat) (v : R) :
  shape2 n m a -> norm_index n i = Ok i' -> norm_index m j = Ok j' ->
  setitem2 a i j v = Ok (put2 a i' j' v).
Proof.
  intros Ha Hi Hj. pose proof (norm_index_lt _ _ _ Hi) as Hlt.
  unfold setitem2, setitem1. rewrite (proj1 Ha), Hi. simpl.
  rewrite (shape2_row _ _ _ _ Ha Hlt), Hj. reflexivity.
Qed.

Lemma iadd2_ok (n m : nat) (a : array2) (i j : Z) (i' j' : nat) (v : R) :
  shape2 n m a -> norm_index n i = Ok i' -> norm_index m j = Ok j' ->
  iadd2 a i j (Ok v) = Ok (add2 a i' j' v).
Proof.
  intros Ha Hi Hj. pose proof (norm_index_lt _ _ _ Hi) as Hlt.
  unfold iadd2, getitem2, getitem1. rewrite (proj1 Ha), Hi. simpl.
  rewrite (shape2_row _ _ _ _ Ha Hlt), Hj. simpl.
  unfold add2, entry. apply (setitem2_ok _ _ _ _ _ _ _ _ Ha Hi Hj).
Qed.

(** ** Slices and element-wise operations *)

Lemma clip_index_nonneg (n : nat) (k : Z) :
  (0 <= k)%Z -> clip_index n k = Nat.min (Z.to_nat k) n.
Proof.
  intros H. unfold clip_index. destruct (Z.ltb_spec k 0); lia.
Qed.

Lemma clip_index_neg (n : nat) (k : Z) :
  (k < 0)%Z -> clip_index n k = (n - Z.to_nat (- k))%nat.
Proof.
  intros H. unfold clip_index. destruct (Z.ltb_spec k 0); lia.
Qed.

Lemma slice_inner {A} (l : list A) :
  (2 <= length l)%nat ->
  slice l (Some 1%Z) (Some (-1)%Z) = firstn (length l - 2) (skipn 1 l).
Proof.
  intros H. unfold slice, slice_lo, slice_hi.
  rewrite (clip_index_nonneg _ 1), (clip_index_neg _ (-1)) by lia.
  replace (Nat.min (Z.to_nat 1) (length l)) with 1%nat by lia.
  f_equal. lia.
Qed.

Lemma slice_left {A} (l : list A) :
  slice l None (Some (-2)%Z) = firstn (length l - 2) l.
Proof.
  unfold slice, slice_lo, slice_hi. rewrite clip_index_neg by lia.
  simpl skipn. f_equal. lia.
Qed.

Lemma slice_right {A} (l : list A) :
  (2 <= length l)%nat -> slice l (Some 2%Z) None = skipn 2 l.
Proof.
  intros H. unfold slice, slice_lo, slice_hi. rewrite clip_index_nonneg by lia.
  replace (Nat.min (Z.to_nat 2) (length l)) with 2%nat by lia.
  apply firstn_all2. rewrite length_skipn. lia.
Qed.

Lemma set_slice_inner {A} (l vs : list A) :
  (2 <= length l)%nat -> length vs = (length l - 2)%nat ->
  set_slice l (Some 1%Z) (Some (-1)%Z) vs =
  Ok (firstn 1 l ++ vs ++ skipn (length l - 1) l).
Proof.
  intros H Hv. unfold set_slice, slice_lo, slice_hi.
  rewrite (clip_index_nonneg _ 1), (clip_index_neg _ (-1)) by lia.
  replace (Nat.min (Z.to_nat 1) (length l)) with 1%nat by lia.
  replace (length l - Z.to_nat (- -1) - 1)%nat with (length l - 2)%nat by lia.
  rewrite Hv, Nat.eqb_refl.
  now replace (1 + (length l - 2))%nat with (length l - 1)%nat by lia.
Qed.

Lemma set_slice_all {A} (l vs : list A) :
  length vs = length l -> set_slice l None None vs = Ok vs.
Proof.
  intros Hv. unfold set_slice, slice_lo, slice_hi.
  rewrite Nat.sub_0_r, Hv, Nat.eqb_refl. simpl.
  rewrite skipn_all, app_nil_r. reflexivity.
Qed.

Lemma length_map2 {A B C} (fn : A -> B -> C) (l1 : list A) (l2 : list B) :
  length (map2 fn l1 l2) = Nat.min (length l1) (length l2).
Proof.
  revert l2; induction l1 as [|a1 l1 IH]; intros [|b2 l2]; simpl; auto.
Qed.

Lemma nth_map2 {A B C} (fn : A -> B -> C) (l1 : list A) (l2 : list B)
      (k : nat) (d1 : A) (d2 : B) (d : C) :
  (k < length l1)%nat -> (k < length l2)%nat ->
  nth k (map2 fn l1 l2) d = fn (nth k l1 d1) (nth k l2 d2).
Proof.
  revert l2 k; induction l1 as [|a1 l1 IH]; intros [|b2 l2] [|k] H1 H2;
    simpl in *; try lia; auto.
  apply IH; lia.
Qed.

Lemma nth_vscale (q : R) (l : list R) (k : nat) :
  nth k (vscale q l) 0 = q * nth k l 0.
Proof.
  unfold vscale. replace 0 with (q * 0) at 1 by lra. apply map_nth.
Qed.

Lemma length_vscale (q : R) (l : list R) : length (vscale q l) = length l.
Proof. apply length_map. Qed.

Lemma set_col_ok (m : nat) (a : array2) (j : Z) (j' : nat) (v : R) :
  Forall (fun r => length r = m) a -> norm_index m j = Ok j' ->
  set_col a j v = Ok (map (upd j' v) a).
Proof.
  intros Ha Hj. induction Ha as [|r a Hr Ha IH]; simpl; auto.
  unfold setitem1. rewrite Hr, Hj. simpl. now rewrite IH.
Qed.

Lemma nth_map_in {A B} (fn : A -> B) (l : list A) (k : nat) (d : A) (d' : B) :
  (k < length l)%nat -> nth k (map fn l) d' = fn (nth k l d).
Proof.
  intros Hk. rewrite (nth_indep _ d' (fn d)) by now rewrite length_map.
  apply map_nth.
Qed.

Lemma nth_firstn_lt {A} (n k : nat) (l : list A) (d : A) :
  (k < n)%nat -> nth k (firstn n l) d = nth k l d.
Proof.
  intros Hk. rewrite nth_firstn. destruct (Nat.ltb_spec k n); [reflexivity|lia].
Qed.

Lemma norm_index_0 (n : nat) : (1 <= n)%nat -> norm_index n 0 = Ok O.
Proof. intros H. now apply (norm_index_nat n 0). Qed.

(** ** The grid *)

Lemma nth_map_seq {A} (fn : nat -> A) (lo n k : nat) (d : A) :
  (k < n)%nat -> nth k (map fn (seq lo n)) d = fn (lo + k)%nat.
Proof.
  intros Hk. rewrite (nth_indep _ d (fn O)) by now rewrite length_map, length_seq.
  now rewrite map_nth, seq_nth.
Qed.

Lemma length_linspace (start stop : R) (num : nat) :
  length (linspace start stop num) = num.
Proof. unfold linspace. now rewrite length_map, length_seq. Qed.

Lemma nth_linspace (start stop : R) (num k : nat) :
  (2 <= num)%nat -> (k < num)%nat ->
  nth k (linspace start stop num) 0 =
  start + INR k * ((stop - start) / INR (num - 1)).
Proof.
  intros Hn Hk. unfold linspace.
  rewrite nth_map_seq by assumption. simpl.
  destruct (Nat.ltb_spec 1 num) as [_|]; [|lia]. simpl.
  destruct (Nat.eqb_spec k (num - 1)) as [->|]; [|reflexivity].
  assert (INR (num - 1) <> 0) by (apply not_0_INR; lia).
  field. assumption.
Qed.

Lemma nth_linspace_first (start stop : R) (num : nat) :
  (2 <= num)%nat -> nth 0 (linspace start stop num) 0 = start.
Proof.
  intros Hn. rewrite nth_linspace by lia. simpl. lra.
Qed.

Lemma nth_linspace_last (start stop : R) (num : nat) :
  (2 <= num)%nat -> nth (num - 1) (linspace start stop num) 0 = stop.
Proof.
  intros Hn. rewrite nth_linspace by lia.
  assert (INR (num - 1) <> 0) by (apply not_0_INR; lia).
  field. assumption.
Qed.

Lemma uniform_linspace (start stop : R) (num : nat) :
  (2 <= num)%nat ->
  uniform (linspace start stop num) ((stop - start) / INR (num - 1)).
Proof.
  intros Hn k Hk. rewrite length_linspace in Hk.
  rewrite !nth_linspace by lia. rewrite plus_INR. simpl. lra.
Qed.

(** The step derived from the sample count is shorter than the spacing
    of the samples. *)
Lemma step_lt_spacing (start stop : R) (num : nat) :
  (2 <= num)%nat -> start < stop ->
  (stop - start) / INR num < (stop - start) / INR (num - 1).
Proof.
  intros Hn Hlt.
  assert (H1 : 0 < INR (num - 1)) by (apply lt_0_INR; lia).
  assert (H2 : INR (num - 1) < INR num) by (apply lt_INR; lia).
  unfold Rdiv. apply Rmult_lt_compat_l; [lra|].
  apply Rinv_lt_contravar; [apply Rmult_lt_0_compat|]; lra.
Qed.

Lemma make_grid_ok (x_1 x_2 t_f : R) (N_x N_t : nat) :
  (1 <= N_x)%nat -> (1 <= N_t)%nat ->
  make_grid x_1 x_2 t_f N_x N_t =
  Ok (mkGrid1 ((x_2 - x_1) / INR N_x) (t_f / INR N_t)
              (linspace x_1 x_2 N_x) (linspace 0 t_f N_t)).
Proof.
  intros Hx Ht. unfold make_grid.
  rewrite !pydiv_ok by (apply not_0_INR; lia). reflexivity.
Qed.

Lemma make_grid2_ok (x_1 x_2 y_1 y_2 t_f : R) (N_x N_y N_t : nat) :
  (1 <= N_x)%nat -> (1 <= N_y)%nat -> (1 <= N_t)%nat ->
  make_grid2 x_1 x_2 y_1 y_2 t_f N_x N_y N_t =
  Ok (mkGrid2 ((x_2 - x_1) / INR N_x) ((y_2 - y_1) / INR N_y) (t_f / INR N_t)
              (linspace x_1 x_2 N_x) (linspace y_1 y_2 N_y) (linspace 0 t_f N_t)).
Proof.
  intros Hx Hy Ht. unfold make_grid2.
  rewrite !pydiv_ok by (apply not_0_INR; lia). reflexivity.
Qed.

Lemma make_grid_raises (x_1 x_2 t_f : R) (N_x N_t : nat) :
  N_x = O \/ N_t = O ->
  make_grid x_1 x_2 t_f N_x N_t = Raise ZeroDivisionError.
Proof.
  intros H. unfold make_grid. destruct N_x as [|n].
  - simpl. now rewrite pydiv_zero.
  - rewrite pydiv_ok by (apply not_0_INR; lia).
    destruct H as [H | ->]; [discriminate|]. simpl. now rewrite pydiv_zero.
Qed.

Lemma step_pos_iff (p : R) (n : nat) : (1 <= n)%nat -> 0 < p / INR n <-> 0 < p.
Proof.
  intros Hn. assert (Hpos : 0 < INR n) by (apply lt_0_INR; lia).
  split; intros H.
  - apply Rmult_lt_reg_r with (/ INR n); [now apply Rinv_0_lt_compat|].
    unfold Rdiv in H. lra.
  - now apply Rdiv_lt_0_compat.
Qed.




(** ** The forward-Euler stepper of the heat equation *)

Module HeatFacts.
Section Facts.

Variable f : R -> R -> R.
Variable a : R.
Variables x_1 x_2 t_f : R.
Variables h_1 h_2 : R.
Variable g_0 : R -> R.
Variables N_x N_t : nat.

Local Abbreviation grid := (grid1 x_1 x_2 t_f N_x N_t).
Local Abbreviation interior := (HeatRows.interior f a).
Local Abbreviation next := (HeatRows.next f a).
Local Abbreviation march := (HeatRows.march f a).
Local Abbreviation edged := (HeatRows.edged h_1 h_2 N_x).
Local Abbreviation field0 := (HeatRows.field0 h_1 h_2 g_0 N_x N_t).
Local Abbreviation field := (HeatRows.field f a x_1 x_2 t_f h_1 h_2 g_0 N_x N_t).
Local Abbreviation row := (HeatRows.row f a x_1 x_2 t_f h_1 h_2 g_0 N_x N_t).
Local Abbreviation max_abs := HeatRows.max_abs.

Lemma length_interior (g : Grid1) (i : nat) (r : list R) :
  length r = length (x g) -> length (interior g i r) = (length r - 2)%nat.
Proof.
  intros Hx. unfold HeatRows.interior, vadd, vsub.
  rewrite !length_map2, !length_vscale, !length_map2, length_vscale, length_map,
    !length_firstn, !length_skipn.
  lia.
Qed.

Lemma length_next (g : Grid1) (i : nat) (r nxt : list R) :
  (2 <= length r)%nat -> length r = length (x g) -> length nxt = length r ->
  length (next g i r nxt) = length r.
Proof.
  intros H2 Hx Hn. unfold HeatRows.next.
  rewrite !length_app, length_interior, length_firstn, length_skipn by assumption.
  lia.
Qed.

Lemma step_ok (g : Grid1) (i : nat) (pre : array2) (r nxt : list R) (post : array2) :
  length pre = i -> (2 <= length r)%nat -> length r = length (x g) ->
  length nxt = length r -> (i < length (t g))%nat -> dx g <> 0 ->
  Heat1D.step f a g i (pre ++ r :: nxt :: post) =
  Ok (pre ++ r :: next g i r nxt :: post).
Proof.
  intros Hi H2 Hx Hn Ht Hdx. unfold Heat1D.step.
  rewrite norm_index_nat by (rewrite length_app; simpl; lia). simpl.
  rewrite app_nth2, Hi, Nat.sub_diag by lia. simpl nth.
  rewrite div2_ok by assumption. simpl.
  unfold getitem1. rewrite norm_index_nat by assumption. simpl.
  rewrite norm_index_succ by (rewrite length_app; simpl; lia). simpl.
  replace (pre ++ r :: nxt :: post) with ((pre ++ [r]) ++ nxt :: post)
    by now rewrite <- app_assoc.
  rewrite app_nth2 by (rewrite length_app; simpl; lia).
  replace (i + 1 - length (pre ++ [r]))%nat with O
    by (rewrite length_app; simpl; lia).
  simpl nth.
  rewrite slice_inner, slice_left, slice_right by lia.
  rewrite (slice_inner (x g)) by lia.
  fold (interior g i r).
  rewrite set_slice_inner by (rewrite ?length_interior; lia). simpl.
  rewrite upd_app by (rewrite length_app; simpl; lia).
  now rewrite <- app_assoc.
Qed.

Lemma length_march (g : Grid1) (i : nat) (r : list R) (rest : array2) :
  length (march g i r rest) = S (length rest).
Proof.
  revert i r; induction rest as [|nxt rest IH]; intros i r; simpl; auto.
Qed.

(** The loop from index [i] on, over a field whose rows above [i] are
    already final. *)
Lemma loop_ok (g : Grid1) (rest : array2) :
  forall (i : nat) (pre : array2) (r : list R),
    length pre = i -> (2 <= length r)%nat -> length r = length (x g) ->
    Forall (fun row => length row = length r) rest ->
    (i + length rest <= length (t g))%nat -> dx g <> 0 ->
    for_ (seq i (length rest)) (Heat1D.step f a g) (pre ++ r :: rest) =
    Ok (pre ++ march g i r rest).
Proof.
  induction rest as [|nxt rest IH]; intros i pre r Hi H2 Hx Hrest Ht Hdx; simpl.
  - reflexivity.
  - inversion Hrest as [|? ? Hn Hrest']; subst.
    rewrite step_ok by (auto; simpl in Ht; lia). simpl.
    replace (pre ++ r :: next g (length pre) r nxt :: rest)
      with ((pre ++ [r]) ++ next g (length pre) r nxt :: rest)
      by now rewrite <- app_assoc.
    rewrite IH.
    + now rewrite <- app_assoc.
    + rewrite length_app. simpl. lia.
    + now rewrite length_next.
    + now rewrite length_next.
    + rewrite length_next by assumption. assumption.
    + simpl in Ht. lia.
    + assumption.
Qed.

Lemma nth_interior (g : Grid1) (i : nat) (r : list R) (k : nat) :
  length r = length (x g) -> (k + 2 < length r)%nat ->
  nth k (interior g i r) 0 =
  nth (k + 1) r 0
  + a * dt g / dx g / dx g * (nth k r 0 + nth (k + 2) r 0 - 2 * nth (k + 1) r 0)
  + dt g * f (nth i (t g) 0) (nth (k + 1) (x g) 0).
Proof.
  intros Hx Hk. unfold HeatRows.interior, vadd, vsub.
  assert (L1 : length (firstn (length r - 2) (skipn 1 r)) = (length r - 2)%nat)
    by (rewrite length_firstn, length_skipn; lia).
  assert (L2 : length (firstn (length r - 2) r) = (length r - 2)%nat)
    by (rewrite length_firstn; lia).
  assert (L3 : length (skipn 2 r) = (length r - 2)%nat)
    by (rewrite length_skipn; lia).
  assert (L4 : length (firstn (length (x g) - 2) (skipn 1 (x g))) = (length r - 2)%nat)
    by (rewrite length_firstn, length_skipn; lia).
  rewrite (nth_map2 _ _ _ _ 0 0)
    by (rewrite ?length_map2, ?length_vscale, ?length_map2, ?length_vscale,
          ?length_map; lia).
  rewrite (nth_map2 _ _ _ _ 0 0)
    by (rewrite ?length_map2, ?length_vscale, ?length_map2, ?length_vscale,
          ?length_map; lia).
  rewrite !nth_vscale.
  rewrite (nth_map2 _ _ _ _ 0 0)
    by (rewrite ?length_map2, ?length_vscale; lia).
  rewrite (nth_map2 _ _ _ _ 0 0) by lia.
  rewrite nth_vscale.
  rewrite (nth_map_in _ _ _ 0) by lia.
  rewrite !nth_firstn_lt by lia. rewrite !nth_skipn.
  replace (1 + k)%nat with (k + 1)%nat by lia.
  replace (2 + k)%nat with (k + 2)%nat by lia.
  reflexivity.
Qed.

Lemma nth_next_first (g : Grid1) (i : nat) (r nxt : list R) :
  (2 <= length nxt)%nat -> nth 0 (next g i r nxt) 0 = nth 0 nxt 0.
Proof.
  intros Hn. unfold HeatRows.next.
  rewrite app_nth1 by (rewrite length_firstn; lia).
  apply nth_firstn_lt. lia.
Qed.

Lemma nth_next_last (g : Grid1) (i : nat) (r nxt : list R) :
  (2 <= length r)%nat -> length r = length (x g) -> length nxt = length r ->
  nth (length r - 1) (next g i r nxt) 0 = nth (length r - 1) nxt 0.
Proof.
  intros H2 Hx Hn. unfold HeatRows.next.
  rewrite app_nth2 by (rewrite length_firstn; lia).
  rewrite app_nth2 by (rewrite length_firstn, length_interior; lia).
  rewrite nth_skipn. f_equal.
  rewrite length_firstn, length_interior by assumption. lia.
Qed.

Lemma nth_next_inner (g : Grid1) (i : nat) (r nxt : list R) (j : nat) :
  length r = length (x g) -> length nxt = length r ->
  (1 <= j)%nat -> (j + 1 < length r)%nat ->
  nth j (next g i r nxt) 0 =
  nth j r 0
  + a * dt g / dx g / dx g * (nth (j - 1) r 0 + nth (j + 1) r 0 - 2 * nth j r 0)
  + dt g * f (nth i (t g) 0) (nth j (x g) 0).
Proof.
  intros Hx Hn H1 H2. unfold HeatRows.next.
  rewrite app_nth2 by (rewrite length_firstn; lia).
  rewrite length_firstn.
  replace (Nat.min 1 (length nxt)) with 1%nat by lia.
  rewrite app_nth1 by (rewrite length_interior; lia).
  rewrite nth_interior by lia.
  replace (j - 1 + 1)%nat with j by lia.
  replace (j - 1 + 2)%nat with (j + 1)%nat by lia.
  reflexivity.
Qed.

Lemma nth_march_0 (g : Grid1) (i : nat) (r : list R) (rest : array2) :
  nth 0 (march g i r rest) [] = r.
Proof. destruct rest; reflexivity. Qed.

Lemma nth_march_S (g : Grid1) (rest : array2) :
  forall (i : nat) (r : list R) (k : nat),
    (k < length rest)%nat ->
    nth (S k) (march g i r rest) [] =
    next g (i + k) (nth k (march g i r rest) []) (nth k rest []).
Proof.
  induction rest as [|nxt rest IH]; intros i r k Hk; simpl in Hk; [lia|].
  destruct k as [|k].
  - simpl. now rewrite nth_march_0, Nat.add_0_r.
  - change (nth (S (S k)) (march g i r (nxt :: rest)) [])
      with (nth (S k) (march g (S i) (next g i r nxt) rest) []).
    rewrite IH by lia.
    now replace (S i + k)%nat with (i + S k)%nat by lia.
Qed.

Lemma length_edged (r : list R) : length (edged r) = length r.
Proof. unfold HeatRows.edged. now rewrite !length_upd. Qed.

Lemma nth_edged_first (r : list R) :
  (2 <= N_x)%nat -> length r = N_x -> nth 0 (edged r) 0 = h_1.
Proof.
  intros H2 Hr. unfold HeatRows.edged.
  rewrite nth_upd_neq by lia. apply nth_upd_eq. lia.
Qed.

Lemma nth_edged_last (r : list R) :
  (1 <= N_x)%nat -> length r = N_x -> nth (N_x - 1) (edged r) 0 = h_2.
Proof.
  intros H1 Hr. unfold HeatRows.edged. apply nth_upd_eq. rewrite length_upd. lia.
Qed.

Lemma nth_edged_inner (r : list R) (j : nat) :
  (1 <= j)%nat -> (j + 1 < N_x)%nat -> nth j (edged r) 0 = nth j r 0.
Proof.
  intros H1 H2. unfold HeatRows.edged. now rewrite !nth_upd_neq by lia.
Qed.

Lemma init_field_ok (g : Grid1) :
  (1 <= N_t)%nat -> (1 <= N_x)%nat -> length (x g) = N_x ->
  Heat1D.init_field h_1 h_2 g_0 N_x N_t g = Ok (field0 g).
Proof.
  intros Ht Hx Hg. unfold Heat1D.init_field, set_row, zeros2.
  rewrite repeat_length.
  rewrite norm_index_0 by lia. cbn [bind].
  assert (E : repeat (repeat 0 N_x) N_t =
              repeat 0 N_x :: repeat (repeat 0 N_x) (N_t - 1)).
  { replace N_t with (S (N_t - 1)) at 1 by lia. reflexivity. }
  rewrite E. cbn [nth].
  rewrite set_slice_all by now rewrite length_map, repeat_length.
  cbn [bind upd].
  rewrite (set_col_ok N_x _ 0 0).
  - cbn [bind]. rewrite (set_col_ok N_x _ (-1) (N_x - 1)).
    + unfold HeatRows.field0, HeatRows.edged. cbn [map]. now rewrite !map_repeat.
    + constructor; [now rewrite length_upd, length_map|].
      apply Forall_forall. intros r Hr. apply in_map_iff in Hr as (r' & <- & Hr').
      apply repeat_spec in Hr'. subst. now rewrite length_upd, repeat_length.
    + now apply norm_index_last.
  - constructor; [now rewrite length_map|].
    apply Forall_forall. intros r Hr. apply repeat_spec in Hr. subst.
    apply repeat_length.
  - now apply norm_index_0.
Qed.

Lemma dx_grid_neq0 : (1 <= N_x)%nat -> x_1 < x_2 -> dx grid <> 0.
Proof.
  intros Hx Hlt. simpl.
  assert (0 < (x_2 - x_1) / INR N_x); [|lra].
  apply Rdiv_lt_0_compat; [lra|]. apply lt_0_INR. lia.
Qed.

Lemma solve_ok :
  (2 <= N_x)%nat -> (1 <= N_t)%nat -> x_1 < x_2 ->
  Heat1D.solve f a x_1 x_2 t_f h_1 h_2 g_0 N_x N_t = Ok field.
Proof.
  intros Hx Ht Hlt. unfold Heat1D.solve.
  rewrite make_grid_ok by lia. fold grid. simpl.
  rewrite init_field_ok by (simpl; rewrite ?length_linspace; lia). simpl.
  unfold HeatRows.field0, range. rewrite Nat.sub_0_r.
  replace (N_t - 1)%nat with (length (repeat (edged (repeat 0 N_x)) (N_t - 1))) at 1
    by apply repeat_length.
  apply (loop_ok grid _ O []).
  - reflexivity.
  - rewrite length_edged, length_map. simpl. now rewrite length_linspace.
  - rewrite length_edged, length_map. reflexivity.
  - apply Forall_forall. intros r Hr. apply repeat_spec in Hr. subst.
    rewrite !length_edged, length_map, repeat_length. simpl.
    now rewrite length_linspace.
  - rewrite repeat_length. simpl. rewrite length_linspace. lia.
  - apply dx_grid_neq0; [lia|assumption].
Qed.

Lemma row_0 : row 0 = edged (map g_0 (x grid)).
Proof. unfold HeatRows.row, HeatRows.field. apply nth_march_0. Qed.

Lemma row_S (i : nat) :
  (i + 1 < N_t)%nat ->
  row (i + 1) = next grid i (row i) (edged (repeat 0 N_x)).
Proof.
  intros Hi. unfold HeatRows.row, HeatRows.field. rewrite Nat.add_1_r.
  rewrite nth_march_S by (rewrite repeat_length; lia).
  simpl. f_equal. apply nth_repeat_lt. lia.
Qed.

Lemma length_row (i : nat) :
  (2 <= N_x)%nat -> (i < N_t)%nat -> length (row i) = N_x.
Proof.
  intros Hx. induction i as [|i IH]; intros Hi.
  - rewrite row_0, length_edged, length_map. simpl. apply length_linspace.
  - replace (S i) with (i + 1)%nat by lia. rewrite row_S by lia.
    rewrite length_next; try (rewrite IH by lia); simpl;
      rewrite ?length_linspace, ?length_edged, ?repeat_length; auto; lia.
Qed.

Lemma row_first (i : nat) :
  (2 <= N_x)%nat -> (i < N_t)%nat -> nth 0 (row i) 0 = h_1.
Proof.
  intros Hx Hi. destruct i as [|i].
  - rewrite row_0. apply nth_edged_first; [assumption|].
    rewrite length_map. simpl. apply length_linspace.
  - replace (S i) with (i + 1)%nat by lia. rewrite row_S by lia.
    rewrite nth_next_first by (rewrite length_edged, repeat_length; lia).
    apply nth_edged_first; [assumption|apply repeat_length].
Qed.

Lemma row_last (i : nat) :
  (2 <= N_x)%nat -> (i < N_t)%nat -> nth (N_x - 1) (row i) 0 = h_2.
Proof.
  intros Hx Hi. destruct i as [|i].
  - rewrite row_0. apply nth_edged_last; [lia|].
    rewrite length_map. simpl. apply length_linspace.
  - replace (S i) with (i + 1)%nat by lia. rewrite row_S by lia.
    pose proof (length_row i Hx ltac:(lia)) as L.
    rewrite <- L at 1.
    rewrite nth_next_last; rewrite ?L; simpl;
      rewrite ?length_linspace, ?length_edged, ?repeat_length; auto; try lia.
    apply nth_edged_last; [lia|apply repeat_length].
Qed.

Lemma row_inner (i j : nat) :
  (2 <= N_x)%nat -> (i + 1 < N_t)%nat -> (1 <= j)%nat -> (j + 1 < N_x)%nat ->
  nth j (row (i + 1)) 0 =
  nth j (row i) 0
  + a * dt grid / dx grid / dx grid
    * (nth (j - 1) (row i) 0 + nth (j + 1) (row i) 0 - 2 * nth j (row i) 0)
  + dt grid * f (nth i (t grid) 0) (nth j (x grid) 0).
Proof.
  intros Hx Hi H1 H2. rewrite row_S by assumption.
  pose proof (length_row i Hx ltac:(lia)) as L.
  apply nth_next_inner; rewrite ?L; simpl;
    rewrite ?length_linspace, ?length_edged, ?repeat_length; auto.
Qed.

(** C2: the loop leaves row [i+1] equal to the explicit update of row
    [i] at every interior index, with the boundary values at its two
    ends, for every time index [i] in [[0, N_t-2]]. *)
Theorem forward_euler_update :
  (2 <= N_x)%nat -> (1 <= N_t)%nat -> x_1 < x_2 ->
  exists g u,
    make_grid x_1 x_2 t_f N_x N_t = Ok g /\
    Heat1D.solve f a x_1 x_2 t_f h_1 h_2 g_0 N_x N_t = Ok u /\
    forall i, (i + 1 < N_t)%nat ->
      (forall j, (1 <= j)%nat -> (j + 1 < N_x)%nat ->
         entry u (i + 1) j =
         entry u i j
         + a * dt g / (dx g) ^ 2
           * (entry u i (j + 1) + entry u i (j - 1) - 2 * entry u i j)
         + dt g * f (nth i (t g) 0) (nth j (x g) 0)) /\
      entry u (i + 1) 0 = h_1 /\
      entry u (i + 1) (N_x - 1) = h_2.
Proof.
  intros Hx Ht Hlt. exists grid, field.
  split; [apply make_grid_ok; lia|]. split; [now apply solve_ok|].
  intros i Hi. unfold entry. fold (row (i + 1)) (row i).
  split; [|split].
  - intros j H1 H2. rewrite row_inner by assumption.
    pose proof (dx_grid_neq0 ltac:(lia) Hlt) as Hdx.
    replace (a * dt grid / dx grid / dx grid) with (a * dt grid / dx grid ^ 2)
      by (field; assumption).
    lra.
  - apply row_first; lia.
  - apply row_last; lia.
Qed.

(** C9: the boundary columns are written after the initial row, so the
    two corners of row 0 hold [h_1] and [h_2] whatever [g_0] is there;
    row 0 agrees with [g_0] at the interior indices, and at a corner
    only if [g_0] happens to take the boundary value there. *)
Theorem boundary_fill_overrides_corners :
  (2 <= N_x)%nat -> (1 <= N_t)%nat -> x_1 < x_2 ->
  exists g u,
    make_grid x_1 x_2 t_f N_x N_t = Ok g /\
    Heat1D.solve f a x_1 x_2 t_f h_1 h_2 g_0 N_x N_t = Ok u /\
    entry u 0 0 = h_1 /\ entry u 0 (N_x - 1) = h_2 /\
    (forall j, (1 <= j)%nat -> (j + 1 < N_x)%nat ->
       entry u 0 j = g_0 (nth j (x g) 0)) /\
    nth 0 (x g) 0 = x_1 /\ nth (N_x - 1) (x g) 0 = x_2 /\
    (g_0 x_1 <> h_1 -> entry u 0 0 <> g_0 (nth 0 (x g) 0)) /\
    (g_0 x_2 <> h_2 -> entry u 0 (N_x - 1) <> g_0 (nth (N_x - 1) (x g) 0)).
Proof.
  intros Hx Ht Hlt. exists grid, field.
  split; [apply make_grid_ok; lia|]. split; [now apply solve_ok|].
  unfold entry. fold (row 0).
  assert (E0 : nth 0 (row 0) 0 = h_1) by (apply row_first; lia).
  assert (E1 : nth (N_x - 1) (row 0) 0 = h_2) by (apply row_last; lia).
  assert (X0 : nth 0 (x grid) 0 = x_1) by (simpl; now apply nth_linspace_first).
  assert (X1 : nth (N_x - 1) (x grid) 0 = x_2) by (simpl; now apply nth_linspace_last).
  repeat split; auto.
  - intros j H1 H2. rewrite row_0, nth_edged_inner by assumption.
    apply nth_map_in. simpl. rewrite length_linspace. lia.
  - rewrite E0, X0. congruence.
  - rewrite E1, X1. congruence.
Qed.

(** *** The discrete maximum principle *)

Lemma max_abs_nonneg (r : list R) : 0 <= max_abs r.
Proof.
  induction r as [|v r IH]; simpl; [lra|].
  eapply Rle_trans; [exact IH|apply Rmax_r].
Qed.

Lemma abs_le_max_abs (r : list R) (k : nat) :
  (k < length r)%nat -> Rabs (nth k r 0) <= max_abs r.
Proof.
  revert k; induction r as [|v r IH]; intros [|k] Hk; simpl in *; try lia.
  - apply Rmax_l.
  - eapply Rle_trans; [apply IH; lia|apply Rmax_r].
Qed.

Lemma max_abs_le (r : list R) (M : R) :
  0 <= M -> (forall k, (k < length r)%nat -> Rabs (nth k r 0) <= M) ->
  max_abs r <= M.
Proof.
  intros HM. induction r as [|v r IH]; intros H; simpl; [assumption|].
  apply Rmax_lub.
  - apply (H O). simpl. lia.
  - apply IH. intros k Hk. apply (H (S k)). simpl. lia.
Qed.

(** One explicit update is a convex combination of three neighbours. *)
Lemma convex_update_bound (rho u0 ul ur M : R) :
  0 <= rho <= 1 / 2 -> Rabs u0 <= M -> Rabs ul <= M -> Rabs ur <= M ->
  Rabs (u0 + rho * (ul + ur - 2 * u0)) <= M.
Proof.
  intros Hrho H0 Hl Hr.
  replace (u0 + rho * (ul + ur - 2 * u0))
    with ((1 - 2 * rho) * u0 + (rho * ul + rho * ur)) by ring.
  eapply Rle_trans; [apply Rabs_triang|].
  eapply Rle_trans; [apply Rplus_le_compat_l, Rabs_triang|].
  rewrite !Rabs_mult.
  rewrite (Rabs_pos_eq rho) by lra.
  rewrite (Rabs_pos_eq (1 - 2 * rho)) by lra.
  assert ((1 - 2 * rho) * Rabs u0 <= (1 - 2 * rho) * M)
    by (apply Rmult_le_compat_l; lra).
  assert (rho * Rabs ul <= rho * M) by (apply Rmult_le_compat_l; lra).
  assert (rho * Rabs ur <= rho * M) by (apply Rmult_le_compat_l; lra).
  lra.
Qed.


End Facts.
End HeatFacts.

(** ** Dot products and the reshape of the solution *)

Lemma dot_app (l1 l2 v1 v2 : list R) :
  length l1 = length v1 ->
  dot (l1 ++ l2) (v1 ++ v2) = dot l1 v1 + dot l2 v2.
Proof.
  revert v1; induction l1 as [|a1 l1 IH]; intros [|b1 v1] H; simpl in *;
    try discriminate.
  - unfold dot. simpl. lra.
  - unfold dot in *. simpl. rewrite IH by lia. lra.
Qed.

Lemma dot_cons (a1 b1 : R) (l v : list R) : dot (a1 :: l) (b1 :: v) = a1 * b1 + dot l v.
Proof. reflexivity. Qed.

Lemma dot_repeat_0 (n : nat) (v : list R) : dot (repeat 0 n) v = 0.
Proof.
  revert v; induction n as [|n IH]; intros [|b1 v]; simpl; try reflexivity.
  rewrite dot_cons, IH. lra.
Qed.

Lemma dot_upd (k : nat) (q : R) (l v : list R) :
  length l = length v -> (k < length l)%nat ->
  dot (upd k q l) v = dot l v + (q - nth k l 0) * nth k v 0.
Proof.
  revert k v; induction l as [|a1 l IH]; intros [|k] [|b1 v] H Hk; simpl in *;
    try lia.
  - rewrite !dot_cons. lra.
  - rewrite !dot_cons, IH by lia. lra.
Qed.

Lemma shape2_cons (n m : nat) (r : list R) (a : array2) :
  shape2 (S n) m (r :: a) <-> length r = m /\ shape2 n m a.
Proof.
  unfold shape2. simpl. split.
  - intros [Hn Hall]. inversion Hall; subst. repeat split; auto.
  - intros [Hr [Hn Hall]]. split; [lia|now constructor].
Qed.

Lemma dot2_cons (r w : list R) (M U : array2) :
  length r = length w -> dot2 (r :: M) (w :: U) = dot r w + dot2 M U.
Proof. intros H. unfold dot2. simpl. now apply dot_app. Qed.

Lemma dot2_zeros (n m : nat) (U : array2) : dot2 (zeros2 n m) U = 0.
Proof.
  unfold dot2, zeros2.
  assert (E : concat (repeat (repeat 0 m) n) = repeat 0 (n * m)).
  { induction n as [|n IH]; simpl; [reflexivity|]. now rewrite IH, repeat_app. }
  rewrite E. apply dot_repeat_0.
Qed.

Lemma put2_cons_S (r : list R) (M : array2) (i j : nat) (q : R) :
  put2 (r :: M) (S i) j q = r :: put2 M i j q.
Proof. reflexivity. Qed.

Lemma dot2_put2 (n m : nat) (M U : array2) (i j : nat) (q : R) :
  shape2 n m M -> shape2 n m U -> (i < n)%nat -> (j < m)%nat ->
  dot2 (put2 M i j q) U = dot2 M U + (q - entry M i j) * entry U i j.
Proof.
  revert n M U; induction i as [|i IH]; intros n M U HM HU Hi Hj;
    destruct n as [|n]; try lia;
    destruct M as [|r M]; try (destruct HM; discriminate);
    destruct U as [|w U]; try (destruct HU; discriminate);
    apply shape2_cons in HM as [Lr HM]; apply shape2_cons in HU as [Lw HU].
  - unfold put2, entry. simpl.
    rewrite !dot2_cons by (rewrite ?length_upd; lia).
    rewrite dot_upd by lia. lra.
  - rewrite put2_cons_S, !dot2_cons by lia.
    rewrite (IH n) by (auto; lia). unfold entry. simpl. lra.
Qed.

Lemma dot2_add2 (n m : nat) (M U : array2) (i j : nat) (q : R) :
  shape2 n m M -> shape2 n m U -> (i < n)%nat -> (j < m)%nat ->
  dot2 (add2 M i j q) U = dot2 M U + q * entry U i j.
Proof.
  intros HM HU Hi Hj. unfold add2. rewrite (dot2_put2 n m) by assumption. lra.
Qed.

Lemma shape2_reshape2 (n m : nat) (l : list R) :
  length l = (n * m)%nat -> shape2 n m (reshape2 n m l).
Proof.
  revert l; induction n as [|n IH]; intros l H; simpl.
  - split; [reflexivity|constructor].
  - apply shape2_cons. split.
    + rewrite length_firstn. simpl in H. lia.
    + apply IH. rewrite length_skipn. simpl in H. lia.
Qed.

Lemma concat_reshape2 (n m : nat) (l : list R) :
  length l = (n * m)%nat -> concat (reshape2 n m l) = l.
Proof.
  revert l; induction n as [|n IH]; intros l H; simpl.
  - destruct l; [reflexivity|discriminate].
  - rewrite IH by (rewrite length_skipn; simpl in H; lia).
    apply firstn_skipn.
Qed.

Lemma length_concat_shape2 (n m : nat) (U : array2) :
  shape2 n m U -> length (concat U) = (n * m)%nat.
Proof.
  revert U; induction n as [|n IH]; intros [|w U] HU;
    try (destruct HU; discriminate); simpl; auto.
  apply shape2_cons in HU as [Lw HU]. rewrite length_app, IH by assumption. lia.
Qed.

Lemma reshape2_concat (n m : nat) (U : array2) :
  shape2 n m U -> reshape2 n m (concat U) = U.
Proof.
  revert U; induction n as [|n IH]; intros [|w U] HU;
    try (destruct HU; discriminate); simpl; auto.
  apply shape2_cons in HU as [Lw HU].
  rewrite firstn_app, Lw, Nat.sub_diag, firstn_all2 by lia.
  rewrite skipn_app, Lw, Nat.sub_diag, skipn_all2 by lia.
  simpl. rewrite app_nil_r. f_equal. now apply IH.
Qed.

(** ** The CTCS assembly of the 1-D wave equation *)

Lemma flat_map_singleton {A B} (fn : A -> B) (l : list A) :
  flat_map (fun i => [fn i]) l = map fn l.
Proof. induction l as [|i l IH]; simpl; congruence. Qed.

Lemma length_flat_map_const {A B} (E : A -> list B) (l : list A) (k : nat) :
  (forall i, In i l -> length (E i) = k) ->
  length (flat_map E l) = (length l * k)%nat.
Proof.
  induction l as [|i l IH]; intros H; simpl; auto.
  rewrite length_app, H by now left.
  rewrite IH by (intros; apply H; now right). reflexivity.
Qed.

Lemma flat_map_ext_in {A B} (E E' : A -> list B) (l : list A) :
  (forall i, In i l -> E i = E' i) -> flat_map E l = flat_map E' l.
Proof.
  induction l as [|i l IH]; intros H; simpl; auto.
  rewrite H by now left.
  rewrite IH by (intros; apply H; now right). reflexivity.
Qed.

Ltac shape2_tac :=
  repeat first [ apply shape2_zeros
               | apply shape2_add2; [|lia]
               | apply shape2_put2; [|lia] ].

(** Runs the divisions at the head of a monadic computation. *)
Ltac run_pydiv :=
  repeat first [ progress cbn [bind]
               | rewrite !div2_ok by assumption
               | rewrite !pydiv_ok by assumption ].

(** Splits on every comparison of indices left in the goal. *)
Ltac eqb_cases :=
  repeat match goal with
         | |- context [Nat.eqb ?p ?q] => destruct (Nat.eqb_spec p q)
         end;
  cbn [andb orb]; try lra; try (exfalso; lia).

Module WaveFacts.
Section Facts.

Variable f : R -> R -> R.
Variable c : R.
Variables x_1 x_2 t_f : R.
Variables h_1 h_2 : R.
Variables g_0 g_1 : R -> R.
Variables N_x N_t : nat.

Local Abbreviation grid := (grid1 x_1 x_2 t_f N_x N_t).
Local Abbreviation stencil_mat := (WaveEquations.stencil_mat c N_x N_t).
Local Abbreviation dirichlet_mat := (WaveEquations.dirichlet_mat N_x N_t).
Local Abbreviation neumann_mat := (WaveEquations.neumann_mat N_x N_t).
Local Abbreviation left_mat := (WaveEquations.left_mat N_x N_t).
Local Abbreviation right_mat := (WaveEquations.right_mat N_x N_t).
Local Abbreviation pde_eqs := (WaveEquations.pde_eqs c N_x N_t).
Local Abbreviation pde_col := (WaveEquations.pde_col f N_x N_t).
Local Abbreviation bc_eqs := (WaveEquations.bc_eqs N_x N_t).
Local Abbreviation bc_col := (WaveEquations.bc_col h_1 h_2 g_0 g_1 N_x N_t).
Local Abbreviation stencil_writes := WaveEquations.stencil_writes.
Local Abbreviation stencil_centres := (WaveEquations.stencil_centres N_x N_t).
Local Abbreviation stencil_index_set := (WaveEquations.stencil_index_set N_x N_t).
Local Abbreviation boundary_index_set := (WaveEquations.boundary_index_set N_x N_t).

Lemma stencil_ok (g : Grid1) (i j : nat) (s : Wave1D.system) :
  (1 <= i)%nat -> (i + 1 < N_t)%nat -> (1 <= j)%nat -> (j + 1 < N_x)%nat ->
  dt g <> 0 -> dx g <> 0 -> length (t g) = N_t -> length (x g) = N_x ->
  Wave1D.stencil f c N_x N_t g i j s =
  Ok (fst s ++ [stencil_mat g i j],
      snd s ++ [f (nth i (t g) 0) (nth j (x g) 0)]).
Proof.
  intros Hi1 Hi2 Hj1 Hj2 Hdt Hdx Lt Lx. unfold Wave1D.stencil.
  run_pydiv.
  rewrite (iadd2_ok N_t N_x _ _ _ i j)
    by (try apply norm_index_nat; try lia; shape2_tac).
  run_pydiv.
  rewrite (iadd2_ok N_t N_x _ _ _ (i - 1) j)
    by (try apply norm_index_pred; try apply norm_index_nat; try lia; shape2_tac).
  run_pydiv.
  rewrite (iadd2_ok N_t N_x _ _ _ (i + 1) j)
    by (try apply norm_index_succ; try apply norm_index_nat; try lia; shape2_tac).
  run_pydiv.
  rewrite (iadd2_ok N_t N_x _ _ _ i j)
    by (try apply norm_index_nat; try lia; shape2_tac).
  run_pydiv.
  rewrite (iadd2_ok N_t N_x _ _ _ i (j + 1))
    by (try apply norm_index_succ; try apply norm_index_nat; try lia; shape2_tac).
  run_pydiv.
  rewrite (iadd2_ok N_t N_x _ _ _ i (j - 1))
    by (try apply norm_index_pred; try apply norm_index_nat; try lia; shape2_tac).
  cbn [bind].
  unfold getitem1. rewrite Lt, Lx.
  rewrite !norm_index_nat by lia. cbn [bind].
  reflexivity.
Qed.

Lemma ivp_dirichlet_ok (g : Grid1) (j : nat) (s : Wave1D.system) :
  (1 <= N_t)%nat -> (j < N_x)%nat -> length (x g) = N_x ->
  Wave1D.ivp_dirichlet g_0 N_x N_t g j s =
  Ok (fst s ++ [dirichlet_mat j], snd s ++ [g_0 (nth j (x g) 0)]).
Proof.
  intros Ht Hj Lx. unfold Wave1D.ivp_dirichlet.
  rewrite (setitem2_ok N_t N_x _ _ _ 0 j)
    by (try apply norm_index_0; try apply norm_index_nat; try lia; shape2_tac).
  cbn [bind]. unfold getitem1. rewrite Lx, norm_index_nat by lia.
  reflexivity.
Qed.

Lemma ivp_neumann_ok (g : Grid1) (j : nat) (s : Wave1D.system) :
  (2 <= N_t)%nat -> (j < N_x)%nat -> length (x g) = N_x ->
  Wave1D.ivp_neumann g_1 N_x N_t g j s =
  Ok (fst s ++ [neumann_mat j], snd s ++ [g_1 (nth j (x g) 0)]).
Proof.
  intros Ht Hj Lx. unfold Wave1D.ivp_neumann.
  rewrite (setitem2_ok N_t N_x _ _ _ 1 j)
    by (try apply (norm_index_nat N_t 1); try apply norm_index_nat; try lia;
        shape2_tac).
  cbn [bind].
  rewrite (setitem2_ok N_t N_x _ _ _ 0 j)
    by (try apply norm_index_0; try apply norm_index_nat; try lia; shape2_tac).
  cbn [bind]. unfold getitem1. rewrite Lx, norm_index_nat by lia.
  reflexivity.
Qed.

Lemma bound_left_ok (i : nat) (s : Wave1D.system) :
  (i < N_t)%nat -> (1 <= N_x)%nat ->
  Wave1D.bound_left h_1 N_x N_t i s = Ok (fst s ++ [left_mat i], snd s ++ [h_1]).
Proof.
  intros Hi Hx. unfold Wave1D.bound_left.
  rewrite (setitem2_ok N_t N_x _ _ _ i 0)
    by (try apply norm_index_0; try apply norm_index_nat; try lia; shape2_tac).
  reflexivity.
Qed.

Lemma bound_right_ok (i : nat) (s : Wave1D.system) :
  (i < N_t)%nat -> (1 <= N_x)%nat ->
  Wave1D.bound_right h_2 N_x N_t i s = Ok (fst s ++ [right_mat i], snd s ++ [h_2]).
Proof.
  intros Hi Hx. unfold Wave1D.bound_right.
  rewrite (setitem2_ok N_t N_x _ _ _ i (N_x - 1))
    by (try apply norm_index_last; try apply norm_index_nat; try lia; shape2_tac).
  reflexivity.
Qed.

Lemma pde_loop_ok (g : Grid1) (s : Wave1D.system) :
  dt g <> 0 -> dx g <> 0 -> length (t g) = N_t -> length (x g) = N_x ->
  Wave1D.pde_loop f c N_x N_t g s = Ok (fst s ++ pde_eqs g, snd s ++ pde_col g).
Proof.
  intros Hdt Hdx Lt Lx. unfold Wave1D.pde_loop, pde_eqs, pde_col.
  apply for_appends. intros i s' Hi. apply in_range in Hi.
  rewrite <- !flat_map_singleton.
  apply for_appends. intros j s'' Hj. apply in_range in Hj.
  apply stencil_ok; auto; lia.
Qed.

Lemma dirichlet_loop_ok (g : Grid1) (s : Wave1D.system) :
  (1 <= N_t)%nat -> length (x g) = N_x ->
  for_ (range 0 N_x) (Wave1D.ivp_dirichlet g_0 N_x N_t g) s =
  Ok (fst s ++ map dirichlet_mat (range 0 N_x),
      snd s ++ map (fun j => g_0 (nth j (x g) 0)) (range 0 N_x)).
Proof.
  intros Ht Lx. rewrite <- !flat_map_singleton.
  apply for_appends. intros j s' Hj. apply in_range in Hj.
  apply ivp_dirichlet_ok; auto; lia.
Qed.

Lemma neumann_loop_ok (g : Grid1) (s : Wave1D.system) :
  (2 <= N_t)%nat -> length (x g) = N_x ->
  for_ (range 1 (N_x - 1)) (Wave1D.ivp_neumann g_1 N_x N_t g) s =
  Ok (fst s ++ map neumann_mat (range 1 (N_x - 1)),
      snd s ++ map (fun j => g_1 (nth j (x g) 0)) (range 1 (N_x - 1))).
Proof.
  intros Ht Lx. rewrite <- !flat_map_singleton.
  apply for_appends. intros j s' Hj. apply in_range in Hj.
  apply ivp_neumann_ok; auto; lia.
Qed.

Lemma left_loop_ok (s : Wave1D.system) :
  (1 <= N_x)%nat ->
  for_ (range 1 N_t) (Wave1D.bound_left h_1 N_x N_t) s =
  Ok (fst s ++ map left_mat (range 1 N_t), snd s ++ map (fun _ => h_1) (range 1 N_t)).
Proof.
  intros Hx. rewrite <- !flat_map_singleton.
  apply for_appends. intros i s' Hi. apply in_range in Hi.
  apply bound_left_ok; auto; lia.
Qed.

Lemma right_loop_ok (s : Wave1D.system) :
  (1 <= N_x)%nat ->
  for_ (range 1 N_t) (Wave1D.bound_right h_2 N_x N_t) s =
  Ok (fst s ++ map right_mat (range 1 N_t), snd s ++ map (fun _ => h_2) (range 1 N_t)).
Proof.
  intros Hx. rewrite <- !flat_map_singleton.
  apply for_appends. intros i s' Hi. apply in_range in Hi.
  apply bound_right_ok; auto; lia.
Qed.

Lemma bc_loops_ok (g : Grid1) (s : Wave1D.system) :
  (2 <= N_t)%nat -> (1 <= N_x)%nat -> length (x g) = N_x ->
  Wave1D.bc_loops h_1 h_2 g_0 g_1 N_x N_t g s =
  Ok (fst s ++ bc_eqs, snd s ++ bc_col g).
Proof.
  intros Ht Hx Lx. unfold Wave1D.bc_loops, bc_eqs, bc_col.
  rewrite dirichlet_loop_ok by (auto; lia). cbn [bind].
  rewrite neumann_loop_ok by (auto; lia). cbn [bind].
  rewrite left_loop_ok by assumption. cbn [bind].
  rewrite right_loop_ok by assumption. cbn [fst snd].
  now rewrite <- !app_assoc.
Qed.

Lemma wave_dt_neq0 : (1 <= N_t)%nat -> 0 < t_f -> dt grid <> 0.
Proof.
  intros Ht Hlt. simpl.
  assert (0 < t_f / INR N_t); [|lra].
  apply Rdiv_lt_0_compat; [lra|]. apply lt_0_INR. lia.
Qed.

Lemma wave_dx_neq0 : (1 <= N_x)%nat -> x_1 < x_2 -> dx grid <> 0.
Proof.
  intros Hx Hlt. simpl.
  assert (0 < (x_2 - x_1) / INR N_x); [|lra].
  apply Rdiv_lt_0_compat; [lra|]. apply lt_0_INR. lia.
Qed.

Lemma assemble_ok :
  (2 <= N_x)%nat -> (2 <= N_t)%nat -> x_1 < x_2 -> 0 < t_f ->
  Wave1D.assemble f c x_1 x_2 t_f h_1 h_2 g_0 g_1 N_x N_t =
  Ok (pde_eqs grid ++ bc_eqs, pde_col grid ++ bc_col grid).
Proof.
  intros Hx Ht Lx Lt. unfold Wave1D.assemble.
  rewrite make_grid_ok by lia. fold grid. cbn [bind].
  rewrite pde_loop_ok;
    try (simpl; apply length_linspace);
    [|apply wave_dt_neq0; [lia|assumption]|apply wave_dx_neq0; [lia|assumption]].
  cbn [bind fst snd app].
  rewrite bc_loops_ok; try (simpl; apply length_linspace); try lia.
  reflexivity.
Qed.

(** *** The coefficients of the equations *)

Lemma entry_stencil_mat (g : Grid1) (i j i' j' : nat) :
  (1 <= i)%nat -> (i + 1 < N_t)%nat -> (1 <= j)%nat -> (j + 1 < N_x)%nat ->
  entry (stencil_mat g i j) i' j' =
  (if (Nat.eqb i i' && Nat.eqb j j')%bool
   then -2 / dt g / dt g + c * c / dx g / dx g * 2 else 0)
  + (if ((Nat.eqb (i - 1) i' || Nat.eqb (i + 1) i') && Nat.eqb j j')%bool
     then 1 / dt g / dt g else 0)
  + (if (Nat.eqb i i' && (Nat.eqb (j + 1) j' || Nat.eqb (j - 1) j'))%bool
     then - (c * c / dx g / dx g) else 0).
Proof.
  intros Hi1 Hi2 Hj1 Hj2. unfold WaveEquations.stencil_mat. cbv zeta.
  repeat (rewrite (entry_add2 N_t N_x) by (try lia; shape2_tac)).
  rewrite entry_zeros. eqb_cases.
Qed.

Lemma entry_dirichlet_mat (j i' j' : nat) :
  (1 <= N_t)%nat -> (j < N_x)%nat ->
  entry (dirichlet_mat j) i' j' =
  if (Nat.eqb 0 i' && Nat.eqb j j')%bool then 1 else 0.
Proof.
  intros Ht Hj. unfold WaveEquations.dirichlet_mat.
  rewrite (entry_put2 N_t N_x) by (try lia; shape2_tac).
  now rewrite entry_zeros.
Qed.

Lemma entry_neumann_mat (j i' j' : nat) :
  (2 <= N_t)%nat -> (j < N_x)%nat ->
  entry (neumann_mat j) i' j' =
  if (Nat.eqb 0 i' && Nat.eqb j j')%bool then -1
  else if (Nat.eqb 1 i' && Nat.eqb j j')%bool then 1 else 0.
Proof.
  intros Ht Hj. unfold WaveEquations.neumann_mat.
  repeat (rewrite (entry_put2 N_t N_x) by (try lia; shape2_tac)).
  now rewrite entry_zeros.
Qed.

Lemma entry_left_mat (i i' j' : nat) :
  (i < N_t)%nat -> (1 <= N_x)%nat ->
  entry (left_mat i) i' j' =
  if (Nat.eqb i i' && Nat.eqb 0 j')%bool then 1 else 0.
Proof.
  intros Hi Hx. unfold WaveEquations.left_mat.
  rewrite (entry_put2 N_t N_x) by (try lia; shape2_tac).
  now rewrite entry_zeros.
Qed.

Lemma entry_right_mat (i i' j' : nat) :
  (i < N_t)%nat -> (1 <= N_x)%nat ->
  entry (right_mat i) i' j' =
  if (Nat.eqb i i' && Nat.eqb (N_x - 1) j')%bool then 1 else 0.
Proof.
  intros Hi Hx. unfold WaveEquations.right_mat.
  rewrite (entry_put2 N_t N_x) by (try lia; shape2_tac).
  now rewrite entry_zeros.
Qed.

(** *** The index sets of the two components *)

Lemma in_stencil_centres (i j : nat) :
  In (i, j) stencil_centres <->
  (1 <= i)%nat /\ (i + 1 < N_t)%nat /\ (1 <= j)%nat /\ (j + 1 < N_x)%nat.
Proof.
  unfold WaveEquations.stencil_centres. rewrite in_flat_map. split.
  - intros (i0 & Hi & Hin). apply in_map_iff in Hin as (j0 & [= <- <-] & Hj).
    apply in_range in Hi, Hj. lia.
  - intros (H1 & H2 & H3 & H4). exists i. split; [apply in_range; lia|].
    apply in_map_iff. exists j. split; [reflexivity|apply in_range; lia].
Qed.

Lemma in_stencil_index_set (p : nat * nat) :
  In p stencil_index_set <->
  exists i j, In (i, j) stencil_centres /\ In p (stencil_writes i j).
Proof.
  unfold WaveEquations.stencil_index_set. rewrite in_flat_map. split.
  - intros ([i j] & Hc & Hp). now exists i, j.
  - intros (i & j & Hc & Hp). now exists (i, j).
Qed.

Lemma in_boundary_index_set (i j : nat) :
  In (i, j) boundary_index_set <->
  (i = 0 /\ j < N_x)%nat \/
  ((i = 0 \/ i = 1) /\ 1 <= j /\ j + 1 < N_x)%nat \/
  (1 <= i /\ i < N_t /\ (j = 0 \/ j = N_x - 1))%nat.
Proof.
  unfold WaveEquations.boundary_index_set. rewrite !in_app_iff, in_flat_map, !in_map_iff.
  split.
  - intros [(j0 & [= <- <-] & Hj)|[(j0 & Hj & Hin)|[(i0 & [= <- <-] & Hi)|(i0 & [= <- <-] & Hi)]]].
    + apply in_range in Hj. left. lia.
    + apply in_range in Hj. right. left.
      destruct Hin as [[= <- <-]|[[= <- <-]|[]]]; lia.
    + apply in_range in Hi. right. right. lia.
    + apply in_range in Hi. right. right. lia.
  - intros [[-> Hj]|[(Hi & H1 & H2)|(H1 & H2 & Hj)]].
    + left. exists j. split; [reflexivity|apply in_range; lia].
    + right. left. exists j. split; [apply in_range; lia|].
      destruct Hi as [->| ->]; simpl; auto.
    + destruct Hj as [->| ->].
      * right. right. left. exists i. split; [reflexivity|apply in_range; lia].
      * right. right. right. exists i. split; [reflexivity|apply in_range; lia].
Qed.

(** Outside the written subscripts the coefficient grids are zero, so
    the index sets bound the supports of the equations. *)
Lemma stencil_support (g : Grid1) (i j i' j' : nat) :
  In (i, j) stencil_centres -> entry (stencil_mat g i j) i' j' <> 0 ->
  In (i', j') (stencil_writes i j).
Proof.
  intros Hc. apply in_stencil_centres in Hc as (H1 & H2 & H3 & H4).
  rewrite entry_stencil_mat by assumption. intros H.
  destruct (Nat.eq_dec j' j) as [->|Hj].
  - destruct (Nat.eq_dec i' i) as [->|Hi]; [now left|].
    destruct (Nat.eq_dec i' (i - 1)) as [->|Hi1]; [right; now left|].
    destruct (Nat.eq_dec i' (i + 1)) as [->|Hi2]; [right; right; now left|].
    exfalso. apply H. eqb_cases.
  - destruct (Nat.eq_dec i' i) as [->|Hi]; [|exfalso; apply H; eqb_cases].
    destruct (Nat.eq_dec j' (j + 1)) as [->|Hj1]; [simpl; auto 6|].
    destruct (Nat.eq_dec j' (j - 1)) as [->|Hj2]; [simpl; auto 7|].
    exfalso. apply H. eqb_cases.
Qed.

Lemma bc_support (mat : array2) (i' j' : nat) :
  (2 <= N_t)%nat -> (2 <= N_x)%nat ->
  In mat bc_eqs -> entry mat i' j' <> 0 -> In (i', j') boundary_index_set.
Proof.
  intros Ht Hx Hin Hne. apply in_boundary_index_set.
  unfold WaveEquations.bc_eqs in Hin. rewrite !in_app_iff, !in_map_iff in Hin.
  destruct Hin as [(j & <- & Hj)|[(j & <- & Hj)|[(i & <- & Hi)|(i & <- & Hi)]]];
    apply in_range in Hj || apply in_range in Hi.
  - rewrite entry_dirichlet_mat in Hne by lia.
    destruct (Nat.eqb_spec 0 i'), (Nat.eqb_spec j j'); cbn [andb] in Hne;
      try congruence. left. lia.
  - rewrite entry_neumann_mat in Hne by lia.
    destruct (Nat.eqb_spec 0 i'), (Nat.eqb_spec 1 i'), (Nat.eqb_spec j j');
      cbn [andb] in Hne; try congruence; right; left; lia.
  - rewrite entry_left_mat in Hne by lia.
    destruct (Nat.eqb_spec i i'), (Nat.eqb_spec 0 j'); cbn [andb] in Hne;
      try congruence. right. right. lia.
  - rewrite entry_right_mat in Hne by lia.
    destruct (Nat.eqb_spec i i'), (Nat.eqb_spec (N_x - 1) j'); cbn [andb] in Hne;
      try congruence. right. right. lia.
Qed.

Lemma length_pde_eqs (g : Grid1) : length (pde_eqs g) = ((N_t - 2) * (N_x - 2))%nat.
Proof.
  unfold WaveEquations.pde_eqs.
  rewrite (length_flat_map_const _ _ (N_x - 2))
    by (intros; rewrite length_map, length_range; lia).
  rewrite length_range. lia.
Qed.

Lemma length_pde_col (g : Grid1) : length (pde_col g) = ((N_t - 2) * (N_x - 2))%nat.
Proof.
  unfold WaveEquations.pde_col.
  rewrite (length_flat_map_const _ _ (N_x - 2))
    by (intros; rewrite length_map, length_range; lia).
  rewrite length_range. lia.
Qed.

Lemma count_total :
  (2 <= N_x)%nat -> (2 <= N_t)%nat ->
  ((N_t - 2) * (N_x - 2) + N_x + (N_x - 2) + (N_t - 1) + (N_t - 1) = N_t * N_x)%nat.
Proof.
  intros Hx Ht.
  assert (E : forall p q : nat,
             (p * q + (q + 2) + q + (p + 1) + (p + 1) = (p + 2) * (q + 2))%nat)
    by (intros; ring).
  specialize (E (N_t - 2)%nat (N_x - 2)%nat).
  replace (N_t - 2 + 2)%nat with N_t in E by lia.
  replace (N_x - 2 + 2)%nat with N_x in E by lia.
  replace (N_t - 2 + 1)%nat with (N_t - 1)%nat in E by lia.
  exact E.
Qed.

Lemma stencil_index_in_range (p : nat * nat) :
  In p stencil_index_set -> (fst p < N_t)%nat /\ (snd p < N_x)%nat.
Proof.
  intros Hp. apply in_stencil_index_set in Hp as (i & j & Hc & Hp).
  apply in_stencil_centres in Hc. unfold WaveEquations.stencil_writes in Hp. simpl in Hp.
  repeat destruct Hp as [<-|Hp]; simpl; try lia; contradiction.
Qed.

Lemma boundary_index_in_range (p : nat * nat) :
  (2 <= N_x)%nat -> (2 <= N_t)%nat ->
  In p boundary_index_set -> (fst p < N_t)%nat /\ (snd p < N_x)%nat.
Proof.
  intros Hx Ht Hp. destruct p as [i j]. apply in_boundary_index_set in Hp.
  simpl. lia.
Qed.

Lemma index_sets_cover (i j : nat) :
  (2 <= N_t)%nat -> (i < N_t)%nat -> (j < N_x)%nat ->
  In (i, j) stencil_index_set \/ In (i, j) boundary_index_set.
Proof.
  intros Ht Hi Hj.
  destruct (Nat.eq_dec i 0) as [->|Hi0];
    [right; apply in_boundary_index_set; lia|].
  destruct (Nat.eq_dec j 0) as [->|Hj0];
    [right; apply in_boundary_index_set; lia|].
  destruct (Nat.eq_dec j (N_x - 1)) as [->|Hj1];
    [right; apply in_boundary_index_set; lia|].
  destruct (Nat.eq_dec i 1) as [->|Hi1];
    [right; apply in_boundary_index_set; lia|].
  left. apply in_stencil_index_set.
  destruct (Nat.eq_dec i (N_t - 1)) as [->|Hi2].
  - exists (N_t - 2)%nat, j. split; [apply in_stencil_centres; lia|].
    unfold WaveEquations.stencil_writes. right. right. left. f_equal. lia.
  - exists i, j. split; [apply in_stencil_centres; lia|now left].
Qed.

Lemma index_sets_overlap (j : nat) :
  (3 <= N_t)%nat -> (1 <= j)%nat -> (j + 1 < N_x)%nat ->
  In (0, j)%nat stencil_index_set /\ In (0, j)%nat boundary_index_set.
Proof.
  intros Ht H1 H2. split.
  - apply in_stencil_index_set. exists 1%nat, j.
    split; [apply in_stencil_centres; lia|]. right. now left.
  - apply in_boundary_index_set. left. lia.
Qed.


End Facts.
End WaveFacts.


(** ** Shapes and entries of three-dimensional arrays *)

Lemma shape3_zeros (n m p : nat) : shape3 n m p (zeros3 n m p).
Proof.
  split; [apply repeat_length|].
  apply Forall_forall. intros r Hr. apply repeat_spec in Hr. subst.
  apply shape2_zeros.
Qed.

Lemma shape3_plane (n m p : nat) (a : array3) (i : nat) :
  shape3 n m p a -> (i < n)%nat -> shape2 m p (nth i a []).
Proof.
  intros [Hn Hm] Hi. rewrite Forall_forall in Hm. apply Hm, nth_In. lia.
Qed.

Lemma shape3_put3 (n m p : nat) (a : array3) (i j k : nat) (v : R) :
  shape3 n m p a -> (i < n)%nat -> (j < m)%nat -> shape3 n m p (put3 a i j k v).
Proof.
  intros Ha Hi Hj. pose proof (shape3_plane _ _ _ _ _ Ha Hi) as Hr.
  destruct Ha as [Hn Hm]. split; unfold put3.
  - now rewrite length_upd.
  - apply Forall_upd; auto. now apply shape2_put2.
Qed.

Lemma shape3_add3 (n m p : nat) (a : array3) (i j k : nat) (v : R) :
  shape3 n m p a -> (i < n)%nat -> (j < m)%nat -> shape3 n m p (add3 a i j k v).
Proof. intros. now apply shape3_put3. Qed.

Lemma entry3_zeros (n m p i j k : nat) : entry3 (zeros3 n m p) i j k = 0.
Proof.
  unfold entry3, zeros3.
  destruct (Nat.lt_ge_cases i n) as [Hi|Hi].
  - rewrite nth_repeat_lt by assumption. apply entry_zeros.
  - rewrite nth_overflow by now rewrite repeat_length.
    unfold entry. destruct j, k; reflexivity.
Qed.

Lemma entry3_put3 (n m p : nat) (a : array3) (i j k i' j' k' : nat) (v : R) :
  shape3 n m p a -> (i < n)%nat -> (j < m)%nat -> (k < p)%nat ->
  entry3 (put3 a i j k v) i' j' k' =
  if (Nat.eqb i i' && Nat.eqb j j' && Nat.eqb k k')%bool then v
  else entry3 a i' j' k'.
Proof.
  intros Ha Hi Hj Hk. pose proof (shape3_plane _ _ _ _ _ Ha Hi) as Hr.
  destruct Ha as [Hn Hm]. unfold entry3, put3.
  destruct (Nat.eqb_spec i i') as [<-|Hne]; cbn [andb].
  - rewrite nth_upd_eq by lia. now rewrite (entry_put2 m p).
  - now rewrite nth_upd_neq.
Qed.

Lemma entry3_add3 (n m p : nat) (a : array3) (i j k i' j' k' : nat) (v : R) :
  shape3 n m p a -> (i < n)%nat -> (j < m)%nat -> (k < p)%nat ->
  entry3 (add3 a i j k v) i' j' k' =
  entry3 a i' j' k'
  + (if (Nat.eqb i i' && Nat.eqb j j' && Nat.eqb k k')%bool then v else 0).
Proof.
  intros Ha Hi Hj Hk. unfold add3. rewrite (entry3_put3 n m p) by assumption.
  destruct (Nat.eqb_spec i i') as [<-|]; cbn [andb]; [|lra].
  destruct (Nat.eqb_spec j j') as [<-|]; cbn [andb]; [|lra].
  destruct (Nat.eqb_spec k k') as [<-|]; lra.
Qed.

Lemma setitem3_ok (n m p : nat) (a : array3) (i j k : Z) (i' j' k' : nat) (v : R) :
  shape3 n m p a -> norm_index n i = Ok i' -> norm_index m j = Ok j' ->
  norm_index p k = Ok k' ->
  setitem3 a i j k v = Ok (put3 a i' j' k' v).
Proof.
  intros Ha Hi Hj Hk. pose proof (norm_index_lt _ _ _ Hi) as Hlt.
  unfold setitem3. rewrite (proj1 Ha), Hi. cbn [bind].
  rewrite (setitem2_ok m p _ _ _ j' k') by (auto; now apply (shape3_plane n)).
  reflexivity.
Qed.

Lemma iadd3_ok (n m p : nat) (a : array3) (i j k : Z) (i' j' k' : nat) (v : R) :
  shape3 n m p a -> norm_index n i = Ok i' -> norm_index m j = Ok j' ->
  norm_index p k = Ok k' ->
  iadd3 a i j k (Ok v) = Ok (add3 a i' j' k' v).
Proof.
  intros Ha Hi Hj Hk. pose proof (norm_index_lt _ _ _ Hi) as Hlt.
  pose proof (norm_index_lt _ _ _ Hj) as Hlt'.
  pose proof (shape3_plane _ _ _ _ _ Ha Hlt) as Hpl.
  unfold iadd3, getitem3, getitem2, getitem1. rewrite (proj1 Ha), Hi. cbn [bind].
  rewrite (proj1 Hpl), Hj. cbn [bind].
  rewrite (shape2_row _ _ _ _ Hpl Hlt'), Hk. cbn [bind].
  unfold add3, entry3, entry. apply (setitem3_ok n m p); assumption.
Qed.

Ltac shape3_tac :=
  repeat first [ apply shape3_zeros
               | apply shape3_add3; [| lia | lia]
               | apply shape3_put3; [| lia | lia] ].

(** A doubly nested loop whose body appends one equation. *)
Lemma for2_appends {I J X Y} (l1 : list I) (l2 : list J)
      (body : I -> J -> (list X * list Y) -> result (list X * list Y))
      (M : I -> J -> X) (b : I -> J -> Y) :
  (forall i j s, In i l1 -> In j l2 ->
                 body i j s = Ok (fst s ++ [M i j], snd s ++ [b i j])) ->
  forall s, for_ l1 (fun i => for_ l2 (body i)) s =
            Ok (fst s ++ flat_map (fun i => map (M i) l2) l1,
                snd s ++ flat_map (fun i => map (b i) l2) l1).
Proof.
  intros Hb. apply for_appends. intros i s Hi.
  rewrite <- !flat_map_singleton.
  apply for_appends. intros j s' Hj. now apply Hb.
Qed.

(** ** The CTCS assembly of the 2-D wave equation *)

Module Wave2DFacts.
Section Facts.

Variable f : R -> R -> R -> R.
Variable c : R.
Variables x_1 x_2 y_1 y_2 t_f : R.
Variables h_1 h_2 : R.
Variables g_0 g_1 : R -> R -> R.
Variables N_x N_y N_t : nat.

Local Abbreviation grid := (grid2 x_1 x_2 y_1 y_2 t_f N_x N_y N_t).
Local Abbreviation stencil_mat := (Wave2DEquations.stencil_mat c N_x N_y N_t).
Local Abbreviation dirichlet_mat := (Wave2DEquations.dirichlet_mat N_x N_y N_t).
Local Abbreviation neumann_mat := (Wave2DEquations.neumann_mat N_x N_y N_t).
Local Abbreviation x1_mat := (Wave2DEquations.x1_mat N_x N_y N_t).
Local Abbreviation x2_mat := (Wave2DEquations.x2_mat N_x N_y N_t).
Local Abbreviation y1_mat := (Wave2DEquations.y1_mat N_x N_y N_t).
Local Abbreviation y2_mat := (Wave2DEquations.y2_mat N_x N_y N_t).
Local Abbreviation pde_eqs := (Wave2DEquations.pde_eqs c N_x N_y N_t).
Local Abbreviation pde_col := (Wave2DEquations.pde_col f N_x N_y N_t).
Local Abbreviation dirichlet_eqs := (Wave2DEquations.dirichlet_eqs N_x N_y N_t).
Local Abbreviation dirichlet_col := (Wave2DEquations.dirichlet_col g_0 N_x N_y).
Local Abbreviation neumann_eqs := (Wave2DEquations.neumann_eqs N_x N_y N_t).
Local Abbreviation neumann_col := (Wave2DEquations.neumann_col g_1 N_x N_y).
Local Abbreviation face_eqs := (Wave2DEquations.face_eqs N_x N_y N_t).
Local Abbreviation face_col := (Wave2DEquations.face_col h_1 h_2 N_x N_y N_t).

Ltac index_tac :=
  first [ apply norm_index_0 | apply norm_index_last | apply norm_index_pred
        | apply norm_index_succ | apply norm_index_nat
        | apply (norm_index_nat _ 1) ]; lia.

Ltac put3_step i j k :=
  rewrite (setitem3_ok N_t N_x N_y _ _ _ _ i j k)
    by first [ index_tac | shape3_tac ];
  cbn [bind].

Ltac add3_step i j k :=
  run_pydiv;
  rewrite (iadd3_ok N_t N_x N_y _ _ _ _ i j k)
    by first [ index_tac | shape3_tac ];
  cbn [bind].

Lemma stencil3_ok (g : Grid2) (i j k : nat) (s : Wave2D.system) :
  (1 <= i)%nat -> (i + 1 < N_t)%nat -> (1 <= j)%nat -> (j + 1 < N_x)%nat ->
  (1 <= k)%nat -> (k + 1 < N_y)%nat ->
  dt2 g <> 0 -> dx2 g <> 0 -> dy2 g <> 0 ->
  length (ts2 g) = N_t -> length (xs2 g) = N_x -> length (ys2 g) = N_y ->
  Wave2D.stencil f c N_x N_y N_t g i j k s =
  Ok (fst s ++ [stencil_mat g i j k],
      snd s ++ [f (nth i (ts2 g) 0) (nth j (xs2 g) 0) (nth k (ys2 g) 0)]).
Proof.
  intros Hi1 Hi2 Hj1 Hj2 Hk1 Hk2 Hdt Hdx Hdy Lt Lx Ly. unfold Wave2D.stencil.
  add3_step i j k. add3_step (i - 1)%nat j k. add3_step (i + 1)%nat j k.
  add3_step i j k. add3_step i (j + 1)%nat k. add3_step i (j - 1)%nat k.
  add3_step i j k. add3_step i j (k + 1)%nat. add3_step i j (k - 1)%nat.
  unfold getitem1. rewrite Lt, Lx, Ly.
  rewrite !norm_index_nat by lia. cbn [bind].
  reflexivity.
Qed.

Lemma ivp_dirichlet3_ok (g : Grid2) (j k : nat) (s : Wave2D.system) :
  (1 <= N_t)%nat -> (j < N_x)%nat -> (k < N_y)%nat ->
  length (xs2 g) = N_x -> length (ys2 g) = N_y ->
  Wave2D.ivp_dirichlet g_0 N_x N_y N_t g j k s =
  Ok (fst s ++ [dirichlet_mat j k],
      snd s ++ [g_0 (nth j (xs2 g) 0) (nth k (ys2 g) 0)]).
Proof.
  intros Ht Hj Hk Lx Ly. unfold Wave2D.ivp_dirichlet.
  put3_step O j k.
  unfold getitem1. rewrite Lx, Ly, !norm_index_nat by lia.
  reflexivity.
Qed.

Lemma ivp_neumann3_ok (g : Grid2) (j k : nat) (s : Wave2D.system) :
  (2 <= N_t)%nat -> (j < N_x)%nat -> (k < N_y)%nat ->
  length (xs2 g) = N_x -> length (ys2 g) = N_y ->
  Wave2D.ivp_neumann g_1 N_x N_y N_t g j k s =
  Ok (fst s ++ [neumann_mat j k],
      snd s ++ [g_1 (nth j (xs2 g) 0) (nth k (ys2 g) 0)]).
Proof.
  intros Ht Hj Hk Lx Ly. unfold Wave2D.ivp_neumann.
  put3_step 1%nat j k. put3_step O j k.
  unfold getitem1. rewrite Lx, Ly, !norm_index_nat by lia.
  reflexivity.
Qed.

Lemma bound_x1_ok (i k : nat) (s : Wave2D.system) :
  (i < N_t)%nat -> (1 <= N_x)%nat -> (k < N_y)%nat ->
  Wave2D.bound_x1 h_1 N_x N_y N_t i k s = Ok (fst s ++ [x1_mat i k], snd s ++ [h_1]).
Proof.
  intros Hi Hx Hk. unfold Wave2D.bound_x1. put3_step i O k. reflexivity.
Qed.

Lemma bound_x2_ok (i k : nat) (s : Wave2D.system) :
  (i < N_t)%nat -> (1 <= N_x)%nat -> (k < N_y)%nat ->
  Wave2D.bound_x2 h_2 N_x N_y N_t i k s = Ok (fst s ++ [x2_mat i k], snd s ++ [h_2]).
Proof.
  intros Hi Hx Hk. unfold Wave2D.bound_x2. put3_step i (N_x - 1)%nat k. reflexivity.
Qed.

Lemma bound_y1_ok (i j : nat) (s : Wave2D.system) :
  (i < N_t)%nat -> (j < N_x)%nat -> (1 <= N_y)%nat ->
  Wave2D.bound_y1 h_1 N_x N_y N_t i j s = Ok (fst s ++ [y1_mat i j], snd s ++ [h_1]).
Proof.
  intros Hi Hj Hy. unfold Wave2D.bound_y1. put3_step i j O. reflexivity.
Qed.

Lemma bound_y2_ok (i j : nat) (s : Wave2D.system) :
  (i < N_t)%nat -> (j < N_x)%nat -> (1 <= N_y)%nat ->
  Wave2D.bound_y2 h_2 N_x N_y N_t i j s = Ok (fst s ++ [y2_mat i j], snd s ++ [h_2]).
Proof.
  intros Hi Hj Hy. unfold Wave2D.bound_y2. put3_step i j (N_y - 1)%nat. reflexivity.
Qed.

Lemma pde_loop3_ok (g : Grid2) (s : Wave2D.system) :
  dt2 g <> 0 -> dx2 g <> 0 -> dy2 g <> 0 ->
  length (ts2 g) = N_t -> length (xs2 g) = N_x -> length (ys2 g) = N_y ->
  Wave2D.pde_loop f c N_x N_y N_t g s = Ok (fst s ++ pde_eqs g, snd s ++ pde_col g).
Proof.
  intros Hdt Hdx Hdy Lt Lx Ly. unfold Wave2D.pde_loop, pde_eqs, pde_col.
  apply for_appends. intros i s' Hi. apply in_range in Hi.
  apply for2_appends. intros j k s'' Hj Hk. apply in_range in Hj, Hk.
  apply stencil3_ok; auto; lia.
Qed.

Lemma bc_loops3_ok (g : Grid2) (s : Wave2D.system) :
  (2 <= N_t)%nat -> (1 <= N_x)%nat -> (1 <= N_y)%nat ->
  length (xs2 g) = N_x -> length (ys2 g) = N_y ->
  Wave2D.bc_loops h_1 h_2 g_0 g_1 N_x N_y N_t g s =
  Ok (fst s ++ dirichlet_eqs ++ neumann_eqs ++ face_eqs,
      snd s ++ dirichlet_col g ++ neumann_col g ++ face_col).
Proof.
  intros Ht Hx Hy Lx Ly. unfold Wave2D.bc_loops.
  rewrite (for2_appends _ _ _ dirichlet_mat
             (fun j k => g_0 (nth j (xs2 g) 0) (nth k (ys2 g) 0)))
    by (intros j k s' Hj Hk; apply in_range in Hj, Hk;
        apply ivp_dirichlet3_ok; auto; lia).
  cbn [bind].
  rewrite (for2_appends _ _ _ neumann_mat
             (fun j k => g_1 (nth j (xs2 g) 0) (nth k (ys2 g) 0)))
    by (intros j k s' Hj Hk; apply in_range in Hj, Hk;
        apply ivp_neumann3_ok; auto; lia).
  cbn [bind].
  rewrite (for2_appends _ _ _ x1_mat (fun _ _ => h_1))
    by (intros i k s' Hi Hk; apply in_range in Hi, Hk;
        apply bound_x1_ok; auto; lia).
  cbn [bind].
  rewrite (for2_appends _ _ _ x2_mat (fun _ _ => h_2))
    by (intros i k s' Hi Hk; apply in_range in Hi, Hk;
        apply bound_x2_ok; auto; lia).
  cbn [bind].
  rewrite (for2_appends _ _ _ y1_mat (fun _ _ => h_1))
    by (intros i j s' Hi Hj; apply in_range in Hi, Hj;
        apply bound_y1_ok; auto; lia).
  cbn [bind].
  rewrite (for2_appends _ _ _ y2_mat (fun _ _ => h_2))
    by (intros i j s' Hi Hj; apply in_range in Hi, Hj;
        apply bound_y2_ok; auto; lia).
  cbn [fst snd]. unfold Wave2DEquations.dirichlet_eqs, Wave2DEquations.dirichlet_col, Wave2DEquations.neumann_eqs, Wave2DEquations.neumann_col,
    Wave2DEquations.face_eqs, Wave2DEquations.face_col.
  now rewrite <- !app_assoc.
Qed.

Lemma step_neq0 (p : R) (n : nat) : (1 <= n)%nat -> 0 < p -> p / INR n <> 0.
Proof.
  intros Hn Hp. assert (0 < p / INR n); [|lra].
  apply Rdiv_lt_0_compat; [lra|]. apply lt_0_INR. lia.
Qed.

Lemma assemble3_ok :
  (2 <= N_x)%nat -> (2 <= N_y)%nat -> (2 <= N_t)%nat ->
  x_1 < x_2 -> y_1 < y_2 -> 0 < t_f ->
  Wave2D.assemble f c x_1 x_2 y_1 y_2 t_f h_1 h_2 g_0 g_1 N_x N_y N_t =
  Ok (pde_eqs grid ++ dirichlet_eqs ++ neumann_eqs ++ face_eqs,
      pde_col grid ++ dirichlet_col grid ++ neumann_col grid ++ face_col).
Proof.
  intros Hx Hy Ht Lx Ly Lt. unfold Wave2D.assemble.
  rewrite make_grid2_ok by lia. fold grid. cbn [bind].
  rewrite pde_loop3_ok;
    try (simpl; apply length_linspace);
    try (simpl; apply step_neq0; [lia|lra]).
  cbn [bind fst snd app].
  rewrite bc_loops3_ok; try (simpl; apply length_linspace); try lia.
  reflexivity.
Qed.

(** *** The coefficients of the equations *)

Lemma entry_stencil_mat3 (g : Grid2) (i j k i' j' k' : nat) :
  (1 <= i)%nat -> (i + 1 < N_t)%nat -> (1 <= j)%nat -> (j + 1 < N_x)%nat ->
  (1 <= k)%nat -> (k + 1 < N_y)%nat ->
  entry3 (stencil_mat g i j k) i' j' k' =
  (if (Nat.eqb i i' && Nat.eqb j j' && Nat.eqb k k')%bool
   then -2 / dt2 g / dt2 g + c * c / dx2 g / dx2 g * 2 + c * c / dy2 g / dy2 g * 2
   else 0)
  + (if ((Nat.eqb (i - 1) i' || Nat.eqb (i + 1) i') && Nat.eqb j j' && Nat.eqb k k')%bool
     then 1 / dt2 g / dt2 g else 0)
  + (if (Nat.eqb i i' && (Nat.eqb (j + 1) j' || Nat.eqb (j - 1) j') && Nat.eqb k k')%bool
     then - (c * c / dx2 g / dx2 g) else 0)
  + (if (Nat.eqb i i' && Nat.eqb j j' && (Nat.eqb (k + 1) k' || Nat.eqb (k - 1) k'))%bool
     then - (c * c / dy2 g / dy2 g) else 0).
Proof.
  intros Hi1 Hi2 Hj1 Hj2 Hk1 Hk2. unfold Wave2DEquations.stencil_mat. cbv zeta.
  repeat (rewrite (entry3_add3 N_t N_x N_y) by (try lia; shape3_tac)).
  rewrite entry3_zeros.
  destruct (Nat.eqb_spec i i'), (Nat.eqb_spec j j'), (Nat.eqb_spec k k');
    eqb_cases.
Qed.

Lemma entry_neumann_mat3 (j k i' j' k' : nat) :
  (2 <= N_t)%nat -> (j < N_x)%nat -> (k < N_y)%nat ->
  entry3 (neumann_mat j k) i' j' k' =
  if (Nat.eqb 0 i' && Nat.eqb j j' && Nat.eqb k k')%bool then -1
  else if (Nat.eqb 1 i' && Nat.eqb j j' && Nat.eqb k k')%bool then 1 else 0.
Proof.
  intros Ht Hj Hk. unfold Wave2DEquations.neumann_mat.
  repeat (rewrite (entry3_put3 N_t N_x N_y) by (try lia; shape3_tac)).
  now rewrite entry3_zeros.
Qed.

End Facts.
End Wave2DFacts.


(** ** The initial Neumann equations *)

(** C4 on the code.  With [t_f = 1] and [N_t = 2] the step [dt] is 1/2,
    and the prescribed derivative is [g_1 = 1].  The Neumann equation of
    the interior point has the coefficients [+1] at the forward-time
    neighbour and [-1] at the initial slice, as the claim says, but its
    right-hand side is [g_1(x_j) = 1] where the claim, and the
    discretisation of the notebook, [(u_{1,j} - u_{0,j}) / dt = g_{1,j}],
    ask for [g_1(x_j) * dt = 1/2]; the 1-D and the 2-D loop alike. *)
Theorem neumann_rhs_lacks_dt :
  (exists g eqs col,
     make_grid 0 3 1 3 2 = Ok g /\
     Wave1D.assemble (fun _ _ => 0) 1 0 3 1 0 0 (fun _ => 0) (fun _ => 1) 3 2
     = Ok (eqs, col) /\
     entry (nth 3 eqs []) 1 1 = 1 /\ entry (nth 3 eqs []) 0 1 = -1 /\
     nth 3 col 0 = 1 /\ 1 * dt g = 1 / 2) /\
  (exists g eqs col,
     make_grid2 0 3 0 3 1 3 3 2 = Ok g /\
     Wave2D.assemble (fun _ _ _ => 0) 1 0 3 0 3 1 0 0 (fun _ _ => 0) (fun _ _ => 1)
                     3 3 2 = Ok (eqs, col) /\
     entry3 (nth 9 eqs []) 1 1 1 = 1 /\ entry3 (nth 9 eqs []) 0 1 1 = -1 /\
     nth 9 col 0 = 1 /\ 1 * dt2 g = 1 / 2).
Proof.
  split.
  - eexists _, _, _.
    split; [apply make_grid_ok; lia|].
    split; [apply WaveFacts.assemble_ok; try lia; lra|].
    change (nth 3 (WaveEquations.pde_eqs 1 3 2 (grid1 0 3 1 3 2) ++
                   WaveEquations.bc_eqs 3 2) [])
      with (WaveEquations.neumann_mat 3 2 1).
    rewrite !WaveFacts.entry_neumann_mat by lia.
    cbn [Nat.eqb andb nth dt].
    repeat split; try reflexivity.
    rewrite INR_IZR_INZ. cbn [Z.of_nat Pos.of_succ_nat Pos.succ]. lra.
  - eexists _, _, _.
    split; [apply make_grid2_ok; lia|].
    split; [apply Wave2DFacts.assemble3_ok; try lia; lra|].
    change (nth 9 (Wave2DEquations.pde_eqs 1 3 3 2 (grid2 0 3 0 3 1 3 3 2) ++
                   Wave2DEquations.dirichlet_eqs 3 3 2 ++
                   Wave2DEquations.neumann_eqs 3 3 2 ++ Wave2DEquations.face_eqs 3 3 2) [])
      with (Wave2DEquations.neumann_mat 3 3 2 1 1).
    rewrite !Wave2DFacts.entry_neumann_mat3 by lia.
    cbn [Nat.eqb andb nth dt2].
    repeat split; try reflexivity.
    rewrite INR_IZR_INZ. cbn [Z.of_nat Pos.of_succ_nat Pos.succ]. lra.
Qed.

(** ** The support of the stencil equations *)

Lemma five_point_stencil_mat (c : R) (N_x N_t : nat) (g : Grid1) (i j : nat) :
  (1 <= i)%nat -> (i + 1 < N_t)%nat -> (1 <= j)%nat -> (j + 1 < N_x)%nat ->
  dt g <> 0 -> dx g <> 0 ->
  five_point c g (WaveEquations.stencil_mat c N_x N_t g i j) i j.
Proof.
  intros Hi1 Hi2 Hj1 Hj2 Hdt Hdx. split.
  - intros i' j' Hne.
    apply WaveFacts.stencil_support in Hne;
      [|apply WaveFacts.in_stencil_centres; lia].
    unfold WaveEquations.stencil_writes in Hne. simpl in *. tauto.
  - rewrite !WaveFacts.entry_stencil_mat by assumption.
    repeat split; eqb_cases; field; assumption.
Qed.

Lemma seven_point_stencil_mat (c : R) (N_x N_y N_t : nat) (g : Grid2) (i j k : nat) :
  (1 <= i)%nat -> (i + 1 < N_t)%nat -> (1 <= j)%nat -> (j + 1 < N_x)%nat ->
  (1 <= k)%nat -> (k + 1 < N_y)%nat ->
  dt2 g <> 0 -> dx2 g <> 0 -> dy2 g <> 0 ->
  seven_point c g (Wave2DEquations.stencil_mat c N_x N_y N_t g i j k) i j k.
Proof.
  intros Hi1 Hi2 Hj1 Hj2 Hk1 Hk2 Hdt Hdx Hdy. split.
  - intros i' j' k' Hne.
    rewrite Wave2DFacts.entry_stencil_mat3 in Hne by assumption.
    destruct (Nat.eq_dec i' i) as [->|Hi];
      destruct (Nat.eq_dec j' j) as [->|Hj];
      destruct (Nat.eq_dec k' k) as [->|Hk]; [now left| | | | | | |].
    + destruct (Nat.eq_dec k' (k - 1)) as [->|]; [simpl; tauto|].
      destruct (Nat.eq_dec k' (k + 1)) as [->|]; [simpl; tauto|].
      exfalso. apply Hne. eqb_cases.
    + destruct (Nat.eq_dec j' (j - 1)) as [->|]; [simpl; tauto|].
      destruct (Nat.eq_dec j' (j + 1)) as [->|]; [simpl; tauto|].
      exfalso. apply Hne. eqb_cases.
    + exfalso. apply Hne. eqb_cases.
    + destruct (Nat.eq_dec i' (i - 1)) as [->|]; [simpl; tauto|].
      destruct (Nat.eq_dec i' (i + 1)) as [->|]; [simpl; tauto|].
      exfalso. apply Hne. eqb_cases.
    + exfalso. apply Hne. eqb_cases.
    + exfalso. apply Hne. eqb_cases.
    + exfalso. apply Hne. eqb_cases.
  - rewrite !Wave2DFacts.entry_stencil_mat3 by assumption.
    repeat split; eqb_cases; field; assumption.
Qed.

(** C5, as the source has it: every equation of the differential-equation
    loop is centred at an interior index and is zero outside its centre
    and the nearest neighbours along each axis, and every interior index
    is the centre of one; the neighbours carry [1/dt^2] and [-c^2/dx^2]
    ([-c^2/dy^2]), also when they lie on the first or last time index or
    on the first or last index of a space axis. *)
Theorem stencil_support_and_neighbours
        (f1 : R -> R -> R) (f2 : R -> R -> R -> R) (c : R)
        (x_1 x_2 y_1 y_2 t_f : R) (N_x N_y N_t : nat) :
  (2 <= N_x)%nat -> (2 <= N_y)%nat -> (2 <= N_t)%nat ->
  x_1 < x_2 -> y_1 < y_2 -> 0 < t_f ->
  (exists g eqs col,
     make_grid x_1 x_2 t_f N_x N_t = Ok g /\
     Wave1D.pde_loop f1 c N_x N_t g ([], []) = Ok (eqs, col) /\
     1 / dt g ^ 2 <> 0 /\
     (forall mat, In mat eqs ->
        exists i j, (1 <= i /\ i + 1 < N_t /\ 1 <= j /\ j + 1 < N_x)%nat /\
                    five_point c g mat i j) /\
     (forall i j, (1 <= i /\ i + 1 < N_t /\ 1 <= j /\ j + 1 < N_x)%nat ->
        exists mat, In mat eqs /\ five_point c g mat i j)) /\
  (exists g eqs col,
     make_grid2 x_1 x_2 y_1 y_2 t_f N_x N_y N_t = Ok g /\
     Wave2D.pde_loop f2 c N_x N_y N_t g ([], []) = Ok (eqs, col) /\
     1 / dt2 g ^ 2 <> 0 /\
     (forall mat, In mat eqs ->
        exists i j k, (1 <= i /\ i + 1 < N_t /\ 1 <= j /\ j + 1 < N_x /\
                       1 <= k /\ k + 1 < N_y)%nat /\
                      seven_point c g mat i j k) /\
     (forall i j k, (1 <= i /\ i + 1 < N_t /\ 1 <= j /\ j + 1 < N_x /\
                     1 <= k /\ k + 1 < N_y)%nat ->
        exists mat, In mat eqs /\ seven_point c g mat i j k)).
Proof.
  intros Hx Hy Ht Lx Ly Lt.
  assert (Hdt : t_f / INR N_t <> 0) by (apply Wave2DFacts.step_neq0; [lia|lra]).
  assert (Hdx : (x_2 - x_1) / INR N_x <> 0) by (apply Wave2DFacts.step_neq0; [lia|lra]).
  assert (Hdy : (y_2 - y_1) / INR N_y <> 0) by (apply Wave2DFacts.step_neq0; [lia|lra]).
  assert (Hinv : 1 / (t_f / INR N_t) ^ 2 <> 0).
  { unfold Rdiv at 1. rewrite Rmult_1_l. apply Rinv_neq_0_compat.
    now apply pow_nonzero. }
  split.
  - exists (grid1 x_1 x_2 t_f N_x N_t), (WaveEquations.pde_eqs c N_x N_t (grid1 x_1 x_2 t_f N_x N_t)), (WaveEquations.pde_col f1 N_x N_t (grid1 x_1 x_2 t_f N_x N_t)).
    split; [apply make_grid_ok; lia|].
    split; [apply WaveFacts.pde_loop_ok; simpl; auto using length_linspace|].
    split; [exact Hinv|]. split.
    + intros mat Hin. unfold WaveEquations.pde_eqs in Hin.
      apply in_flat_map in Hin as (i & Hi & Hin).
      apply in_map_iff in Hin as (j & <- & Hj).
      apply in_range in Hi, Hj. exists i, j. split; [lia|].
      apply five_point_stencil_mat; auto; lia.
    + intros i j (H1 & H2 & H3 & H4).
      exists (WaveEquations.stencil_mat c N_x N_t (grid1 x_1 x_2 t_f N_x N_t) i j).
      split; [|apply five_point_stencil_mat; auto].
      unfold WaveEquations.pde_eqs. apply in_flat_map. exists i.
      split; [apply in_range; lia|]. apply in_map, in_range. lia.
  - exists (grid2 x_1 x_2 y_1 y_2 t_f N_x N_y N_t), (Wave2DEquations.pde_eqs c N_x N_y N_t (grid2 x_1 x_2 y_1 y_2 t_f N_x N_y N_t)), (Wave2DEquations.pde_col f2 N_x N_y N_t (grid2 x_1 x_2 y_1 y_2 t_f N_x N_y N_t)).
    split; [apply make_grid2_ok; lia|].
    split; [apply Wave2DFacts.pde_loop3_ok; simpl; auto using length_linspace|].
    split; [exact Hinv|]. split.
    + intros mat Hin. unfold Wave2DEquations.pde_eqs in Hin.
      apply in_flat_map in Hin as (i & Hi & Hin).
      apply in_flat_map in Hin as (j & Hj & Hin).
      apply in_map_iff in Hin as (k & <- & Hk).
      apply in_range in Hi, Hj, Hk. exists i, j, k. split; [lia|].
      apply seven_point_stencil_mat; auto; lia.
    + intros i j k (H1 & H2 & H3 & H4 & H5 & H6).
      exists (Wave2DEquations.stencil_mat c N_x N_y N_t (grid2 x_1 x_2 y_1 y_2 t_f N_x N_y N_t) i j k).
      split; [|apply seven_point_stencil_mat; auto].
      unfold Wave2DEquations.pde_eqs. apply in_flat_map. exists i.
      split; [apply in_range; lia|]. apply in_flat_map. exists j.
      split; [apply in_range; lia|]. apply in_map, in_range. lia.
Qed.

(** C5, as the spec states it, fails on the 3 x 3 grid with unit steps:
    the one stencil equation, centred at [(1,1)], has the coefficient 1
    at the first and at the last time index and the coefficient -1 at
    the first and at the last spatial index. *)
Lemma stencil_touches_boundary_3x3 :
  exists g eqs col,
    make_grid 0 3 3 3 3 = Ok g /\
    Wave1D.pde_loop (fun _ _ => 0) 1 3 3 g ([], []) = Ok (eqs, col) /\
    length eqs = 1%nat /\
    entry (nth 0 eqs []) 0 1 = 1 /\ entry (nth 0 eqs []) 2 1 = 1 /\
    entry (nth 0 eqs []) 1 0 = -1 /\ entry (nth 0 eqs []) 1 2 = -1.
Proof.
  assert (E : INR 3 = 3)
    by (rewrite INR_IZR_INZ; reflexivity).
  exists (grid1 0 3 3 3 3),
    (WaveEquations.pde_eqs 1 3 3 (grid1 0 3 3 3 3)),
    (WaveEquations.pde_col (fun _ _ => 0) 3 3 (grid1 0 3 3 3 3)).
  split; [apply make_grid_ok; lia|].
  split.
  { apply WaveFacts.pde_loop_ok; unfold grid1; cbn [dt dx t x];
      rewrite ?length_linspace, ?E; auto; lra. }
  split; [reflexivity|].
  change (nth 0 (WaveEquations.pde_eqs 1 3 3 (grid1 0 3 3 3 3)) [])
    with (WaveEquations.stencil_mat 1 3 3 (grid1 0 3 3 3 3) 1 1).
  rewrite !WaveFacts.entry_stencil_mat by lia.
  unfold grid1. cbn [Nat.eqb Nat.sub Nat.add andb orb dt dx].
  rewrite E. repeat split; field.
Qed.

Lemma stencil_support_and_neighbours_witness :
  exists g eqs col,
    make_grid2 (-3) 3 (-3) 3 40 11 11 50 = Ok g /\
    Wave2D.pde_loop (fun t x y => 0 * x * y * t) (1 / 10) 11 11 50 g ([], [])
    = Ok (eqs, col) /\
    1 / dt2 g ^ 2 <> 0.
Proof.
  destruct (stencil_support_and_neighbours
              (fun t x => 0 * x * t) (fun t x y => 0 * x * y * t) (1 / 10)
              (-3) 3 (-3) 3 40 11 11 50)
    as [_ (g & eqs & col & Hg & Hl & Hne & _)];
    [lia|lia|lia|lra|lra|lra|].
  exists g, eqs, col. repeat split; assumption.
Defined.

(** ** The heat example of the notebook *)


Lemma forward_euler_update_witness :
  exists u,
    HeatScenario.solution = Ok u /\
    entry u 1 0 = HeatScenario.h_1 /\
    entry u 1 (HeatScenario.N_x - 1) = HeatScenario.h_2.
Proof.
  destruct (HeatFacts.forward_euler_update HeatScenario.f HeatScenario.a
              HeatScenario.x_1 HeatScenario.x_2 HeatScenario.t_f
              HeatScenario.h_1 HeatScenario.h_2 HeatScenario.g_0
              HeatScenario.N_x HeatScenario.N_t)
    as (g & u & _ & Hu & H);
    [unfold HeatScenario.N_x; lia | unfold HeatScenario.N_t; lia
     | unfold HeatScenario.x_1, HeatScenario.x_2; lra |].
  exists u. split; [exact Hu|].
  apply (H O). unfold HeatScenario.N_t. lia.
Defined.

Lemma boundary_fill_overrides_corners_witness :
  exists u,
    Heat1D.solve HeatScenario.f HeatScenario.a HeatScenario.x_1 HeatScenario.x_2
                 HeatScenario.t_f HeatScenario.h_1 HeatScenario.h_2
                 HeatScenario.g_0_alt HeatScenario.N_x HeatScenario.N_t = Ok u /\
    entry u 0 0 = HeatScenario.h_1 /\
    entry u 0 (HeatScenario.N_x - 1) = HeatScenario.h_2.
Proof.
  destruct (HeatFacts.boundary_fill_overrides_corners HeatScenario.f HeatScenario.a
              HeatScenario.x_1 HeatScenario.x_2 HeatScenario.t_f
              HeatScenario.h_1 HeatScenario.h_2 HeatScenario.g_0_alt
              HeatScenario.N_x HeatScenario.N_t)
    as (g & u & _ & Hu & H0 & H1 & _);
    [unfold HeatScenario.N_x; lia | unfold HeatScenario.N_t; lia
     | unfold HeatScenario.x_1, HeatScenario.x_2; lra |].
  exists u. repeat split; assumption.
Defined.




(** ** The linear system and its solutions *)

Lemma Forall2_app_iff {A B} (P : A -> B -> Prop) (l1 l2 : list A) (m1 m2 : list B) :
  length l1 = length m1 ->
  Forall2 P (l1 ++ l2) (m1 ++ m2) <-> Forall2 P l1 m1 /\ Forall2 P l2 m2.
Proof.
  revert m1; induction l1 as [|a l1 IH]; intros [|b m1] H; simpl in *;
    try discriminate.
  - split; [intros; split; [constructor|assumption]|tauto].
  - split.
    + intros HF. inversion HF; subst. apply IH in H5 as [H1 H2]; [|lia].
      split; [now constructor|assumption].
    + intros [H1 H2]. inversion H1; subst. constructor; [assumption|].
      apply IH; [lia|tauto].
Qed.

Lemma Forall2_map_map {A B C} (P : B -> C -> Prop) (fn : A -> B) (gn : A -> C)
      (l : list A) :
  Forall2 P (map fn l) (map gn l) <-> (forall a, In a l -> P (fn a) (gn a)).
Proof.
  induction l as [|a l IH]; simpl.
  - split; [intros _ a []|constructor].
  - split.
    + intros HF. inversion HF; subst. intros a' [<-|Hin]; [assumption|].
      now apply IH.
    + intros H. constructor; [apply H; now left|].
      apply IH. intros a' Hin. apply H. now right.
Qed.

Lemma Forall2_flat_map {A B C} (P : B -> C -> Prop) (F : A -> list B)
      (G : A -> list C) (l : list A) :
  (forall a, In a l -> length (F a) = length (G a)) ->
  Forall2 P (flat_map F l) (flat_map G l) <->
  (forall a, In a l -> Forall2 P (F a) (G a)).
Proof.
  induction l as [|a l IH]; intros Hlen; simpl.
  - split; [intros _ a []|constructor].
  - rewrite Forall2_app_iff by (apply Hlen; now left).
    rewrite IH by (intros; apply Hlen; now right).
    split.
    + intros [H1 H2] a' [<-|Hin]; auto.
    + intros H. split; [apply H; now left|].
      intros a' Hin. apply H. now right.
Qed.

Module WaveSystem.
Section Facts.

Variable f : R -> R -> R.
Variable c : R.
Variables x_1 x_2 t_f : R.
Variables h_1 h_2 : R.
Variables g_0 g_1 : R -> R.
Variables N_x N_t : nat.

Local Abbreviation grid := (grid1 x_1 x_2 t_f N_x N_t).
Local Abbreviation xs := (linspace x_1 x_2 N_x).
Local Abbreviation ts := (linspace 0 t_f N_t).
Local Abbreviation satisfies := WaveProblem.satisfies.
Local Abbreviation stencil_eqn := (WaveProblem.stencil_eqn f c x_1 x_2 t_f N_x N_t).
Local Abbreviation discrete_problem := (WaveProblem.discrete_problem f c x_1 x_2 t_f h_1 h_2 g_0 g_1 N_x N_t).
Local Abbreviation march_entry := (WaveProblem.march_entry f c x_1 x_2 t_f N_x N_t).
Local Abbreviation row1 := (WaveProblem.row1 x_1 x_2 h_1 h_2 g_1 N_x).
Local Abbreviation next_row := (WaveProblem.next_row f c x_1 x_2 t_f h_1 h_2 N_x N_t).
Local Abbreviation rows2 := (WaveProblem.rows2 f c x_1 x_2 t_f h_1 h_2 g_0 g_1 N_x N_t).
Local Abbreviation wave_row := (WaveProblem.wave_row f c x_1 x_2 t_f h_1 h_2 g_0 g_1 N_x N_t).
Local Abbreviation wave_field := (WaveProblem.wave_field f c x_1 x_2 t_f h_1 h_2 g_0 g_1 N_x N_t).

Lemma dot2_stencil (U : array2) (i j : nat) :
  shape2 N_t N_x U ->
  (1 <= i)%nat -> (i + 1 < N_t)%nat -> (1 <= j)%nat -> (j + 1 < N_x)%nat ->
  dot2 (WaveEquations.stencil_mat c N_x N_t grid i j) U =
  (-2 / dt grid / dt grid + c * c / dx grid / dx grid * 2) * entry U i j
  + 1 / dt grid / dt grid * (entry U (i - 1) j + entry U (i + 1) j)
  - c * c / dx grid / dx grid * (entry U i (j + 1) + entry U i (j - 1)).
Proof.
  intros HU Hi1 Hi2 Hj1 Hj2. unfold WaveEquations.stencil_mat. cbv zeta.
  repeat (rewrite (dot2_add2 N_t N_x) by (try assumption; try lia; shape2_tac)).
  rewrite dot2_zeros. lra.
Qed.

Lemma dot2_dirichlet (U : array2) (j : nat) :
  shape2 N_t N_x U -> (1 <= N_t)%nat -> (j < N_x)%nat ->
  dot2 (WaveEquations.dirichlet_mat N_x N_t j) U = entry U 0 j.
Proof.
  intros HU Ht Hj. unfold WaveEquations.dirichlet_mat.
  rewrite (dot2_put2 N_t N_x) by (try assumption; try lia; shape2_tac).
  rewrite dot2_zeros, entry_zeros. lra.
Qed.

Lemma dot2_neumann (U : array2) (j : nat) :
  shape2 N_t N_x U -> (2 <= N_t)%nat -> (j < N_x)%nat ->
  dot2 (WaveEquations.neumann_mat N_x N_t j) U = entry U 1 j - entry U 0 j.
Proof.
  intros HU Ht Hj. unfold WaveEquations.neumann_mat.
  rewrite (dot2_put2 N_t N_x) by (try assumption; try lia; shape2_tac).
  rewrite (dot2_put2 N_t N_x) by (try assumption; try lia; shape2_tac).
  rewrite (entry_put2 N_t N_x) by (try lia; shape2_tac).
  rewrite dot2_zeros, !entry_zeros. cbn [Nat.eqb andb]. lra.
Qed.

Lemma dot2_left (U : array2) (i : nat) :
  shape2 N_t N_x U -> (i < N_t)%nat -> (1 <= N_x)%nat ->
  dot2 (WaveEquations.left_mat N_x N_t i) U = entry U i 0.
Proof.
  intros HU Hi Hx. unfold WaveEquations.left_mat.
  rewrite (dot2_put2 N_t N_x) by (try assumption; try lia; shape2_tac).
  rewrite dot2_zeros, entry_zeros. lra.
Qed.

Lemma dot2_right (U : array2) (i : nat) :
  shape2 N_t N_x U -> (i < N_t)%nat -> (1 <= N_x)%nat ->
  dot2 (WaveEquations.right_mat N_x N_t i) U = entry U i (N_x - 1).
Proof.
  intros HU Hi Hx. unfold WaveEquations.right_mat.
  rewrite (dot2_put2 N_t N_x) by (try assumption; try lia; shape2_tac).
  rewrite dot2_zeros, entry_zeros. lra.
Qed.

(** The assembled equations say exactly the discrete problem. *)
Lemma satisfies_iff (U : array2) :
  shape2 N_t N_x U -> (2 <= N_t)%nat -> (2 <= N_x)%nat ->
  satisfies (WaveEquations.pde_eqs c N_x N_t grid ++ WaveEquations.bc_eqs N_x N_t)
            (WaveEquations.pde_col f N_x N_t grid
             ++ WaveEquations.bc_col h_1 h_2 g_0 g_1 N_x N_t grid) U <->
  discrete_problem U.
Proof.
  intros HU Ht Hx. unfold WaveProblem.satisfies, WaveProblem.discrete_problem.
  rewrite Forall2_app_iff
    by now rewrite WaveFacts.length_pde_eqs, WaveFacts.length_pde_col.
  unfold WaveEquations.pde_eqs, WaveEquations.pde_col, WaveEquations.bc_eqs, WaveEquations.bc_col.
  rewrite Forall2_flat_map by (intros; now rewrite !length_map).
  rewrite !Forall2_app_iff by now rewrite !length_map.
  rewrite !Forall2_map_map.
  cbn [x t grid1].
  split.
  - intros (HS & HD & HN & HL & HR). repeat split.
    + intros i j Hi1 Hi2 Hj1 Hj2. unfold WaveProblem.stencil_eqn.
      rewrite <- dot2_stencil by assumption.
      specialize (HS i ltac:(apply in_range; lia)).
      rewrite Forall2_map_map in HS. apply HS, in_range. lia.
    + intros j Hj. rewrite <- dot2_dirichlet by (auto; lia).
      apply HD, in_range. lia.
    + intros j Hj1 Hj2. rewrite <- dot2_neumann by (auto; lia).
      apply HN, in_range. lia.
    + intros i Hi1 Hi2. rewrite <- dot2_left by (auto; lia).
      apply HL, in_range. lia.
    + intros i Hi1 Hi2. rewrite <- dot2_right by (auto; lia).
      apply HR, in_range. lia.
  - intros (HS & HD & HN & HL & HR). repeat split.
    + intros i Hi. apply in_range in Hi. apply Forall2_map_map.
      intros j Hj. apply in_range in Hj.
      rewrite dot2_stencil by (auto; lia). apply HS; lia.
    + intros j Hj. apply in_range in Hj.
      rewrite dot2_dirichlet by (auto; lia). apply HD. lia.
    + intros j Hj. apply in_range in Hj.
      rewrite dot2_neumann by (auto; lia). apply HN; lia.
    + intros i Hi. apply in_range in Hi.
      rewrite dot2_left by (auto; lia). apply HL; lia.
    + intros i Hi. apply in_range in Hi.
      rewrite dot2_right by (auto; lia). apply HR; lia.
Qed.

(** *** The solution by time marching *)

Lemma stencil_eqn_iff (U : array2) (i j : nat) :
  dt grid <> 0 ->
  stencil_eqn U i j <->
  entry U (i + 1) j = march_entry i j (nth (i - 1) U []) (nth i U []).
Proof.
  intros Hdt. unfold WaveProblem.stencil_eqn, WaveProblem.march_entry, entry.
  set (F := f _ _). set (A := -2 / dt grid / dt grid + _).
  set (C := c * c / dx grid / dx grid).
  set (u := nth j (nth i U []) 0). set (up := nth j (nth (i - 1) U []) 0).
  set (un := nth j (nth (i + 1) U []) 0).
  set (s := nth (j + 1) (nth i U []) 0 + nth (j - 1) (nth i U []) 0).
  assert (E : dt grid ^ 2 * (1 / dt grid / dt grid) = 1) by (field; assumption).
  split; intros H.
  - assert (H' : 1 / dt grid / dt grid * un
                 = F - A * u + C * s - 1 / dt grid / dt grid * up) by lra.
    apply (f_equal (Rmult (dt grid ^ 2))) in H'.
    rewrite <- Rmult_assoc, E, Rmult_1_l in H'. rewrite H'.
    replace (dt grid ^ 2 * (F - A * u + C * s - 1 / dt grid / dt grid * up))
      with (dt grid ^ 2 * (F - A * u + C * s)
            - dt grid ^ 2 * (1 / dt grid / dt grid) * up) by ring.
    rewrite E. ring.
  - rewrite H.
    replace (A * u + 1 / dt grid / dt grid
                     * (up + (dt grid ^ 2 * (F - A * u + C * s) - up)) - C * s)
      with (A * u + dt grid ^ 2 * (1 / dt grid / dt grid) * (F - A * u + C * s)
            - C * s)
      by ring.
    rewrite E. ring.
Qed.

Lemma wave_row_0 : wave_row 0 = map g_0 xs.
Proof. reflexivity. Qed.

Lemma wave_row_1 : wave_row 1 = row1 (map g_0 xs).
Proof. reflexivity. Qed.

Lemma wave_row_SS (k : nat) :
  wave_row (S (S k)) = next_row (S k) (wave_row k) (wave_row (S k)).
Proof. reflexivity. Qed.

Lemma length_wave_row (k : nat) : length (wave_row k) = N_x.
Proof.
  destruct k as [|[|k]].
  - rewrite wave_row_0, length_map. apply length_linspace.
  - rewrite wave_row_1. unfold WaveProblem.row1. now rewrite length_map, length_seq.
  - rewrite wave_row_SS. unfold WaveProblem.next_row. now rewrite length_map, length_seq.
Qed.

Lemma shape2_wave_field : shape2 N_t N_x wave_field.
Proof.
  split; unfold WaveProblem.wave_field.
  - now rewrite length_map, length_seq.
  - apply Forall_forall. intros r Hr. apply in_map_iff in Hr as (k & <- & _).
    apply length_wave_row.
Qed.

Lemma nth_wave_field (i : nat) : (i < N_t)%nat -> nth i wave_field [] = wave_row i.
Proof. intros Hi. unfold WaveProblem.wave_field. now rewrite nth_map_seq. Qed.

Lemma wave_field_solves :
  (2 <= N_t)%nat -> (2 <= N_x)%nat -> dt grid <> 0 ->
  discrete_problem wave_field.
Proof.
  intros Ht Hx Hdt. unfold WaveProblem.discrete_problem. repeat split.
  - intros i j Hi1 Hi2 Hj1 Hj2. apply stencil_eqn_iff; [assumption|].
    unfold entry. rewrite !nth_wave_field by lia.
    replace (i + 1)%nat with (S (S (i - 1))) by lia.
    rewrite wave_row_SS. replace (S (i - 1)) with i by lia.
    unfold WaveProblem.next_row. rewrite nth_map_seq by lia. cbn [Nat.add].
    destruct (Nat.eqb_spec j 0); [lia|].
    destruct (Nat.eqb_spec j (N_x - 1)); [lia|]. reflexivity.
  - intros j Hj. unfold entry. rewrite nth_wave_field by lia.
    rewrite wave_row_0. apply nth_map_in. rewrite length_linspace. lia.
  - intros j Hj1 Hj2. unfold entry. rewrite !nth_wave_field by lia.
    rewrite wave_row_1, wave_row_0. unfold WaveProblem.row1.
    rewrite nth_map_seq by lia. cbn [Nat.add].
    destruct (Nat.eqb_spec j 0); [lia|].
    destruct (Nat.eqb_spec j (N_x - 1)); [lia|]. lra.
  - intros i Hi1 Hi2. unfold entry. rewrite nth_wave_field by lia.
    destruct i as [|[|i]]; [lia| |].
    + rewrite wave_row_1. unfold WaveProblem.row1. now rewrite nth_map_seq by lia.
    + rewrite wave_row_SS. unfold WaveProblem.next_row. now rewrite nth_map_seq by lia.
  - intros i Hi1 Hi2. unfold entry. rewrite nth_wave_field by lia.
    destruct i as [|[|i]]; [lia| |].
    + rewrite wave_row_1. unfold WaveProblem.row1. rewrite nth_map_seq by lia.
      cbn [Nat.add]. destruct (Nat.eqb_spec (N_x - 1) 0); [lia|].
      now rewrite Nat.eqb_refl.
    + rewrite wave_row_SS. unfold WaveProblem.next_row. rewrite nth_map_seq by lia.
      cbn [Nat.add]. destruct (Nat.eqb_spec (N_x - 1) 0); [lia|].
      now rewrite Nat.eqb_refl.
Qed.

(** *** Uniqueness *)

Lemma array2_ext (n m : nat) (U V : array2) :
  shape2 n m U -> shape2 n m V ->
  (forall i j, (i < n)%nat -> (j < m)%nat -> entry U i j = entry V i j) ->
  U = V.
Proof.
  intros HU HV H. apply (nth_ext U V [] []).
  - destruct HU, HV. congruence.
  - intros i Hi. rewrite (proj1 HU) in Hi.
    apply (nth_ext _ _ 0 0).
    + now rewrite (shape2_row n m U), (shape2_row n m V).
    + intros j Hj. rewrite (shape2_row n m U) in Hj by assumption.
      now apply H.
Qed.

Lemma discrete_problem_unique (U V : array2) :
  (2 <= N_t)%nat -> (2 <= N_x)%nat -> dt grid <> 0 ->
  shape2 N_t N_x U -> shape2 N_t N_x V ->
  discrete_problem U -> discrete_problem V -> U = V.
Proof.
  intros Ht Hx Hdt HU HV (SU & DU & NU & LU & RU) (SV & DV & NV & LV & RV).
  assert (Hrow : forall i, (i < N_t)%nat ->
            (forall j, (j < N_x)%nat -> entry U i j = entry V i j) /\
            ((i + 1 < N_t)%nat ->
             forall j, (j < N_x)%nat -> entry U (i + 1) j = entry V (i + 1) j)).
  { induction i as [|i IH]; intros Hi.
    - assert (H0 : forall j, (j < N_x)%nat -> entry U 0 j = entry V 0 j)
        by (intros j Hj; now rewrite DU, DV).
      split; [exact H0|]. intros _ j Hj. cbn [Nat.add].
      destruct (Nat.eq_dec j 0) as [->|].
      { now rewrite LU, LV by lia. }
      destruct (Nat.eq_dec j (N_x - 1)) as [->|].
      { now rewrite RU, RV by lia. }
      specialize (NU j ltac:(lia) ltac:(lia)).
      specialize (NV j ltac:(lia) ltac:(lia)).
      specialize (H0 j Hj). lra.
    - destruct (IH ltac:(lia)) as [Hprev Hcur].
      specialize (Hcur ltac:(lia)).
      replace (i + 1)%nat with (S i) in Hcur by lia.
      split; [exact Hcur|]. intros Hi' j Hj.
      destruct (Nat.eq_dec j 0) as [->|].
      { now rewrite LU, LV by lia. }
      destruct (Nat.eq_dec j (N_x - 1)) as [->|].
      { now rewrite RU, RV by lia. }
      specialize (SU (S i) j ltac:(lia) ltac:(lia) ltac:(lia) ltac:(lia)).
      specialize (SV (S i) j ltac:(lia) ltac:(lia) ltac:(lia) ltac:(lia)).
      apply stencil_eqn_iff in SU, SV; try assumption.
      rewrite SU, SV. unfold WaveProblem.march_entry.
      replace (S i - 1)%nat with i by lia.
      fold (entry U (S i) j) (entry V (S i) j) (entry U (S i) (j + 1))
           (entry V (S i) (j + 1)) (entry U (S i) (j - 1)) (entry V (S i) (j - 1))
           (entry U i j) (entry V i j).
      rewrite !Hcur, Hprev by lia. reflexivity. }
  apply (array2_ext N_t N_x); auto.
  intros i j Hi Hj. now apply Hrow.
Qed.

(** *** The matrix system *)

Lemma Forall2_map_l {A B C} (P : B -> C -> Prop) (fn : A -> B) (l : list A)
      (m : list C) :
  Forall2 P (map fn l) m <-> Forall2 (fun a b => P (fn a) b) l m.
Proof.
  revert m; induction l as [|a l IH]; intros [|b m]; simpl;
    split; intros H; inversion H; subst; constructor; auto; now apply IH.
Qed.

Lemma Forall2_length_eq {A B} (P : A -> B -> Prop) (l : list A) (m : list B) :
  Forall2 P l m -> length l = length m.
Proof. induction 1; simpl; congruence. Qed.

Local Abbreviation eqs := (WaveEquations.pde_eqs c N_x N_t grid ++ WaveEquations.bc_eqs N_x N_t).
Local Abbreviation col := (WaveEquations.pde_col f N_x N_t grid
                 ++ WaveEquations.bc_col h_1 h_2 g_0 g_1 N_x N_t grid).

Lemma length_eqs :
  (2 <= N_x)%nat -> (2 <= N_t)%nat -> length eqs = (N_t * N_x)%nat.
Proof.
  intros Hx Ht. unfold WaveEquations.bc_eqs.
  rewrite !length_app, !length_map, !length_range, WaveFacts.length_pde_eqs.
  pose proof (WaveFacts.count_total N_x N_t Hx Ht). lia.
Qed.

Lemma length_col :
  (2 <= N_x)%nat -> (2 <= N_t)%nat -> length col = (N_t * N_x)%nat.
Proof.
  intros Hx Ht. unfold WaveEquations.bc_col.
  rewrite !length_app, !length_map, !length_range, WaveFacts.length_pde_col.
  pose proof (WaveFacts.count_total N_x N_t Hx Ht). lia.
Qed.

Lemma shape2_eqs (mat : array2) :
  (2 <= N_x)%nat -> (2 <= N_t)%nat -> In mat eqs -> shape2 N_t N_x mat.
Proof.
  intros Hx Ht Hin. rewrite in_app_iff in Hin. destruct Hin as [Hin|Hin].
  - unfold WaveEquations.pde_eqs in Hin. apply in_flat_map in Hin as (i & Hi & Hin).
    apply in_map_iff in Hin as (j & <- & Hj). apply in_range in Hi, Hj.
    unfold WaveEquations.stencil_mat. cbv zeta. shape2_tac.
  - unfold WaveEquations.bc_eqs in Hin. rewrite !in_app_iff, !in_map_iff in Hin.
    destruct Hin as [(j & <- & Hj)|[(j & <- & Hj)|[(i & <- & Hi)|(i & <- & Hi)]]];
      apply in_range in Hj || apply in_range in Hi;
      unfold WaveEquations.dirichlet_mat, WaveEquations.neumann_mat, WaveEquations.left_mat,
        WaveEquations.right_mat; shape2_tac.
Qed.

Lemma linear_system_ok :
  (2 <= N_x)%nat -> (2 <= N_t)%nat -> x_1 < x_2 -> 0 < t_f ->
  Wave1D.linear_system f c x_1 x_2 t_f h_1 h_2 g_0 g_1 N_x N_t =
  Ok (map (@concat R) eqs, col).
Proof.
  intros Hx Ht Lx Lt. unfold Wave1D.linear_system.
  rewrite WaveFacts.assemble_ok by assumption. cbn [bind fst snd].
  unfold Wave1D.reshape_eqs. rewrite length_eqs by assumption.
  now rewrite Nat.eqb_refl.
Qed.

(** A flat vector solves the matrix system exactly when its reshape
    solves the discrete problem. *)
Lemma is_solution_iff (u : list R) :
  (2 <= N_x)%nat -> (2 <= N_t)%nat ->
  is_solution (map (@concat R) eqs) col u <->
  length u = (N_t * N_x)%nat /\ discrete_problem (reshape2 N_t N_x u).
Proof.
  intros Hx Ht. unfold is_solution. rewrite length_col by assumption.
  split; intros [Hlen H]; (split; [exact Hlen|]);
    pose proof (shape2_reshape2 N_t N_x u Hlen) as HS.
  - apply (proj1 (satisfies_iff _ HS Ht Hx)).
    unfold WaveProblem.satisfies, dot2. rewrite concat_reshape2 by assumption.
    exact (proj1 (Forall2_map_l (fun row bk => dot row u = bk) _ _ _) H).
  - apply (proj2 (satisfies_iff _ HS Ht Hx)) in H.
    unfold WaveProblem.satisfies, dot2 in H. rewrite concat_reshape2 in H by assumption.
    exact (proj2 (Forall2_map_l (fun row bk => dot row u = bk) _ _ _) H).
Qed.

Lemma solution_exists :
  (2 <= N_x)%nat -> (2 <= N_t)%nat -> dt grid <> 0 ->
  is_solution (map (@concat R) eqs) col (concat wave_field).
Proof.
  intros Hx Ht Hdt. apply is_solution_iff; try assumption.
  split; [apply (length_concat_shape2 N_t N_x), shape2_wave_field|].
  rewrite reshape2_concat by apply shape2_wave_field.
  now apply wave_field_solves.
Qed.

Lemma solution_unique (u : list R) :
  (2 <= N_x)%nat -> (2 <= N_t)%nat -> dt grid <> 0 ->
  is_solution (map (@concat R) eqs) col u -> reshape2 N_t N_x u = wave_field.
Proof.
  intros Hx Ht Hdt H. apply is_solution_iff in H as [Hlen H]; try assumption.
  apply discrete_problem_unique; auto.
  - now apply shape2_reshape2.
  - apply shape2_wave_field.
  - now apply wave_field_solves.
Qed.

End Facts.

(** The matrix does not depend on the data [f], [g_0], [g_1], [h_1],
    [h_2]; with zero data the zero field is the solution, so the kernel
    of the matrix is trivial. *)
Lemma zero_field_solves (c x_1 x_2 t_f : R) (N_x N_t : nat) :
  WaveProblem.discrete_problem (fun _ _ => 0) c x_1 x_2 t_f 0 0 (fun _ => 0) (fun _ => 0)
                   N_x N_t (zeros2 N_t N_x).
Proof.
  unfold WaveProblem.discrete_problem, WaveProblem.stencil_eqn. repeat split; intros;
    rewrite ?entry_zeros; lra.
Qed.

Lemma Forall2_zero_col {A} (P : A -> R) (l : list A) (m : list R) :
  length l = length m -> Forall (fun a => P a = 0) l -> Forall (fun b => b = 0) m ->
  Forall2 (fun a b => P a = b) l m.
Proof.
  revert m; induction l as [|a l IH]; intros [|b m] Hlen Hl Hm; simpl in *;
    try discriminate; constructor; inversion Hl; inversion Hm; subst; auto.
Qed.

Lemma matrix_nonsingular (c x_1 x_2 t_f : R) (N_x N_t : nat) :
  (2 <= N_x)%nat -> (2 <= N_t)%nat -> x_1 < x_2 -> 0 < t_f ->
  nonsingular
    (map (@concat R)
         (WaveEquations.pde_eqs c N_x N_t (grid1 x_1 x_2 t_f N_x N_t)
          ++ WaveEquations.bc_eqs N_x N_t)).
Proof.
  intros Hx Ht Lx Lt u Hlen Hker.
  rewrite length_map in *. rewrite length_eqs in * by assumption.
  assert (Hdt : dt (grid1 x_1 x_2 t_f N_x N_t) <> 0)
    by (apply WaveFacts.wave_dt_neq0; [lia|assumption]).
  assert (Hsol : is_solution
            (map (@concat R)
               (WaveEquations.pde_eqs c N_x N_t (grid1 x_1 x_2 t_f N_x N_t)
                ++ WaveEquations.bc_eqs N_x N_t))
            (WaveEquations.pde_col (fun _ _ => 0) N_x N_t (grid1 x_1 x_2 t_f N_x N_t)
             ++ WaveEquations.bc_col 0 0 (fun _ => 0) (fun _ => 0) N_x N_t
                  (grid1 x_1 x_2 t_f N_x N_t)) u).
  { split; [now rewrite length_col|].
    apply Forall2_zero_col.
    - now rewrite length_map, length_eqs, length_col.
    - exact Hker.
    - apply Forall_forall. intros b Hb.
      unfold WaveEquations.pde_col, WaveEquations.bc_col in Hb.
      repeat (apply in_app_or in Hb; destruct Hb as [Hb|Hb]);
        try (apply in_flat_map in Hb as (i & _ & Hb));
        apply in_map_iff in Hb as (k & <- & _); reflexivity. }
  apply is_solution_iff in Hsol as [_ Hsol]; try assumption.
  assert (E : reshape2 N_t N_x u = zeros2 N_t N_x).
  { apply (discrete_problem_unique (fun _ _ => 0) c x_1 x_2 t_f 0 0
             (fun _ => 0) (fun _ => 0) N_x N_t); auto.
    - now apply shape2_reshape2.
    - apply shape2_zeros.
    - apply zero_field_solves. }
  rewrite <- (concat_reshape2 N_t N_x u) by assumption. rewrite E.
  unfold zeros2. clear. induction N_t as [|n IH]; simpl; [reflexivity|].
  now rewrite IH, repeat_app.
Qed.


(** What the solve cell leaves behind, for every valid problem. *)
Lemma solved_properties (f : R -> R -> R) (c x_1 x_2 t_f h_1 h_2 : R)
      (g_0 g_1 : R -> R) (N_x N_t : nat) :
  (2 <= N_x)%nat -> (2 <= N_t)%nat -> x_1 < x_2 -> 0 < t_f ->
  exists eqs col,
    Wave1D.assemble f c x_1 x_2 t_f h_1 h_2 g_0 g_1 N_x N_t = Ok (eqs, col) /\
    Wave1D.linear_system f c x_1 x_2 t_f h_1 h_2 g_0 g_1 N_x N_t
    = Ok (map (@concat R) eqs, col) /\
    nonsingular (map (@concat R) eqs) /\
    (exists U, Wave1D.solved f c x_1 x_2 t_f h_1 h_2 g_0 g_1 N_x N_t U) /\
    forall U, Wave1D.solved f c x_1 x_2 t_f h_1 h_2 g_0 g_1 N_x N_t U ->
      Forall2 (fun mat b => dot2 mat U = b) eqs col /\
      (forall j, (j < N_x)%nat ->
         entry U 0 j = g_0 (nth j (linspace x_1 x_2 N_x) 0)) /\
      (forall i, (1 <= i)%nat -> (i < N_t)%nat ->
         entry U i 0 = h_1 /\ entry U i (N_x - 1) = h_2) /\
      entry U 0 0 = g_0 x_1 /\ entry U 0 (N_x - 1) = g_0 x_2.
Proof.
  intros Hx Ht Lx Lt.
  assert (Hdt : dt (grid1 x_1 x_2 t_f N_x N_t) <> 0)
    by (apply WaveFacts.wave_dt_neq0; [lia|assumption]).
  pose proof (linear_system_ok f c x_1 x_2 t_f h_1 h_2 g_0 g_1 N_x N_t
                Hx Ht Lx Lt) as Hsys.
  eexists _, _.
  split; [now apply WaveFacts.assemble_ok|].
  split; [exact Hsys|].
  split; [now apply matrix_nonsingular|].
  split.
  { eexists. unfold Wave1D.solved. eexists _, _, _.
    split; [exact Hsys|]. split; [|reflexivity].
    now apply solution_exists. }
  intros U (A & b & u & HA & Hu & ->).
  rewrite Hsys in HA. injection HA as <- <-.
  pose proof (proj1 (is_solution_iff f c x_1 x_2 t_f h_1 h_2 g_0 g_1 N_x N_t
                       u Hx Ht) Hu)
    as [Hlen Hprob].
  pose proof Hprob as (HS & HD & HN & HL & HR).
  split; [|split; [|split; [|split]]].
  - apply (satisfies_iff f c x_1 x_2 t_f h_1 h_2 g_0 g_1); try assumption.
    now apply shape2_reshape2.
  - exact HD.
  - intros i Hi1 Hi2. split; [now apply HL|now apply HR].
  - rewrite HD by lia. now rewrite nth_linspace_first.
  - rewrite HD by lia. now rewrite nth_linspace_last.
Qed.

End WaveSystem.

(** ** The 1-D wave example of the notebook *)


(** * Edge cases, exceptions and further properties of the cells *)

(** ** Exceptions raised inside the loops *)

Lemma for_raise {S I} (i : I) (l : list I) (body : I -> S -> result S) (s : S)
      (e : PyError) :
  body i s = Raise e -> for_ (i :: l) body s = Raise e.
Proof. intros H. simpl. now rewrite H. Qed.

Lemma range_cons (lo hi : nat) :
  (lo < hi)%nat -> range lo hi = lo :: range (S lo) hi.
Proof.
  intros H. unfold range. replace (hi - lo)%nat with (S (hi - S lo)) by lia.
  reflexivity.
Qed.

Lemma range_nil (lo hi : nat) : (hi <= lo)%nat -> range lo hi = [].
Proof.
  intros H. unfold range. now replace (hi - lo)%nat with O by lia.
Qed.

Lemma div2_raises (p : R) : div2 p 0 = Raise ZeroDivisionError.
Proof. unfold div2. now rewrite pydiv_zero. Qed.

Lemma getitem2_ok (n m : nat) (a : array2) (i j : Z) (i' j' : nat) :
  shape2 n m a -> norm_index n i = Ok i' -> norm_index m j = Ok j' ->
  getitem2 a i j = Ok (entry a i' j').
Proof.
  intros Ha Hi Hj. pose proof (norm_index_lt _ _ _ Hi) as Hlt.
  unfold getitem2, getitem1. rewrite (proj1 Ha), Hi. simpl.
  now rewrite (shape2_row _ _ _ _ Ha Hlt), Hj.
Qed.

(** An augmented assignment whose right-hand side raises: the entry is
    read first, so a subscript in range lets the exception of the
    right-hand side through. *)
Lemma iadd2_raises (n m : nat) (a : array2) (i j : Z) (i' j' : nat) (e : PyError) :
  shape2 n m a -> norm_index n i = Ok i' -> norm_index m j = Ok j' ->
  iadd2 a i j (Raise e) = Raise e.
Proof.
  intros Ha Hi Hj. unfold iadd2.
  now rewrite (getitem2_ok n m a i j i' j' Ha Hi Hj).
Qed.

Lemma norm_index_out (n : nat) (k : Z) :
  (Z.of_nat n <= k)%Z -> norm_index n k = Raise IndexError.
Proof.
  intros H. unfold norm_index.
  replace (k <? Z.of_nat n)%Z with false by (symmetry; apply Z.ltb_ge; lia).
  replace (k <? 0)%Z with false by (symmetry; apply Z.ltb_ge; lia).
  now rewrite !andb_false_r.
Qed.

Module WaveEdges.
Section Facts.

Variable f : R -> R -> R.
Variable c : R.
Variables x_1 x_2 t_f : R.
Variables h_1 h_2 : R.
Variables g_0 g_1 : R -> R.
Variables N_x N_t : nat.

Local Abbreviation grid := (grid1 x_1 x_2 t_f N_x N_t).
Local Abbreviation pde_eqs := (WaveEquations.pde_eqs c N_x N_t).
Local Abbreviation pde_col := (WaveEquations.pde_col f N_x N_t).
Local Abbreviation bc_eqs := (WaveEquations.bc_eqs N_x N_t).
Local Abbreviation bc_col := (WaveEquations.bc_col h_1 h_2 g_0 g_1 N_x N_t).
Local Abbreviation assemble := (Wave1D.assemble f c x_1 x_2 t_f h_1 h_2 g_0 g_1 N_x N_t).
Local Abbreviation linear_system :=
  (Wave1D.linear_system f c x_1 x_2 t_f h_1 h_2 g_0 g_1 N_x N_t).

(** The first stencil of the differential-equation loop divides by [dt]
    and then by [dx]. *)
Lemma stencil_raises (g : Grid1) (s : Wave1D.system) :
  (3 <= N_x)%nat -> (3 <= N_t)%nat -> dt g = 0 \/ dx g = 0 ->
  Wave1D.stencil f c N_x N_t g 1 1 s = Raise ZeroDivisionError.
Proof.
  intros Hx Ht Hz. unfold Wave1D.stencil.
  destruct (Req_dec_T (dt g) 0) as [Hdt|Hdt].
  - rewrite Hdt, div2_raises.
    now rewrite (iadd2_raises N_t N_x _ _ _ 1 1)
      by (try apply (norm_index_nat _ 1); try lia; shape2_tac).
  - destruct Hz as [Hz|Hdx]; [contradiction|].
    run_pydiv.
    rewrite (iadd2_ok N_t N_x _ _ _ 1 1)
      by (try apply (norm_index_nat _ 1); try lia; shape2_tac).
    run_pydiv.
    rewrite (iadd2_ok N_t N_x _ _ _ 0 1)
      by (try apply (norm_index_pred _ 1); try apply (norm_index_nat _ 1);
          try lia; shape2_tac).
    run_pydiv.
    rewrite (iadd2_ok N_t N_x _ _ _ 2 1)
      by (try apply (norm_index_succ _ 1); try apply (norm_index_nat _ 1);
          try lia; shape2_tac).
    run_pydiv.
    rewrite Hdx, div2_raises. cbn [bind].
    now rewrite (iadd2_raises N_t N_x _ _ _ 1 1)
      by (try apply (norm_index_nat _ 1); try lia; shape2_tac).
Qed.

Lemma pde_loop_raises (g : Grid1) (s : Wave1D.system) :
  (3 <= N_x)%nat -> (3 <= N_t)%nat -> dt g = 0 \/ dx g = 0 ->
  Wave1D.pde_loop f c N_x N_t g s = Raise ZeroDivisionError.
Proof.
  intros Hx Ht Hz. unfold Wave1D.pde_loop.
  rewrite (range_cons 1 (N_t - 1)) by lia. apply for_raise.
  rewrite (range_cons 1 (N_x - 1)) by lia. apply for_raise.
  now apply stencil_raises.
Qed.

(** The differential-equation loop divides only when it has an interior
    node to visit. *)
Lemma pde_loop_ok_interior (g : Grid1) (s : Wave1D.system) :
  ((3 <= N_x)%nat -> (3 <= N_t)%nat -> dt g <> 0 /\ dx g <> 0) ->
  length (t g) = N_t -> length (x g) = N_x ->
  Wave1D.pde_loop f c N_x N_t g s = Ok (fst s ++ pde_eqs g, snd s ++ pde_col g).
Proof.
  intros Hd Lt Lx. unfold Wave1D.pde_loop, WaveEquations.pde_eqs, WaveEquations.pde_col.
  apply for_appends. intros i s' Hi. apply in_range in Hi.
  rewrite <- !flat_map_singleton.
  apply for_appends. intros j s'' Hj. apply in_range in Hj.
  destruct Hd as [Hdt Hdx]; try lia.
  apply WaveFacts.stencil_ok; auto; lia.
Qed.

(** With one time row the Neumann loop subscripts row 1, which does not
    exist. *)
Lemma neumann_raises (g : Grid1) (s : Wave1D.system) :
  N_t = 1%nat -> Wave1D.ivp_neumann g_1 N_x N_t g 1 s = Raise IndexError.
Proof.
  intros ->. unfold Wave1D.ivp_neumann, setitem2, zeros2.
  rewrite repeat_length. now rewrite norm_index_out by (simpl; lia).
Qed.

(** With one time row and at most two columns only the Dirichlet loop
    has iterations. *)
Lemma bc_loops_ok_one_row (g : Grid1) (s : Wave1D.system) :
  N_t = 1%nat -> (1 <= N_x <= 2)%nat -> length (x g) = N_x ->
  Wave1D.bc_loops h_1 h_2 g_0 g_1 N_x N_t g s = Ok (fst s ++ bc_eqs, snd s ++ bc_col g).
Proof.
  intros Ht Hx Lx. unfold Wave1D.bc_loops, WaveEquations.bc_eqs, WaveEquations.bc_col.
  rewrite WaveFacts.dirichlet_loop_ok by (auto; lia). cbn [bind].
  rewrite (range_nil 1 (N_x - 1)) by lia.
  rewrite (range_nil 1 N_t) by lia.
  cbn [for_ bind map fst snd]. now rewrite !app_nil_r.
Qed.

Lemma assemble_ok_general :
  (1 <= N_x)%nat -> (1 <= N_t)%nat ->
  ((3 <= N_x)%nat -> (2 <= N_t)%nat) ->
  ((3 <= N_x)%nat -> (3 <= N_t)%nat -> t_f <> 0 /\ x_1 <> x_2) ->
  assemble = Ok (pde_eqs grid ++ bc_eqs, pde_col grid ++ bc_col grid).
Proof.
  intros Hx Ht Hrow Hdeg. unfold Wave1D.assemble.
  rewrite make_grid_ok by lia. cbn [bind].
  rewrite pde_loop_ok_interior; try (simpl; apply length_linspace).
  - cbn [bind fst snd app].
    destruct (Nat.eq_dec N_t 1) as [E|E].
    + rewrite bc_loops_ok_one_row; try (simpl; apply length_linspace); auto; lia.
    + rewrite WaveFacts.bc_loops_ok; try (simpl; apply length_linspace); auto; lia.
  - intros H3x H3t. destruct (Hdeg H3x H3t) as [Htf Hxx]. simpl.
    assert (INR N_t <> 0) by (apply not_0_INR; lia).
    assert (INR N_x <> 0) by (apply not_0_INR; lia).
    split.
    + intros E. apply Htf. apply (Rmult_eq_compat_r (INR N_t)) in E.
      unfold Rdiv in E. rewrite Rmult_assoc, Rinv_l, Rmult_1_r, Rmult_0_l in E; auto.
    + intros E. apply Hxx. apply (Rmult_eq_compat_r (INR N_x)) in E.
      unfold Rdiv in E. rewrite Rmult_assoc, Rinv_l, Rmult_1_r, Rmult_0_l in E; auto.
      lra.
Qed.

Lemma length_bc_eqs :
  length bc_eqs = (N_x + (N_x - 2) + 2 * (N_t - 1))%nat.
Proof.
  unfold WaveEquations.bc_eqs. rewrite !length_app, !length_map, !length_range. lia.
Qed.

Lemma length_bc_col (g : Grid1) :
  length (bc_col g) = (N_x + (N_x - 2) + 2 * (N_t - 1))%nat.
Proof.
  unfold WaveEquations.bc_col. rewrite !length_app, !length_map, !length_range. lia.
Qed.

End Facts.
End WaveEdges.


(** X5: with a single column the two space-bound loops pin the same unknown:
    the equations at positions [i] and [N_t - 1 + i] are one and the
    same, the assembly has [2 * N_t - 1] equations for [N_t] unknowns,
    and the reshape refuses them. *)
Theorem wave_single_column_not_square
  (f : R -> R -> R) (c x_1 x_2 t_f h_1 h_2 : R) (g_0 g_1 : R -> R) (N_t : nat) :
  (2 <= N_t)%nat ->
  (exists eqs col,
     Wave1D.assemble f c x_1 x_2 t_f h_1 h_2 g_0 g_1 1 N_t = Ok (eqs, col) /\
     length eqs = (2 * N_t - 1)%nat /\
     (forall i, (1 <= i)%nat -> (i < N_t)%nat ->
        nth i eqs [] = nth (N_t - 1 + i) eqs [])) /\
  Wave1D.linear_system f c x_1 x_2 t_f h_1 h_2 g_0 g_1 1 N_t = Raise ValueError.
Proof.
  intros Ht.
  pose proof (WaveEdges.assemble_ok_general f c x_1 x_2 t_f h_1 h_2 g_0 g_1 1 N_t
                ltac:(lia) ltac:(lia) ltac:(lia) ltac:(lia)) as Hasm.
  assert (Hpde : WaveEquations.pde_eqs c 1 N_t (grid1 x_1 x_2 t_f 1 N_t) = []).
  { pose proof (WaveFacts.length_pde_eqs c 1 N_t (grid1 x_1 x_2 t_f 1 N_t)) as L.
    rewrite Nat.mul_0_r in L. now apply length_zero_iff_nil. }
  split.
  - eexists _, _. split; [exact Hasm|]. rewrite Hpde. cbn [app].
    split; [rewrite WaveEdges.length_bc_eqs; lia|].
    intros i Hi1 Hi2. unfold WaveEquations.bc_eqs.
    rewrite (range_nil 1 (1 - 1)) by lia.
    change (range 0 1) with [0%nat]. cbn [map app].
    destruct i as [|k]; [lia|].
    assert (L : length (map (WaveEquations.left_mat 1 N_t) (range 1 N_t)) = (N_t - 1)%nat)
      by (rewrite length_map, length_range; lia).
    replace (N_t - 1 + S k)%nat with (S (N_t - 1 + k)) by lia.
    cbn [nth]. rewrite app_nth1 by lia.
    rewrite <- L. rewrite app_nth2_plus.
    rewrite (nth_indep _ [] (WaveEquations.left_mat 1 N_t 0))
      by (rewrite length_map, length_range; lia).
    rewrite (nth_indep _ [] (WaveEquations.right_mat 1 N_t 0))
      by (rewrite length_map, length_range; lia).
    now rewrite !map_nth.
  - unfold Wave1D.linear_system. rewrite Hasm. cbn [bind fst].
    unfold Wave1D.reshape_eqs. rewrite Hpde. cbn [app].
    rewrite WaveEdges.length_bc_eqs.
    destruct (Nat.eqb_spec ((1 + (1 - 2) + 2 * (N_t - 1)) * (N_t * 1))
                           (N_t * 1 * (N_t * 1))) as [E|E]; [|reflexivity].
    exfalso. nia.
Qed.

(** ** Outcomes, steady states and linearity of the heat solver *)

Lemma for_fixed {S I} (l : list I) (body : I -> S -> result S) (s : S) :
  (forall i, In i l -> body i s = Ok s) -> for_ l body s = Ok s.
Proof.
  induction l as [|i l IH]; intros H; simpl; [reflexivity|].
  rewrite H by now left. simpl. apply IH. intros j Hj. apply H. now right.
Qed.

Lemma upd_nth_same {A} (k : nat) (l : list A) (d : A) :
  (k < length l)%nat -> upd k (nth k l d) l = l.
Proof.
  revert k; induction l as [|a l IH]; intros [|k] H; simpl in *; try lia; auto.
  f_equal. apply IH. lia.
Qed.

Lemma step_neq0_iff (p : R) (n : nat) : (1 <= n)%nat -> p / INR n = 0 <-> p = 0.
Proof.
  intros Hn. assert (INR n <> 0) by (apply not_0_INR; lia).
  split; intros E.
  - apply (Rmult_eq_compat_r (INR n)) in E.
    unfold Rdiv in E. rewrite Rmult_assoc, Rinv_l, Rmult_1_r, Rmult_0_l in E; auto.
  - subst. unfold Rdiv. ring.
Qed.

Module HeatEdges.
Section Facts.

Variable f : R -> R -> R.
Variable a : R.
Variables x_1 x_2 t_f : R.
Variables h_1 h_2 : R.
Variable g_0 : R -> R.
Variables N_x N_t : nat.

Local Abbreviation grid := (grid1 x_1 x_2 t_f N_x N_t).
Local Abbreviation edged := (HeatRows.edged h_1 h_2 N_x).
Local Abbreviation field0 := (HeatRows.field0 h_1 h_2 g_0 N_x N_t).
Local Abbreviation field := (HeatRows.field f a x_1 x_2 t_f h_1 h_2 g_0 N_x N_t).
Local Abbreviation row := (HeatRows.row f a x_1 x_2 t_f h_1 h_2 g_0 N_x N_t).
Local Abbreviation solve := (Heat1D.solve f a x_1 x_2 t_f h_1 h_2 g_0 N_x N_t).

Lemma dx_neq0 : (1 <= N_x)%nat -> x_1 <> x_2 -> dx grid <> 0.
Proof.
  intros Hx Hne E. cbn [dx grid1] in E. apply step_neq0_iff in E; [lra|assumption].
Qed.

Lemma shape2_field0 (g : Grid1) :
  (1 <= N_t)%nat -> length (x g) = N_x -> shape2 N_t N_x (field0 g).
Proof.
  intros Ht Lx. unfold HeatRows.field0. split.
  - cbn [length]. rewrite repeat_length. lia.
  - constructor.
    + now rewrite HeatFacts.length_edged, length_map.
    + apply Forall_forall. intros r Hr. apply repeat_spec in Hr. subst.
      now rewrite HeatFacts.length_edged, repeat_length.
Qed.

(** The loop on a grid of at least two columns, whatever the sign of
    [dx] is. *)
Lemma solve_ok_columns :
  (2 <= N_x)%nat -> (1 <= N_t)%nat -> x_1 <> x_2 -> solve = Ok field.
Proof.
  intros Hx Ht Hne. unfold Heat1D.solve.
  rewrite make_grid_ok by lia. cbn [bind].
  rewrite HeatFacts.init_field_ok by (simpl; rewrite ?length_linspace; lia).
  cbn [bind]. unfold HeatRows.field0, range. rewrite Nat.sub_0_r.
  replace (N_t - 1)%nat with (length (repeat (edged (repeat 0 N_x)) (N_t - 1))) at 1
    by apply repeat_length.
  apply (HeatFacts.loop_ok f a grid _ O []).
  - reflexivity.
  - rewrite HeatFacts.length_edged, length_map. simpl. now rewrite length_linspace.
  - rewrite HeatFacts.length_edged, length_map. reflexivity.
  - apply Forall_forall. intros r Hr. apply repeat_spec in Hr. subst.
    rewrite !HeatFacts.length_edged, length_map, repeat_length. simpl.
    now rewrite length_linspace.
  - rewrite repeat_length. simpl. rewrite length_linspace. lia.
  - apply dx_neq0; [lia|assumption].
Qed.

Lemma shape2_field : (2 <= N_x)%nat -> (1 <= N_t)%nat -> shape2 N_t N_x field.
Proof.
  intros Hx Ht. split.
  - unfold HeatRows.field. rewrite HeatFacts.length_march, repeat_length. lia.
  - apply Forall_forall. intros r Hr.
    apply (In_nth _ _ []) in Hr as (i & Hi & <-).
    unfold HeatRows.field in Hi.
    rewrite HeatFacts.length_march, repeat_length in Hi.
    apply (HeatFacts.length_row f a x_1 x_2 t_f h_1 h_2 g_0 N_x N_t i); lia.
Qed.

(** With a single column every slice of the loop body is empty and the
    iteration writes nothing. *)
Lemma step_one_column (g : Grid1) (i : nat) (u : array2) :
  Forall (fun r => length r = 1%nat) u -> length (x g) = 1%nat ->
  (i + 1 < length u)%nat -> (i < length (t g))%nat -> dx g <> 0 ->
  Heat1D.step f a g i u = Ok u.
Proof.
  intros Hu Lx Hi Lt Hdx. unfold Heat1D.step.
  rewrite norm_index_nat by lia. cbn [bind].
  rewrite div2_ok by assumption. cbn [bind].
  unfold getitem1. rewrite norm_index_nat by assumption. cbn [bind].
  rewrite norm_index_succ by assumption. cbn [bind].
  assert (Hi0 : length (nth i u []) = 1%nat)
    by (apply (proj1 (Forall_forall _ u) Hu), nth_In; lia).
  assert (Hi1 : length (nth (i + 1) u []) = 1%nat)
    by (apply (proj1 (Forall_forall _ u) Hu), nth_In; lia).
  destruct (nth i u []) as [|ui [|? ?]]; try discriminate.
  destruct (nth (i + 1) u []) as [|un [|? ?]] eqn:En; try discriminate.
  destruct (x g) as [|xg [|? ?]]; try discriminate.
  cbn. change (Pos.to_nat 1) with 1%nat. cbn [firstn skipn Nat.add app].
  rewrite <- En, upd_nth_same by assumption. reflexivity.
Qed.

Lemma solve_ok_one_column :
  N_x = 1%nat -> (1 <= N_t)%nat -> x_1 <> x_2 -> solve = Ok (field0 grid).
Proof.
  intros Hx Ht Hne. unfold Heat1D.solve.
  rewrite make_grid_ok by lia. cbn [bind].
  rewrite HeatFacts.init_field_ok by (simpl; rewrite ?length_linspace; lia).
  cbn [bind].
  pose proof (shape2_field0 grid Ht (length_linspace _ _ _)) as [L HF].
  apply for_fixed. intros i Hi. apply in_range in Hi.
  apply step_one_column.
  - now rewrite <- Hx.
  - simpl. now rewrite length_linspace.
  - rewrite L. lia.
  - simpl. rewrite length_linspace. lia.
  - apply dx_neq0; [lia|assumption].
Qed.

Lemma solve_ok_one_row :
  N_t = 1%nat -> (1 <= N_x)%nat -> solve = Ok (field0 grid).
Proof.
  intros Ht Hx. unfold Heat1D.solve.
  rewrite make_grid_ok by lia. cbn [bind].
  rewrite HeatFacts.init_field_ok by (simpl; rewrite ?length_linspace; lia).
  cbn [bind]. now rewrite range_nil by lia.
Qed.

(** The first iteration divides by [dx]. *)
Lemma solve_raises :
  (1 <= N_x)%nat -> (2 <= N_t)%nat -> x_1 = x_2 -> solve = Raise ZeroDivisionError.
Proof.
  intros Hx Ht E. unfold Heat1D.solve.
  rewrite make_grid_ok by lia. cbn [bind].
  rewrite HeatFacts.init_field_ok by (simpl; rewrite ?length_linspace; lia).
  cbn [bind]. rewrite (range_cons 0 (N_t - 1)) by lia.
  apply for_raise. unfold Heat1D.step.
  pose proof (shape2_field0 grid ltac:(lia) (length_linspace _ _ _)) as [L _].
  unfold grid1 in L. rewrite L, (norm_index_nat N_t 0) by lia. cbn [bind dx grid1].
  replace ((x_2 - x_1) / INR N_x) with 0 by (subst; unfold Rdiv; ring).
  now rewrite div2_raises.
Qed.

End Facts.
End HeatEdges.


(** X2: a steady state stays: with no source, an affine initial profile and
    boundary values that agree with it, every row of the returned field
    is the initial profile. *)
Theorem heat_affine_profile_is_stationary
  (f : R -> R -> R) (a x_1 x_2 t_f h_1 h_2 : R) (g_0 : R -> R) (N_x N_t : nat)
  (p q : R) :
  (2 <= N_x)%nat -> (1 <= N_t)%nat -> x_1 < x_2 ->
  (forall s y, f s y = 0) -> (forall y, g_0 y = p + q * y) ->
  h_1 = g_0 x_1 -> h_2 = g_0 x_2 ->
  exists u,
    Heat1D.solve f a x_1 x_2 t_f h_1 h_2 g_0 N_x N_t = Ok u /\
    forall i j, (i < N_t)%nat -> (j < N_x)%nat ->
      entry u i j = g_0 (nth j (linspace x_1 x_2 N_x) 0).
Proof.
  intros Hx Ht Lx Hf Hg H1 H2. eexists.
  split; [now apply HeatFacts.solve_ok|].
  set (row := HeatRows.row f a x_1 x_2 t_f h_1 h_2 g_0 N_x N_t).
  set (xs := linspace x_1 x_2 N_x).
  change (forall i j, (i < N_t)%nat -> (j < N_x)%nat ->
            nth j (row i) 0 = g_0 (nth j xs 0)).
  assert (X0 : nth 0 xs 0 = x_1) by now apply nth_linspace_first.
  assert (X1 : nth (N_x - 1) xs 0 = x_2) by now apply nth_linspace_last.
  assert (Edge : forall i j, (i < N_t)%nat -> (j = 0 \/ j = N_x - 1)%nat ->
            nth j (row i) 0 = g_0 (nth j xs 0)).
  { intros i j Hi [-> | ->].
    - unfold row. rewrite HeatFacts.row_first by lia. now rewrite X0.
    - unfold row. rewrite HeatFacts.row_last by lia. now rewrite X1. }
  induction i as [|i IH]; intros j Hi Hj.
  - destruct (Nat.eq_dec j 0) as [E|E]; [apply Edge; auto|].
    destruct (Nat.eq_dec j (N_x - 1)) as [E'|E']; [apply Edge; auto|].
    unfold row. rewrite HeatFacts.row_0, HeatFacts.nth_edged_inner by lia.
    apply nth_map_in. unfold xs. rewrite length_linspace. lia.
  - destruct (Nat.eq_dec j 0) as [E|E]; [apply Edge; auto|].
    destruct (Nat.eq_dec j (N_x - 1)) as [E'|E']; [apply Edge; auto|].
    replace (S i) with (i + 1)%nat by lia.
    unfold row. rewrite HeatFacts.row_inner by lia. fold row.
    rewrite !IH by lia. rewrite Hf, !Hg. cbn [x grid1]. fold xs.
    unfold xs. rewrite !nth_linspace by lia.
    rewrite (plus_INR j 1), (minus_INR j 1) by lia. simpl INR. ring.
Qed.

(** X3: the solver is additive in its data: on one grid and with one
    diffusivity, the field of the sum of two sources, two initial
    profiles and two pairs of boundary values is the sum of the two
    fields. *)
Theorem heat_superposition
  (f f' : R -> R -> R) (a x_1 x_2 t_f h_1 h_2 h_1' h_2' : R) (g_0 g_0' : R -> R)
  (N_x N_t : nat) :
  (2 <= N_x)%nat -> (1 <= N_t)%nat -> x_1 < x_2 ->
  exists u v w,
    Heat1D.solve f a x_1 x_2 t_f h_1 h_2 g_0 N_x N_t = Ok u /\
    Heat1D.solve f' a x_1 x_2 t_f h_1' h_2' g_0' N_x N_t = Ok v /\
    Heat1D.solve (fun s y => f s y + f' s y) a x_1 x_2 t_f
                 (h_1 + h_1') (h_2 + h_2') (fun y => g_0 y + g_0' y) N_x N_t = Ok w /\
    forall i j, (i < N_t)%nat -> (j < N_x)%nat ->
      entry w i j = entry u i j + entry v i j.
Proof.
  intros Hx Ht Lx. eexists _, _, _.
  split; [now apply HeatFacts.solve_ok|].
  split; [now apply HeatFacts.solve_ok|].
  split; [now apply HeatFacts.solve_ok|].
  unfold entry.
  set (ru := HeatRows.row f a x_1 x_2 t_f h_1 h_2 g_0 N_x N_t).
  set (rv := HeatRows.row f' a x_1 x_2 t_f h_1' h_2' g_0' N_x N_t).
  set (rw := HeatRows.row (fun s y => f s y + f' s y) a x_1 x_2 t_f
                          (h_1 + h_1') (h_2 + h_2') (fun y => g_0 y + g_0' y) N_x N_t).
  change (forall i j, (i < N_t)%nat -> (j < N_x)%nat ->
            nth j (rw i) 0 = nth j (ru i) 0 + nth j (rv i) 0).
  assert (Edge : forall i j, (i < N_t)%nat -> (j = 0 \/ j = N_x - 1)%nat ->
            nth j (rw i) 0 = nth j (ru i) 0 + nth j (rv i) 0).
  { intros i j Hi [-> | ->]; unfold rw, ru, rv.
    - now rewrite !HeatFacts.row_first by lia.
    - now rewrite !HeatFacts.row_last by lia. }
  induction i as [|i IH]; intros j Hi Hj.
  - destruct (Nat.eq_dec j 0) as [E|E]; [apply Edge; auto|].
    destruct (Nat.eq_dec j (N_x - 1)) as [E'|E']; [apply Edge; auto|].
    unfold rw, ru, rv. rewrite !HeatFacts.row_0, !HeatFacts.nth_edged_inner by lia.
    rewrite !(nth_map_in _ _ _ 0) by (simpl; rewrite length_linspace; lia).
    reflexivity.
  - destruct (Nat.eq_dec j 0) as [E|E]; [apply Edge; auto|].
    destruct (Nat.eq_dec j (N_x - 1)) as [E'|E']; [apply Edge; auto|].
    replace (S i) with (i + 1)%nat by lia.
    unfold rw, ru, rv. rewrite !HeatFacts.row_inner by lia. fold rw ru rv.
    rewrite !IH by lia. ring.
Qed.

(** ** The direct solve of the 1-D wave system on every grid *)

Module WaveSolve.
Section Facts.

Variable f : R -> R -> R.
Variable c : R.
Variables x_1 x_2 t_f : R.
Variables h_1 h_2 : R.
Variables g_0 g_1 : R -> R.
Variables N_x N_t : nat.

Local Abbreviation grid := (grid1 x_1 x_2 t_f N_x N_t).
Local Abbreviation solved := (Wave1D.solved f c x_1 x_2 t_f h_1 h_2 g_0 g_1 N_x N_t).
Local Abbreviation discrete_problem :=
  (WaveProblem.discrete_problem f c x_1 x_2 t_f h_1 h_2 g_0 g_1 N_x N_t).
Local Abbreviation wave_field :=
  (WaveProblem.wave_field f c x_1 x_2 t_f h_1 h_2 g_0 g_1 N_x N_t).

Lemma grid_dt_neq0 : (2 <= N_t)%nat -> 0 < t_f -> dt grid <> 0.
Proof. intros Ht Lt. apply WaveFacts.wave_dt_neq0; [lia|assumption]. Qed.

Lemma grid_dx_neq0 : (2 <= N_x)%nat -> x_1 < x_2 -> dx grid <> 0.
Proof. intros Hx Lx. apply WaveFacts.wave_dx_neq0; [lia|assumption]. Qed.

(** What the solve cell leaves in [u] is the field found by time
    marching, and nothing else. *)
Lemma solved_iff (U : array2) :
  (2 <= N_x)%nat -> (2 <= N_t)%nat -> x_1 < x_2 -> 0 < t_f ->
  solved U <-> U = wave_field.
Proof.
  intros Hx Ht Lx Lt.
  pose proof (WaveSystem.linear_system_ok f c x_1 x_2 t_f h_1 h_2 g_0 g_1 N_x N_t
                Hx Ht Lx Lt) as Hsys.
  split.
  - intros (A & b & u & HA & Hu & ->).
    rewrite Hsys in HA. injection HA as <- <-.
    apply (WaveSystem.solution_unique f c x_1 x_2 t_f h_1 h_2 g_0 g_1); auto.
    now apply grid_dt_neq0.
  - intros ->. eexists _, _, (concat wave_field).
    split; [exact Hsys|]. split.
    + apply WaveSystem.solution_exists; auto. now apply grid_dt_neq0.
    + symmetry. apply reshape2_concat, WaveSystem.shape2_wave_field.
Qed.

Lemma solved_shape (U : array2) :
  (2 <= N_x)%nat -> (2 <= N_t)%nat -> x_1 < x_2 -> 0 < t_f ->
  solved U -> shape2 N_t N_x U.
Proof.
  intros Hx Ht Lx Lt H. apply solved_iff in H; try assumption. subst.
  apply WaveSystem.shape2_wave_field.
Qed.

Lemma solved_problem (U : array2) :
  (2 <= N_x)%nat -> (2 <= N_t)%nat -> x_1 < x_2 -> 0 < t_f ->
  solved U -> discrete_problem U.
Proof.
  intros Hx Ht Lx Lt H. apply solved_iff in H; try assumption. subst.
  apply WaveSystem.wave_field_solves; auto. now apply grid_dt_neq0.
Qed.

End Facts.
End WaveSolve.

(** X6: on every valid grid the system handed to the solver is square,
    of size [N_t * N_x], and its matrix is nonsingular whatever the wave
    speed is; exactly one vector solves it, so the solve cell leaves
    exactly one field. *)
Theorem wave_system_uniquely_solvable
  (f : R -> R -> R) (c x_1 x_2 t_f h_1 h_2 : R) (g_0 g_1 : R -> R) (N_x N_t : nat) :
  (2 <= N_x)%nat -> (2 <= N_t)%nat -> x_1 < x_2 -> 0 < t_f ->
  exists A b,
    Wave1D.linear_system f c x_1 x_2 t_f h_1 h_2 g_0 g_1 N_x N_t = Ok (A, b) /\
    length A = (N_t * N_x)%nat /\
    Forall (fun row => length row = (N_t * N_x)%nat) A /\
    length b = (N_t * N_x)%nat /\
    nonsingular A /\
    (exists u, is_solution A b u /\ forall v, is_solution A b v -> v = u) /\
    (exists U, Wave1D.solved f c x_1 x_2 t_f h_1 h_2 g_0 g_1 N_x N_t U /\
       forall V, Wave1D.solved f c x_1 x_2 t_f h_1 h_2 g_0 g_1 N_x N_t V -> V = U).
Proof.
  intros Hx Ht Lx Lt.
  pose proof (WaveSolve.grid_dt_neq0 x_1 x_2 t_f N_x N_t Ht Lt) as Hdt.
  eexists _, _.
  split; [now apply WaveSystem.linear_system_ok|].
  split; [rewrite length_map; now apply WaveSystem.length_eqs|].
  split.
  { apply Forall_forall. intros row Hrow.
    apply in_map_iff in Hrow as (mat & <- & Hmat).
    apply length_concat_shape2. revert Hmat. now apply WaveSystem.shape2_eqs. }
  split; [now apply WaveSystem.length_col|].
  split; [now apply WaveSystem.matrix_nonsingular|].
  split.
  - exists (concat (WaveProblem.wave_field f c x_1 x_2 t_f h_1 h_2 g_0 g_1 N_x N_t)).
    split; [now apply WaveSystem.solution_exists|].
    intros v Hv.
    pose proof (WaveSystem.solution_unique f c x_1 x_2 t_f h_1 h_2 g_0 g_1 N_x N_t
                  v Hx Ht Hdt Hv) as E.
    rewrite <- E. symmetry. apply concat_reshape2.
    destruct Hv as [Hlen _]. rewrite Hlen. now apply WaveSystem.length_col.
  - eexists. split; [now apply WaveSolve.solved_iff|].
    intros V HV. now apply WaveSolve.solved_iff in HV.
Qed.

(** X7: the direct solve computes the explicit leapfrog recurrence: row
    1 is row 0 plus the samples of [g_1], and each later row follows
    from the two rows before it. *)
Theorem wave_solve_is_leapfrog
  (f : R -> R -> R) (c x_1 x_2 t_f h_1 h_2 : R) (g_0 g_1 : R -> R) (N_x N_t : nat) :
  (2 <= N_x)%nat -> (2 <= N_t)%nat -> x_1 < x_2 -> 0 < t_f ->
  exists g,
    make_grid x_1 x_2 t_f N_x N_t = Ok g /\
    forall U, Wave1D.solved f c x_1 x_2 t_f h_1 h_2 g_0 g_1 N_x N_t U ->
      (forall j, (1 <= j)%nat -> (j + 1 < N_x)%nat ->
         entry U 1 j = entry U 0 j + g_1 (nth j (x g) 0)) /\
      (forall i j, (1 <= i)%nat -> (i + 1 < N_t)%nat ->
                   (1 <= j)%nat -> (j + 1 < N_x)%nat ->
         entry U (i + 1) j =
         2 * entry U i j - entry U (i - 1) j
         + (c * dt g / dx g) ^ 2
           * (entry U i (j + 1) + entry U i (j - 1) - 2 * entry U i j)
         + dt g ^ 2 * f (nth i (t g) 0) (nth j (x g) 0)).
Proof.
  intros Hx Ht Lx Lt. exists (grid1 x_1 x_2 t_f N_x N_t).
  split; [apply make_grid_ok; lia|].
  intros U HU.
  pose proof (WaveSolve.grid_dt_neq0 x_1 x_2 t_f N_x N_t Ht Lt) as Hdt.
  pose proof (WaveSolve.grid_dx_neq0 x_1 x_2 t_f N_x N_t Hx Lx) as Hdx.
  destruct (WaveSolve.solved_problem f c x_1 x_2 t_f h_1 h_2 g_0 g_1 N_x N_t
              U Hx Ht Lx Lt HU) as (HS & _ & HN & _ & _).
  split.
  - intros j H1 H2. specialize (HN j H1 H2). cbn [x grid1]. lra.
  - intros i j Hi1 Hi2 Hj1 Hj2. specialize (HS i j Hi1 Hi2 Hj1 Hj2).
    unfold WaveProblem.stencil_eqn in HS.
    set (g := grid1 x_1 x_2 t_f N_x N_t) in *.
    change (linspace 0 t_f N_t) with (t g) in HS.
    change (linspace x_1 x_2 N_x) with (x g) in HS.
    rewrite <- HS. field. split; assumption.
Qed.

(** X8: every field the solve leaves behind has the shape of the grid,
    the samples of [g_0] in the whole of row 0, both corners included,
    and the boundary values in the first and last column from row 1
    on. *)
Theorem wave_solve_boundary_data
  (f : R -> R -> R) (c x_1 x_2 t_f h_1 h_2 : R) (g_0 g_1 : R -> R) (N_x N_t : nat) :
  (2 <= N_x)%nat -> (2 <= N_t)%nat -> x_1 < x_2 -> 0 < t_f ->
  forall U, Wave1D.solved f c x_1 x_2 t_f h_1 h_2 g_0 g_1 N_x N_t U ->
    shape2 N_t N_x U /\
    (forall j, (j < N_x)%nat -> entry U 0 j = g_0 (nth j (linspace x_1 x_2 N_x) 0)) /\
    entry U 0 0 = g_0 x_1 /\ entry U 0 (N_x - 1) = g_0 x_2 /\
    (forall i, (1 <= i)%nat -> (i < N_t)%nat ->
       entry U i 0 = h_1 /\ entry U i (N_x - 1) = h_2).
Proof.
  intros Hx Ht Lx Lt U HU.
  split; [now apply (WaveSolve.solved_shape f c x_1 x_2 t_f h_1 h_2 g_0 g_1)|].
  destruct (WaveSolve.solved_problem f c x_1 x_2 t_f h_1 h_2 g_0 g_1 N_x N_t
              U Hx Ht Lx Lt HU) as (_ & HD & _ & HL & HR).
  split; [exact HD|].
  split; [rewrite HD by lia; now rewrite nth_linspace_first|].
  split; [rewrite HD by lia; now rewrite nth_linspace_last|].
  intros i H1 H2. split; [now apply HL|now apply HR].
Qed.

(** ** Linearity and steady states of the 1-D wave solve *)

Lemma shape2_add_fields (n m : nat) (U V : array2) :
  shape2 n m U -> shape2 n m V -> shape2 n m (add_fields U V).
Proof.
  revert U V; induction n as [|n IH]; intros U V [LU FU] [LV FV].
  - destruct U; [|discriminate]. split; [reflexivity|constructor].
  - destruct U as [|r U]; [discriminate|]. destruct V as [|w V]; [discriminate|].
    inversion FU; subst. inversion FV; subst.
    apply shape2_cons. split.
    + unfold vadd. rewrite length_map2. lia.
    + apply IH; split; auto; simpl in *; lia.
Qed.

Lemma entry_add_fields (n m : nat) (U V : array2) (i j : nat) :
  shape2 n m U -> shape2 n m V -> (i < n)%nat -> (j < m)%nat ->
  entry (add_fields U V) i j = entry U i j + entry V i j.
Proof.
  intros HU HV Hi Hj. unfold entry, add_fields.
  rewrite (nth_map2 _ _ _ _ [] []) by (rewrite ?(proj1 HU), ?(proj1 HV); lia).
  unfold vadd. rewrite (nth_map2 _ _ _ _ 0 0); [reflexivity| |].
  - now rewrite (shape2_row n m U i HU Hi).
  - now rewrite (shape2_row n m V i HV Hi).
Qed.

(** X9: the solve is additive in its data: on one grid and with one wave
    speed, the field solved for the sum of two sources, two pairs of
    initial data and two pairs of boundary values is the sum of the two
    fields. *)
Theorem wave_superposition
  (f f' : R -> R -> R) (c x_1 x_2 t_f h_1 h_2 h_1' h_2' : R)
  (g_0 g_1 g_0' g_1' : R -> R) (N_x N_t : nat) :
  (2 <= N_x)%nat -> (2 <= N_t)%nat -> x_1 < x_2 -> 0 < t_f ->
  forall U V W,
    Wave1D.solved f c x_1 x_2 t_f h_1 h_2 g_0 g_1 N_x N_t U ->
    Wave1D.solved f' c x_1 x_2 t_f h_1' h_2' g_0' g_1' N_x N_t V ->
    Wave1D.solved (fun s y => f s y + f' s y) c x_1 x_2 t_f (h_1 + h_1') (h_2 + h_2')
                  (fun y => g_0 y + g_0' y) (fun y => g_1 y + g_1' y) N_x N_t W ->
    forall i j, (i < N_t)%nat -> (j < N_x)%nat ->
      entry W i j = entry U i j + entry V i j.
Proof.
  intros Hx Ht Lx Lt U V W HU HV HW i j Hi Hj.
  pose proof (WaveSolve.grid_dt_neq0 x_1 x_2 t_f N_x N_t Ht Lt) as Hdt.
  pose proof (WaveSolve.solved_shape _ _ _ _ _ _ _ _ _ _ _ _ Hx Ht Lx Lt HU) as SU.
  pose proof (WaveSolve.solved_shape _ _ _ _ _ _ _ _ _ _ _ _ Hx Ht Lx Lt HV) as SV.
  pose proof (WaveSolve.solved_shape _ _ _ _ _ _ _ _ _ _ _ _ Hx Ht Lx Lt HW) as SW.
  destruct (WaveSolve.solved_problem _ _ _ _ _ _ _ _ _ _ _ _ Hx Ht Lx Lt HU)
    as (PU & DU & NU & LU & RU).
  destruct (WaveSolve.solved_problem _ _ _ _ _ _ _ _ _ _ _ _ Hx Ht Lx Lt HV)
    as (PV & DV & NV & LV & RV).
  pose proof (WaveSolve.solved_problem _ _ _ _ _ _ _ _ _ _ _ _ Hx Ht Lx Lt HW) as PW.
  assert (E : forall i j, (i < N_t)%nat -> (j < N_x)%nat ->
            entry (add_fields U V) i j = entry U i j + entry V i j)
    by (intros; now apply (entry_add_fields N_t N_x)).
  rewrite <- E by assumption. f_equal.
  apply (WaveSystem.discrete_problem_unique
           (fun s y => f s y + f' s y) c x_1 x_2 t_f (h_1 + h_1') (h_2 + h_2')
           (fun y => g_0 y + g_0' y) (fun y => g_1 y + g_1' y) N_x N_t);
    auto using shape2_add_fields.
  unfold WaveProblem.discrete_problem. repeat split.
  - intros i0 j0 H1 H2 H3 H4.
    specialize (PU i0 j0 H1 H2 H3 H4). specialize (PV i0 j0 H1 H2 H3 H4).
    unfold WaveProblem.stencil_eqn in *.
    rewrite !E by lia. lra.
  - intros j0 H. rewrite E, DU, DV by lia. reflexivity.
  - intros j0 H1 H2. rewrite !E by lia.
    specialize (NU j0 H1 H2). specialize (NV j0 H1 H2). lra.
  - intros i0 H1 H2. rewrite E, LU, LV by lia. reflexivity.
  - intros i0 H1 H2. rewrite E, RU, RV by lia. reflexivity.
Qed.

(** X10: a steady state stays: with no source, no initial velocity, an affine
    initial profile and boundary values that agree with it, every row of
    the solved field is the initial profile. *)
Theorem wave_affine_profile_is_stationary
  (f : R -> R -> R) (c x_1 x_2 t_f h_1 h_2 : R) (g_0 g_1 : R -> R) (N_x N_t : nat)
  (p q : R) :
  (2 <= N_x)%nat -> (2 <= N_t)%nat -> x_1 < x_2 -> 0 < t_f ->
  (forall s y, f s y = 0) -> (forall y, g_1 y = 0) -> (forall y, g_0 y = p + q * y) ->
  h_1 = g_0 x_1 -> h_2 = g_0 x_2 ->
  forall U, Wave1D.solved f c x_1 x_2 t_f h_1 h_2 g_0 g_1 N_x N_t U ->
    forall i j, (i < N_t)%nat -> (j < N_x)%nat ->
      entry U i j = g_0 (nth j (linspace x_1 x_2 N_x) 0).
Proof.
  intros Hx Ht Lx Lt Hf Hg1 Hg0 H1 H2 U HU i j Hi Hj.
  pose proof (WaveSolve.grid_dt_neq0 x_1 x_2 t_f N_x N_t Ht Lt) as Hdt.
  pose proof (WaveSolve.solved_shape _ _ _ _ _ _ _ _ _ _ _ _ Hx Ht Lx Lt HU) as SU.
  pose proof (WaveSolve.solved_problem _ _ _ _ _ _ _ _ _ _ _ _ Hx Ht Lx Lt HU) as PU.
  set (xs := linspace x_1 x_2 N_x) in *.
  set (V := repeat (map g_0 xs) N_t).
  assert (SV : shape2 N_t N_x V).
  { split; [apply repeat_length|]. apply Forall_forall. intros r Hr.
    apply repeat_spec in Hr. subst. rewrite length_map. apply length_linspace. }
  assert (E : forall i j, (i < N_t)%nat -> (j < N_x)%nat ->
            entry V i j = g_0 (nth j xs 0)).
  { intros i0 j0 Hi0 Hj0. unfold entry, V. rewrite nth_repeat_lt by assumption.
    apply nth_map_in. unfold xs. now rewrite length_linspace. }
  rewrite <- (E i j Hi Hj). f_equal.
  apply (WaveSystem.discrete_problem_unique f c x_1 x_2 t_f h_1 h_2 g_0 g_1 N_x N_t);
    auto.
  unfold WaveProblem.discrete_problem. repeat split.
  - intros i0 j0 A1 A2 A3 A4. unfold WaveProblem.stencil_eqn.
    rewrite !E by lia. rewrite Hf, !Hg0. fold xs. unfold xs.
    rewrite !nth_linspace by lia.
    rewrite (plus_INR j0 1), (minus_INR j0 1) by lia. simpl INR.
    unfold Rdiv. ring.
  - intros j0 A. now apply E; lia.
  - intros j0 A1 A2. rewrite !E by lia. rewrite Hg1. lra.
  - intros i0 A1 A2. rewrite E by lia. rewrite H1. f_equal.
    unfold xs. now apply nth_linspace_first.
  - intros i0 A1 A2. rewrite E by lia. rewrite H2. f_equal.
    unfold xs. now apply nth_linspace_last.
Qed.

(** ** The nodes of the grid *)

Lemma linspace_increasing (start stop : R) (num j k : nat) :
  start < stop -> (j < k)%nat -> (k < num)%nat ->
  nth j (linspace start stop num) 0 < nth k (linspace start stop num) 0.
Proof.
  intros Hlt Hjk Hk. rewrite !nth_linspace by lia.
  assert (Hn : 0 < INR (num - 1)) by (apply lt_0_INR; lia).
  assert (Hh : 0 < (stop - start) / INR (num - 1))
    by (apply Rdiv_lt_0_compat; lra).
  apply Rplus_lt_compat_l, Rmult_lt_compat_r; [assumption|].
  now apply lt_INR.
Qed.

Lemma linspace_single (start stop : R) : linspace start stop 1 = [start].
Proof. unfold linspace. simpl. f_equal. lra. Qed.

(** X11: the nodes of the grid: [x] runs from [x_1] to [x_2] and [t] from 0
    to [t_f], both strictly increasing; an axis with a single sample
    holds its start only, so [x_2] or [t_f] is not a node then. *)
Theorem grid_nodes (x_1 x_2 t_f : R) (N_x N_t : nat) :
  (1 <= N_x)%nat -> (1 <= N_t)%nat ->
  exists g,
    make_grid x_1 x_2 t_f N_x N_t = Ok g /\
    length (x g) = N_x /\ length (t g) = N_t /\
    nth 0 (x g) 0 = x_1 /\ nth 0 (t g) 0 = 0 /\
    ((2 <= N_x)%nat -> nth (N_x - 1) (x g) 0 = x_2) /\
    ((2 <= N_t)%nat -> nth (N_t - 1) (t g) 0 = t_f) /\
    (N_x = 1%nat -> x g = [x_1]) /\ (N_t = 1%nat -> t g = [0]) /\
    (x_1 < x_2 -> forall j k, (j < k)%nat -> (k < N_x)%nat ->
                  nth j (x g) 0 < nth k (x g) 0) /\
    (0 < t_f -> forall i k, (i < k)%nat -> (k < N_t)%nat ->
                nth i (t g) 0 < nth k (t g) 0).
Proof.
  intros Hx Ht. eexists. split; [now apply make_grid_ok|]. cbn [x t].
  assert (F : forall s e n, (1 <= n)%nat -> nth 0 (linspace s e n) 0 = s).
  { intros s e n Hn. destruct (Nat.eq_dec n 1) as [->|].
    - now rewrite linspace_single.
    - apply nth_linspace_first. lia. }
  split; [apply length_linspace|]. split; [apply length_linspace|].
  split; [now apply F|]. split; [now apply F|].
  split; [apply nth_linspace_last|]. split; [apply nth_linspace_last|].
  split; [intros ->; apply linspace_single|].
  split; [intros ->; apply linspace_single|].
  split; intros; now apply linspace_increasing.
Qed.

(** ** The sine profile of the examples *)

Lemma sine_second_difference (phi theta : R) :
  sin (phi + theta) + sin (phi - theta) - 2 * sin phi
  = - (2 * (1 - cos theta)) * sin phi.
Proof. rewrite sin_plus, sin_minus. ring. Qed.

(** The phase of the sine profile advances by [2 * PI / (N_x - 1)] from
    one node of [np.linspace] to the next. *)
Lemma phase_succ (x_1 x_2 : R) (N_x j : nat) :
  (2 <= N_x)%nat -> x_1 < x_2 -> (j + 1 < N_x)%nat ->
  2 * PI * nth (j + 1) (linspace x_1 x_2 N_x) 0 / (x_2 - x_1)
  = 2 * PI * nth j (linspace x_1 x_2 N_x) 0 / (x_2 - x_1) + 2 * PI / INR (N_x - 1).
Proof.
  intros Hx Lx Hj. rewrite !nth_linspace by lia. rewrite (plus_INR j 1). simpl INR.
  assert (INR (N_x - 1) <> 0) by (apply not_0_INR; lia).
  field. split; [assumption|lra].
Qed.

Lemma phase_pred (x_1 x_2 : R) (N_x j : nat) :
  (2 <= N_x)%nat -> x_1 < x_2 -> (1 <= j)%nat -> (j < N_x)%nat ->
  2 * PI * nth (j - 1) (linspace x_1 x_2 N_x) 0 / (x_2 - x_1)
  = 2 * PI * nth j (linspace x_1 x_2 N_x) 0 / (x_2 - x_1) - 2 * PI / INR (N_x - 1).
Proof.
  intros Hx Lx H1 Hj. rewrite !nth_linspace by lia. rewrite (minus_INR j 1) by lia.
  simpl INR. assert (INR (N_x - 1) <> 0) by (apply not_0_INR; lia).
  field. split; [assumption|lra].
Qed.

(** The second difference of the sine profile on the nodes. *)
Lemma sine_profile_difference (x_1 x_2 : R) (N_x j : nat) :
  (2 <= N_x)%nat -> x_1 < x_2 -> (1 <= j)%nat -> (j + 1 < N_x)%nat ->
  sin (2 * PI * nth (j + 1) (linspace x_1 x_2 N_x) 0 / (x_2 - x_1))
  + sin (2 * PI * nth (j - 1) (linspace x_1 x_2 N_x) 0 / (x_2 - x_1))
  - 2 * sin (2 * PI * nth j (linspace x_1 x_2 N_x) 0 / (x_2 - x_1))
  = - (2 * (1 - cos (2 * PI / INR (N_x - 1))))
    * sin (2 * PI * nth j (linspace x_1 x_2 N_x) 0 / (x_2 - x_1)).
Proof.
  intros Hx Lx H1 H2. rewrite phase_succ, phase_pred by (auto; lia).
  apply sine_second_difference.
Qed.

(** A sine profile that vanishes at [x_1] vanishes at [x_2] too. *)
Lemma sine_profile_ends (x_1 x_2 : R) :
  x_1 < x_2 -> sin (2 * PI * x_1 / (x_2 - x_1)) = 0 ->
  sin (2 * PI * x_2 / (x_2 - x_1)) = 0.
Proof.
  intros Lx H.
  replace (2 * PI * x_2 / (x_2 - x_1)) with (2 * PI * x_1 / (x_2 - x_1) + 2 * PI)
    by (field; lra).
  rewrite sin_plus, H, sin_2PI. ring.
Qed.


Lemma amplitude_0 (q : R) : amplitude q 0 = 1.
Proof. reflexivity. Qed.

Lemma amplitude_1 (q : R) : amplitude q 1 = 1.
Proof. reflexivity. Qed.

Lemma amplitude_SS (q : R) (n : nat) :
  amplitude q (S (S n)) = q * amplitude q (S n) - amplitude q n.
Proof. reflexivity. Qed.


(** ** Dot products and reshapes of three-dimensional arrays *)

Lemma shape3_cons (n m p : nat) (P : array2) (a : array3) :
  shape3 (S n) m p (P :: a) <-> shape2 m p P /\ shape3 n m p a.
Proof.
  unfold shape3. simpl. split.
  - intros [Hn Hall]. inversion Hall; subst.
    split; [assumption|]. split; [lia|assumption].
  - intros [HP [Hn Hall]]. split; [lia|now constructor].
Qed.

Lemma length_flatten3 (n m p : nat) (U : array3) :
  shape3 n m p U -> length (flatten3 U) = (n * (m * p))%nat.
Proof.
  revert U; induction n as [|n IH]; intros [|P U] HU;
    try (destruct HU; discriminate); auto.
  apply shape3_cons in HU as [HP HU]. unfold flatten3 in *. simpl.
  rewrite length_app, IH, (length_concat_shape2 m p) by assumption. lia.
Qed.

Lemma dot3_cons (m p : nat) (P Q : array2) (M U : array3) :
  shape2 m p P -> shape2 m p Q ->
  dot3 (P :: M) (Q :: U) = dot2 P Q + dot3 M U.
Proof.
  intros HP HQ. unfold dot3, flatten3, dot2. simpl. apply dot_app.
  now rewrite !(length_concat_shape2 m p).
Qed.

Lemma flatten3_zeros (n m p : nat) : flatten3 (zeros3 n m p) = repeat 0 (n * (m * p)).
Proof.
  unfold flatten3, zeros3. rewrite map_repeat.
  assert (E : concat (zeros2 m p) = repeat 0 (m * p)).
  { unfold zeros2. induction m as [|m IH]; simpl; [reflexivity|].
    now rewrite IH, repeat_app. }
  rewrite E. induction n as [|n IH]; simpl; [reflexivity|].
  now rewrite IH, repeat_app.
Qed.

Lemma dot3_zeros (n m p : nat) (U : array3) : dot3 (zeros3 n m p) U = 0.
Proof. unfold dot3. rewrite flatten3_zeros. apply dot_repeat_0. Qed.

Lemma put3_cons_S (P : array2) (M : array3) (i j k : nat) (q : R) :
  put3 (P :: M) (S i) j k q = P :: put3 M i j k q.
Proof. reflexivity. Qed.

Lemma dot3_put3 (n m p : nat) (M U : array3) (i j k : nat) (q : R) :
  shape3 n m p M -> shape3 n m p U -> (i < n)%nat -> (j < m)%nat -> (k < p)%nat ->
  dot3 (put3 M i j k q) U = dot3 M U + (q - entry3 M i j k) * entry3 U i j k.
Proof.
  revert n M U; induction i as [|i IH]; intros n M U HM HU Hi Hj Hk;
    destruct n as [|n]; try lia;
    destruct M as [|P M]; try (destruct HM; discriminate);
    destruct U as [|Q U]; try (destruct HU; discriminate);
    apply shape3_cons in HM as [LP HM]; apply shape3_cons in HU as [LQ HU].
  - unfold put3, entry3. cbn [nth upd].
    rewrite !(dot3_cons m p) by (try assumption; now apply shape2_put2).
    rewrite (dot2_put2 m p) by assumption. lra.
  - rewrite put3_cons_S, !(dot3_cons m p) by assumption.
    rewrite (IH n) by (auto; lia). unfold entry3. cbn [nth]. lra.
Qed.

Lemma dot3_add3 (n m p : nat) (M U : array3) (i j k : nat) (q : R) :
  shape3 n m p M -> shape3 n m p U -> (i < n)%nat -> (j < m)%nat -> (k < p)%nat ->
  dot3 (add3 M i j k q) U = dot3 M U + q * entry3 U i j k.
Proof.
  intros HM HU Hi Hj Hk. unfold add3. rewrite (dot3_put3 n m p) by assumption. lra.
Qed.

Lemma shape3_reshape3 (n m p : nat) (l : list R) :
  length l = (n * (m * p))%nat -> shape3 n m p (reshape3 n m p l).
Proof.
  intros H. pose proof (shape2_reshape2 n (m * p) l H) as [Ln Hr].
  unfold reshape3. split; [now rewrite length_map|].
  apply Forall_forall. intros P HP. apply in_map_iff in HP as (r & <- & Hin).
  apply shape2_reshape2. exact (proj1 (Forall_forall _ _) Hr r Hin).
Qed.

Lemma flatten3_reshape3 (n m p : nat) (l : list R) :
  length l = (n * (m * p))%nat -> flatten3 (reshape3 n m p l) = l.
Proof.
  intros H. pose proof (shape2_reshape2 n (m * p) l H) as [Ln Hr].
  unfold flatten3, reshape3. rewrite map_map.
  rewrite (map_ext_in _ (fun r => r)).
  - rewrite map_id. now apply concat_reshape2.
  - intros r Hin. apply concat_reshape2.
    exact (proj1 (Forall_forall _ _) Hr r Hin).
Qed.

Lemma reshape3_flatten3 (n m p : nat) (U : array3) :
  shape3 n m p U -> reshape3 n m p (flatten3 U) = U.
Proof.
  intros [Ln HU]. unfold reshape3, flatten3.
  rewrite reshape2_concat.
  - rewrite map_map. rewrite (map_ext_in _ (fun P => P)); [apply map_id|].
    intros P Hin. apply reshape2_concat.
    exact (proj1 (Forall_forall _ _) HU P Hin).
  - split; [now rewrite length_map|].
    apply Forall_forall. intros r Hin. apply in_map_iff in Hin as (P & <- & Hin).
    apply length_concat_shape2. exact (proj1 (Forall_forall _ _) HU P Hin).
Qed.

Lemma array3_ext (n m p : nat) (U V : array3) :
  shape3 n m p U -> shape3 n m p V ->
  (forall i j k, (i < n)%nat -> (j < m)%nat -> (k < p)%nat ->
                 entry3 U i j k = entry3 V i j k) ->
  U = V.
Proof.
  intros HU HV H. apply (nth_ext U V [] []).
  - destruct HU, HV. congruence.
  - intros i Hi. rewrite (proj1 HU) in Hi.
    apply (WaveSystem.array2_ext m p).
    + now apply (shape3_plane n).
    + now apply (shape3_plane n).
    + intros j k Hj Hk. now apply H.
Qed.

(** ** The 2-D linear system and its solutions *)

Lemma Forall2_flat_map2 {A B C D} (P : C -> D -> Prop) (F : A -> B -> C)
      (G : A -> B -> D) (l1 : list A) (l2 : list B) :
  Forall2 P (flat_map (fun a => map (F a) l2) l1) (flat_map (fun a => map (G a) l2) l1) <->
  (forall a b, In a l1 -> In b l2 -> P (F a b) (G a b)).
Proof.
  rewrite Forall2_flat_map by (intros; now rewrite !length_map).
  split.
  - intros H a b Ha Hb. specialize (H a Ha). rewrite Forall2_map_map in H. now apply H.
  - intros H a Ha. apply Forall2_map_map. intros b Hb. now apply H.
Qed.

Lemma length_flat_map2 {A B C} (F : A -> B -> C) (l1 : list A) (l2 : list B) :
  length (flat_map (fun a => map (F a) l2) l1) = (length l1 * length l2)%nat.
Proof.
  rewrite (length_flat_map_const _ _ (length l2)) by (intros; now rewrite length_map).
  reflexivity.
Qed.

Module Wave2DSystem.
Section Facts.

Variable f : R -> R -> R -> R.
Variable c : R.
Variables x_1 x_2 y_1 y_2 t_f : R.
Variables h_1 h_2 : R.
Variables g_0 g_1 : R -> R -> R.
Variables N_x N_y N_t : nat.

Local Abbreviation grid := (grid2 x_1 x_2 y_1 y_2 t_f N_x N_y N_t).
Local Abbreviation xs := (linspace x_1 x_2 N_x).
Local Abbreviation ys := (linspace y_1 y_2 N_y).
Local Abbreviation ts := (linspace 0 t_f N_t).
Local Abbreviation stencil_eqn :=
  (Wave2DProblem.stencil_eqn f c x_1 x_2 y_1 y_2 t_f N_x N_y N_t).
Local Abbreviation discrete_problem :=
  (Wave2DProblem.discrete_problem f c x_1 x_2 y_1 y_2 t_f h_1 h_2 g_0 g_1 N_x N_y N_t).
Local Abbreviation face_value := (Wave2DProblem.face_value h_1 h_2 N_x N_y).
Local Abbreviation march_value :=
  (Wave2DProblem.march_value f c x_1 x_2 y_1 y_2 t_f N_x N_y N_t).
Local Abbreviation planes2 :=
  (Wave2DProblem.planes2 f c x_1 x_2 y_1 y_2 t_f h_1 h_2 g_0 g_1 N_x N_y N_t).
Local Abbreviation wave_value :=
  (Wave2DProblem.wave_value f c x_1 x_2 y_1 y_2 t_f h_1 h_2 g_0 g_1 N_x N_y N_t).
Local Abbreviation wave_field :=
  (Wave2DProblem.wave_field f c x_1 x_2 y_1 y_2 t_f h_1 h_2 g_0 g_1 N_x N_y N_t).
Local Abbreviation eqs :=
  (Wave2DEquations.pde_eqs c N_x N_y N_t grid ++
   Wave2DEquations.dirichlet_eqs N_x N_y N_t ++
   Wave2DEquations.neumann_eqs N_x N_y N_t ++
   Wave2DEquations.face_eqs N_x N_y N_t).
Local Abbreviation col :=
  (Wave2DEquations.pde_col f N_x N_y N_t grid ++
   Wave2DEquations.dirichlet_col g_0 N_x N_y grid ++
   Wave2DEquations.neumann_col g_1 N_x N_y grid ++
   Wave2DEquations.face_col h_1 h_2 N_x N_y N_t).

Lemma dot3_stencil (U : array3) (i j k : nat) :
  shape3 N_t N_x N_y U ->
  (1 <= i)%nat -> (i + 1 < N_t)%nat -> (1 <= j)%nat -> (j + 1 < N_x)%nat ->
  (1 <= k)%nat -> (k + 1 < N_y)%nat ->
  dot3 (Wave2DEquations.stencil_mat c N_x N_y N_t grid i j k) U =
  (-2 / dt2 grid / dt2 grid + c * c / dx2 grid / dx2 grid * 2
   + c * c / dy2 grid / dy2 grid * 2) * entry3 U i j k
  + 1 / dt2 grid / dt2 grid * (entry3 U (i - 1) j k + entry3 U (i + 1) j k)
  - c * c / dx2 grid / dx2 grid * (entry3 U i (j + 1) k + entry3 U i (j - 1) k)
  - c * c / dy2 grid / dy2 grid * (entry3 U i j (k + 1) + entry3 U i j (k - 1)).
Proof.
  intros HU Hi1 Hi2 Hj1 Hj2 Hk1 Hk2. unfold Wave2DEquations.stencil_mat. cbv zeta.
  repeat (rewrite (dot3_add3 N_t N_x N_y) by (try assumption; try lia; shape3_tac)).
  rewrite dot3_zeros. lra.
Qed.

Lemma dot3_unit (U : array3) (i j k : nat) :
  shape3 N_t N_x N_y U -> (i < N_t)%nat -> (j < N_x)%nat -> (k < N_y)%nat ->
  dot3 (put3 (zeros3 N_t N_x N_y) i j k 1) U = entry3 U i j k.
Proof.
  intros HU Hi Hj Hk.
  rewrite (dot3_put3 N_t N_x N_y) by (try assumption; try lia; shape3_tac).
  rewrite dot3_zeros, entry3_zeros. lra.
Qed.

Lemma dot3_neumann (U : array3) (j k : nat) :
  shape3 N_t N_x N_y U -> (2 <= N_t)%nat -> (j < N_x)%nat -> (k < N_y)%nat ->
  dot3 (Wave2DEquations.neumann_mat N_x N_y N_t j k) U = entry3 U 1 j k - entry3 U 0 j k.
Proof.
  intros HU Ht Hj Hk. unfold Wave2DEquations.neumann_mat.
  rewrite (dot3_put3 N_t N_x N_y) by (try assumption; try lia; shape3_tac).
  rewrite (dot3_put3 N_t N_x N_y) by (try assumption; try lia; shape3_tac).
  rewrite (entry3_put3 N_t N_x N_y) by (try lia; shape3_tac).
  rewrite dot3_zeros, !entry3_zeros. cbn [Nat.eqb andb]. lra.
Qed.

(** *** The number of equations *)

Lemma count_total3 :
  (2 <= N_x)%nat -> (2 <= N_y)%nat -> (2 <= N_t)%nat ->
  ((N_t - 2) * ((N_x - 2) * (N_y - 2)) + N_x * N_y + (N_x - 2) * (N_y - 2)
   + ((N_t - 1) * N_y + (N_t - 1) * N_y
      + (N_t - 1) * (N_x - 2) + (N_t - 1) * (N_x - 2))
   = N_t * (N_x * N_y))%nat.
Proof.
  intros Hx Hy Ht.
  assert (E : forall p q r : nat,
             (p * (q * r) + (q + 2) * (r + 2) + q * r
              + ((p + 1) * (r + 2) + (p + 1) * (r + 2) + (p + 1) * q + (p + 1) * q)
              = (p + 2) * ((q + 2) * (r + 2)))%nat)
    by (intros; ring).
  specialize (E (N_t - 2)%nat (N_x - 2)%nat (N_y - 2)%nat).
  replace (N_t - 2 + 2)%nat with N_t in E by lia.
  replace (N_x - 2 + 2)%nat with N_x in E by lia.
  replace (N_y - 2 + 2)%nat with N_y in E by lia.
  replace (N_t - 2 + 1)%nat with (N_t - 1)%nat in E by lia.
  exact E.
Qed.

Lemma length_pde_eqs3 (g : Grid2) :
  length (Wave2DEquations.pde_eqs c N_x N_y N_t g)
  = ((N_t - 2) * ((N_x - 2) * (N_y - 2)))%nat.
Proof.
  unfold Wave2DEquations.pde_eqs.
  rewrite (length_flat_map_const _ _ ((N_x - 2) * (N_y - 2)))
    by (intros; rewrite length_flat_map2, !length_range; lia).
  rewrite length_range. lia.
Qed.

Lemma length_pde_col3 (g : Grid2) :
  length (Wave2DEquations.pde_col f N_x N_y N_t g)
  = ((N_t - 2) * ((N_x - 2) * (N_y - 2)))%nat.
Proof.
  unfold Wave2DEquations.pde_col.
  rewrite (length_flat_map_const _ _ ((N_x - 2) * (N_y - 2)))
    by (intros; rewrite length_flat_map2, !length_range; lia).
  rewrite length_range. lia.
Qed.

Lemma length_face_eqs :
  length (Wave2DEquations.face_eqs N_x N_y N_t)
  = ((N_t - 1) * N_y + (N_t - 1) * N_y
     + (N_t - 1) * (N_x - 2) + (N_t - 1) * (N_x - 2))%nat.
Proof.
  unfold Wave2DEquations.face_eqs.
  rewrite !length_app, !length_flat_map2, !length_range. lia.
Qed.

Lemma length_face_col :
  length (Wave2DEquations.face_col h_1 h_2 N_x N_y N_t)
  = ((N_t - 1) * N_y + (N_t - 1) * N_y
     + (N_t - 1) * (N_x - 2) + (N_t - 1) * (N_x - 2))%nat.
Proof.
  unfold Wave2DEquations.face_col.
  rewrite !length_app, !length_flat_map2, !length_range. lia.
Qed.

Lemma length_eqs3 :
  (2 <= N_x)%nat -> (2 <= N_y)%nat -> (2 <= N_t)%nat ->
  length eqs = (N_t * (N_x * N_y))%nat.
Proof.
  intros Hx Hy Ht.
  rewrite !length_app, length_pde_eqs3, length_face_eqs.
  unfold Wave2DEquations.dirichlet_eqs, Wave2DEquations.neumann_eqs.
  rewrite !length_flat_map2, !length_range.
  pose proof (count_total3 Hx Hy Ht). lia.
Qed.

Lemma length_col3 :
  (2 <= N_x)%nat -> (2 <= N_y)%nat -> (2 <= N_t)%nat ->
  length col = (N_t * (N_x * N_y))%nat.
Proof.
  intros Hx Hy Ht.
  rewrite !length_app, length_pde_col3, length_face_col.
  unfold Wave2DEquations.dirichlet_col, Wave2DEquations.neumann_col.
  rewrite !length_flat_map2, !length_range.
  pose proof (count_total3 Hx Hy Ht). lia.
Qed.

(** The assembled equations say exactly the discrete problem. *)
Lemma satisfies_iff3 (U : array3) :
  shape3 N_t N_x N_y U -> (2 <= N_t)%nat -> (2 <= N_x)%nat -> (2 <= N_y)%nat ->
  Wave2DProblem.satisfies eqs col U <-> discrete_problem U.
Proof.
  intros HU Ht Hx Hy.
  unfold Wave2DProblem.satisfies, Wave2DProblem.discrete_problem.
  rewrite Forall2_app_iff by now rewrite length_pde_eqs3, length_pde_col3.
  unfold Wave2DEquations.dirichlet_eqs, Wave2DEquations.dirichlet_col,
    Wave2DEquations.neumann_eqs, Wave2DEquations.neumann_col,
    Wave2DEquations.face_eqs, Wave2DEquations.face_col.
  rewrite !Forall2_app_iff by now rewrite !length_flat_map2.
  rewrite !Forall2_flat_map2.
  unfold Wave2DEquations.pde_eqs, Wave2DEquations.pde_col.
  rewrite Forall2_flat_map by (intros; now rewrite !length_flat_map2).
  unfold Wave2DEquations.dirichlet_mat, Wave2DEquations.x1_mat, Wave2DEquations.x2_mat,
    Wave2DEquations.y1_mat, Wave2DEquations.y2_mat.
  cbn [xs2 ys2 ts2 grid2].
  split.
  - intros (HS & HD & HN & HX1 & HX2 & HY1 & HY2).
    split; [|split; [|split; [|split; [|split; [|split]]]]].
    + intros i j k Hi1 Hi2 Hj1 Hj2 Hk1 Hk2. unfold Wave2DProblem.stencil_eqn.
      rewrite <- dot3_stencil by assumption.
      specialize (HS i ltac:(apply in_range; lia)).
      rewrite Forall2_flat_map2 in HS. apply HS; apply in_range; lia.
    + intros j k Hj Hk. rewrite <- dot3_unit by (auto; lia).
      apply HD; apply in_range; lia.
    + intros j k Hj1 Hj2 Hk1 Hk2. rewrite <- dot3_neumann by (auto; lia).
      apply HN; apply in_range; lia.
    + intros i k Hi1 Hi2 Hk. rewrite <- dot3_unit by (auto; lia).
      apply HX1; apply in_range; lia.
    + intros i k Hi1 Hi2 Hk. rewrite <- dot3_unit by (auto; lia).
      apply HX2; apply in_range; lia.
    + intros i j Hi1 Hi2 Hj1 Hj2. rewrite <- dot3_unit by (auto; lia).
      apply HY1; apply in_range; lia.
    + intros i j Hi1 Hi2 Hj1 Hj2. rewrite <- dot3_unit by (auto; lia).
      apply HY2; apply in_range; lia.
  - intros (HS & HD & HN & HX1 & HX2 & HY1 & HY2).
    split; [|split; [|split; [|split; [|split; [|split]]]]].
    + intros i Hi. apply in_range in Hi. apply Forall2_flat_map2.
      intros j k Hj Hk. apply in_range in Hj, Hk.
      rewrite dot3_stencil by (auto; lia). apply HS; lia.
    + intros j k Hj Hk. apply in_range in Hj, Hk.
      rewrite dot3_unit by (auto; lia). apply HD; lia.
    + intros j k Hj Hk. apply in_range in Hj, Hk.
      rewrite dot3_neumann by (auto; lia). apply HN; lia.
    + intros i k Hi Hk. apply in_range in Hi, Hk.
      rewrite dot3_unit by (auto; lia). apply HX1; lia.
    + intros i k Hi Hk. apply in_range in Hi, Hk.
      rewrite dot3_unit by (auto; lia). apply HX2; lia.
    + intros i j Hi Hj. apply in_range in Hi, Hj.
      rewrite dot3_unit by (auto; lia). apply HY1; lia.
    + intros i j Hi Hj. apply in_range in Hi, Hj.
      rewrite dot3_unit by (auto; lia). apply HY2; lia.
Qed.

(** *** The solution by time marching *)

Lemma stencil_eqn_iff3 (U : array3) (i j k : nat) :
  dt2 grid <> 0 ->
  stencil_eqn U i j k <->
  entry3 U (i + 1) j k =
  march_value i j k (entry3 U (i - 1)) (entry3 U i).
Proof.
  intros Hdt. unfold Wave2DProblem.stencil_eqn, Wave2DProblem.march_value.
  set (F := f _ _ _).
  set (A := -2 / dt2 grid / dt2 grid + _ + _).
  set (Cx := c * c / dx2 grid / dx2 grid).
  set (Cy := c * c / dy2 grid / dy2 grid).
  set (u := entry3 U i j k). set (up := entry3 U (i - 1) j k).
  set (un := entry3 U (i + 1) j k).
  set (sx := entry3 U i (j + 1) k + entry3 U i (j - 1) k).
  set (sy := entry3 U i j (k + 1) + entry3 U i j (k - 1)).
  assert (E : dt2 grid ^ 2 * (1 / dt2 grid / dt2 grid) = 1) by (field; assumption).
  split; intros H.
  - assert (H' : 1 / dt2 grid / dt2 grid * un
                 = F - A * u + Cx * sx + Cy * sy - 1 / dt2 grid / dt2 grid * up) by lra.
    apply (f_equal (Rmult (dt2 grid ^ 2))) in H'.
    rewrite <- Rmult_assoc, E, Rmult_1_l in H'. rewrite H'.
    replace (dt2 grid ^ 2
             * (F - A * u + Cx * sx + Cy * sy - 1 / dt2 grid / dt2 grid * up))
      with (dt2 grid ^ 2 * (F - A * u + Cx * sx + Cy * sy)
            - dt2 grid ^ 2 * (1 / dt2 grid / dt2 grid) * up) by ring.
    rewrite E. ring.
  - rewrite H.
    replace (A * u + 1 / dt2 grid / dt2 grid
                     * (up + (dt2 grid ^ 2 * (F - A * u + Cx * sx + Cy * sy) - up))
             - Cx * sx - Cy * sy)
      with (A * u
            + dt2 grid ^ 2 * (1 / dt2 grid / dt2 grid) * (F - A * u + Cx * sx + Cy * sy)
            - Cx * sx - Cy * sy)
      by ring.
    rewrite E. ring.
Qed.

Lemma wave_value_0 (j k : nat) : wave_value 0 j k = g_0 (nth j xs 0) (nth k ys 0).
Proof. reflexivity. Qed.

Lemma wave_value_1 (j k : nat) :
  wave_value 1 j k =
  face_value j k (wave_value 0 j k + g_1 (nth j xs 0) (nth k ys 0)).
Proof. reflexivity. Qed.

Lemma wave_value_SS (n j k : nat) :
  wave_value (S (S n)) j k =
  face_value j k (march_value (S n) j k (wave_value n) (wave_value (S n))).
Proof. reflexivity. Qed.

Lemma shape3_wave_field : shape3 N_t N_x N_y wave_field.
Proof.
  split; unfold Wave2DProblem.wave_field.
  - now rewrite length_map, length_seq.
  - apply Forall_forall. intros P HP. apply in_map_iff in HP as (i & <- & _).
    split; [now rewrite length_map, length_seq|].
    apply Forall_forall. intros r Hr. apply in_map_iff in Hr as (j & <- & _).
    now rewrite length_map, length_seq.
Qed.

Lemma entry3_wave_field (i j k : nat) :
  (i < N_t)%nat -> (j < N_x)%nat -> (k < N_y)%nat ->
  entry3 wave_field i j k = wave_value i j k.
Proof.
  intros Hi Hj Hk. unfold entry3, entry, Wave2DProblem.wave_field.
  rewrite (nth_map_seq _ 0 N_t i) by assumption.
  rewrite (nth_map_seq _ 0 N_x j) by assumption.
  now rewrite (nth_map_seq _ 0 N_y k) by assumption.
Qed.

Lemma face_value_x1 (k : nat) (v : R) : face_value 0 k v = h_1.
Proof. reflexivity. Qed.

Lemma face_value_x2 (k : nat) (v : R) :
  (2 <= N_x)%nat -> face_value (N_x - 1) k v = h_2.
Proof.
  intros Hx. unfold Wave2DProblem.face_value.
  destruct (Nat.eqb_spec (N_x - 1) 0); [lia|]. now rewrite Nat.eqb_refl.
Qed.

Lemma face_value_y1 (j : nat) (v : R) :
  (1 <= j)%nat -> (j + 1 < N_x)%nat -> face_value j 0 v = h_1.
Proof.
  intros H1 H2. unfold Wave2DProblem.face_value.
  destruct (Nat.eqb_spec j 0); [lia|].
  destruct (Nat.eqb_spec j (N_x - 1)); [lia|]. reflexivity.
Qed.

Lemma face_value_y2 (j : nat) (v : R) :
  (1 <= j)%nat -> (j + 1 < N_x)%nat -> (2 <= N_y)%nat ->
  face_value j (N_y - 1) v = h_2.
Proof.
  intros H1 H2 Hy. unfold Wave2DProblem.face_value.
  destruct (Nat.eqb_spec j 0); [lia|].
  destruct (Nat.eqb_spec j (N_x - 1)); [lia|].
  destruct (Nat.eqb_spec (N_y - 1) 0); [lia|]. now rewrite Nat.eqb_refl.
Qed.

Lemma face_value_inner (j k : nat) (v : R) :
  (1 <= j)%nat -> (j + 1 < N_x)%nat -> (1 <= k)%nat -> (k + 1 < N_y)%nat ->
  face_value j k v = v.
Proof.
  intros H1 H2 H3 H4. unfold Wave2DProblem.face_value.
  destruct (Nat.eqb_spec j 0); [lia|].
  destruct (Nat.eqb_spec j (N_x - 1)); [lia|].
  destruct (Nat.eqb_spec k 0); [lia|].
  destruct (Nat.eqb_spec k (N_y - 1)); [lia|]. reflexivity.
Qed.

(** From plane 1 on, a value of the marched field is a face value. *)
Lemma wave_value_S (n j k : nat) :
  exists v, wave_value (S n) j k = face_value j k v.
Proof.
  destruct n as [|n]; eexists; [apply wave_value_1|apply wave_value_SS].
Qed.

Lemma march_value_ext (i j k : nat) (prev cur prev' cur' : nat -> nat -> R) :
  prev j k = prev' j k -> cur j k = cur' j k ->
  cur (j + 1)%nat k = cur' (j + 1)%nat k -> cur (j - 1)%nat k = cur' (j - 1)%nat k ->
  cur j (k + 1)%nat = cur' j (k + 1)%nat -> cur j (k - 1)%nat = cur' j (k - 1)%nat ->
  march_value i j k prev cur = march_value i j k prev' cur'.
Proof.
  intros E1 E2 E3 E4 E5 E6. unfold Wave2DProblem.march_value.
  now rewrite E1, E2, E3, E4, E5, E6.
Qed.

Lemma wave_field_solves3 :
  (2 <= N_t)%nat -> (2 <= N_x)%nat -> (2 <= N_y)%nat -> dt2 grid <> 0 ->
  discrete_problem wave_field.
Proof.
  intros Ht Hx Hy Hdt. unfold Wave2DProblem.discrete_problem.
  split; [|split; [|split; [|split; [|split; [|split]]]]].
  - intros i j k Hi1 Hi2 Hj1 Hj2 Hk1 Hk2. apply stencil_eqn_iff3; [assumption|].
    rewrite entry3_wave_field by lia.
    replace (i + 1)%nat with (S (S (i - 1))) by lia.
    rewrite wave_value_SS. replace (S (i - 1)) with i by lia.
    rewrite face_value_inner by assumption.
    apply march_value_ext; symmetry; apply entry3_wave_field; lia.
  - intros j k Hj Hk. now rewrite entry3_wave_field by lia.
  - intros j k Hj1 Hj2 Hk1 Hk2. rewrite !entry3_wave_field by lia.
    rewrite wave_value_1, face_value_inner by assumption. lra.
  - intros i k Hi1 Hi2 Hk. rewrite entry3_wave_field by lia.
    destruct i as [|i]; [lia|]. destruct (wave_value_S i 0 k) as [v ->].
    apply face_value_x1.
  - intros i k Hi1 Hi2 Hk. rewrite entry3_wave_field by lia.
    destruct i as [|i]; [lia|]. destruct (wave_value_S i (N_x - 1) k) as [v ->].
    now apply face_value_x2.
  - intros i j Hi1 Hi2 Hj1 Hj2. rewrite entry3_wave_field by lia.
    destruct i as [|i]; [lia|]. destruct (wave_value_S i j 0) as [v ->].
    now apply face_value_y1.
  - intros i j Hi1 Hi2 Hj1 Hj2. rewrite entry3_wave_field by lia.
    destruct i as [|i]; [lia|]. destruct (wave_value_S i j (N_y - 1)) as [v ->].
    now apply face_value_y2.
Qed.

(** *** Uniqueness *)

Lemma discrete_problem_unique3 (U V : array3) :
  (2 <= N_t)%nat -> (2 <= N_x)%nat -> (2 <= N_y)%nat -> dt2 grid <> 0 ->
  shape3 N_t N_x N_y U -> shape3 N_t N_x N_y V ->
  discrete_problem U -> discrete_problem V -> U = V.
Proof.
  intros Ht Hx Hy Hdt HU HV (SU & DU & NU & X1U & X2U & Y1U & Y2U)
         (SV & DV & NV & X1V & X2V & Y1V & Y2V).
  assert (Hface : forall i j k, (1 <= i)%nat -> (i < N_t)%nat ->
            (j < N_x)%nat -> (k < N_y)%nat ->
            ~ ((1 <= j)%nat /\ (j + 1 < N_x)%nat /\ (1 <= k)%nat /\ (k + 1 < N_y)%nat) ->
            entry3 U i j k = entry3 V i j k).
  { intros i j k Hi1 Hi2 Hj Hk Hn.
    destruct (Nat.eq_dec j 0) as [->|]; [now rewrite X1U, X1V|].
    destruct (Nat.eq_dec j (N_x - 1)) as [->|]; [now rewrite X2U, X2V|].
    destruct (Nat.eq_dec k 0) as [->|]; [rewrite Y1U, Y1V; auto; lia|].
    destruct (Nat.eq_dec k (N_y - 1)) as [->|]; [rewrite Y2U, Y2V; auto; lia|].
    exfalso. apply Hn. lia. }
  assert (Hplane : forall i, (i < N_t)%nat ->
            (forall j k, (j < N_x)%nat -> (k < N_y)%nat ->
                         entry3 U i j k = entry3 V i j k) /\
            ((i + 1 < N_t)%nat ->
             forall j k, (j < N_x)%nat -> (k < N_y)%nat ->
                         entry3 U (i + 1) j k = entry3 V (i + 1) j k)).
  { induction i as [|i IH]; intros Hi.
    - assert (H0 : forall j k, (j < N_x)%nat -> (k < N_y)%nat ->
                               entry3 U 0 j k = entry3 V 0 j k)
        by (intros j k Hj Hk; now rewrite DU, DV).
      split; [exact H0|]. intros _ j k Hj Hk. cbn [Nat.add].
      destruct (Nat.le_gt_cases 1 j) as [A1|A1];
        [destruct (Nat.lt_ge_cases (j + 1) N_x) as [A2|A2];
         [destruct (Nat.le_gt_cases 1 k) as [A3|A3];
          [destruct (Nat.lt_ge_cases (k + 1) N_y) as [A4|A4]|]|]|];
        try (apply Hface; lia).
      specialize (NU j k A1 A2 A3 A4). specialize (NV j k A1 A2 A3 A4).
      specialize (H0 j k Hj Hk). lra.
    - destruct (IH ltac:(lia)) as [Hprev Hcur].
      specialize (Hcur ltac:(lia)).
      replace (i + 1)%nat with (S i) in Hcur by lia.
      split; [exact Hcur|]. intros Hi' j k Hj Hk.
      destruct (Nat.le_gt_cases 1 j) as [A1|A1];
        [destruct (Nat.lt_ge_cases (j + 1) N_x) as [A2|A2];
         [destruct (Nat.le_gt_cases 1 k) as [A3|A3];
          [destruct (Nat.lt_ge_cases (k + 1) N_y) as [A4|A4]|]|]|];
        try (apply Hface; lia).
      specialize (SU (S i) j k ltac:(lia) ltac:(lia) A1 A2 A3 A4).
      specialize (SV (S i) j k ltac:(lia) ltac:(lia) A1 A2 A3 A4).
      apply stencil_eqn_iff3 in SU, SV; try assumption.
      rewrite SU, SV. replace (S i - 1)%nat with i by lia.
      apply march_value_ext; try apply Hcur; try apply Hprev; lia. }
  apply (array3_ext N_t N_x N_y); auto.
  intros i j k Hi Hj Hk. now apply Hplane.
Qed.

(** *** The matrix system *)

Lemma shape3_eqs (mat : array3) :
  (2 <= N_x)%nat -> (2 <= N_y)%nat -> (2 <= N_t)%nat ->
  In mat eqs -> shape3 N_t N_x N_y mat.
Proof.
  intros Hx Hy Ht Hin.
  unfold Wave2DEquations.pde_eqs, Wave2DEquations.dirichlet_eqs,
    Wave2DEquations.neumann_eqs, Wave2DEquations.face_eqs in Hin.
  repeat (apply in_app_or in Hin; destruct Hin as [Hin|Hin]);
    apply in_flat_map in Hin as (i & Hi & Hin);
    try apply in_flat_map in Hin as (j & Hj & Hin);
    apply in_map_iff in Hin as (k & <- & Hk);
    repeat match goal with H : In _ (range _ _) |- _ => apply in_range in H end;
    unfold Wave2DEquations.stencil_mat, Wave2DEquations.dirichlet_mat,
      Wave2DEquations.neumann_mat, Wave2DEquations.x1_mat, Wave2DEquations.x2_mat,
      Wave2DEquations.y1_mat, Wave2DEquations.y2_mat; cbv zeta; shape3_tac.
Qed.

Lemma linear_system_ok3 :
  (2 <= N_x)%nat -> (2 <= N_y)%nat -> (2 <= N_t)%nat ->
  x_1 < x_2 -> y_1 < y_2 -> 0 < t_f ->
  Wave2DSolve.linear_system f c x_1 x_2 y_1 y_2 t_f h_1 h_2 g_0 g_1 N_x N_y N_t =
  Ok (map flatten3 eqs, col).
Proof.
  intros Hx Hy Ht Lx Ly Lt. unfold Wave2DSolve.linear_system.
  rewrite Wave2DFacts.assemble3_ok by assumption. cbn [bind fst snd].
  unfold Wave2DSolve.reshape_eqs. rewrite length_eqs3 by assumption.
  replace (N_t * N_x * N_y)%nat with (N_t * (N_x * N_y))%nat by lia.
  now rewrite Nat.eqb_refl.
Qed.

(** A flat vector solves the matrix system exactly when its reshape
    solves the discrete problem. *)
Lemma is_solution_iff3 (u : list R) :
  (2 <= N_x)%nat -> (2 <= N_y)%nat -> (2 <= N_t)%nat ->
  is_solution (map flatten3 eqs) col u <->
  length u = (N_t * (N_x * N_y))%nat /\ discrete_problem (reshape3 N_t N_x N_y u).
Proof.
  intros Hx Hy Ht. unfold is_solution. rewrite length_col3 by assumption.
  split; intros [Hlen H]; (split; [exact Hlen|]);
    pose proof (shape3_reshape3 N_t N_x N_y u Hlen) as HS.
  - apply (proj1 (satisfies_iff3 _ HS Ht Hx Hy)).
    unfold Wave2DProblem.satisfies, dot3. rewrite flatten3_reshape3 by assumption.
    exact (proj1 (WaveSystem.Forall2_map_l (fun row bk => dot row u = bk) _ _ _) H).
  - apply (proj2 (satisfies_iff3 _ HS Ht Hx Hy)) in H.
    unfold Wave2DProblem.satisfies, dot3 in H.
    rewrite flatten3_reshape3 in H by assumption.
    exact (proj2 (WaveSystem.Forall2_map_l (fun row bk => dot row u = bk) _ _ _) H).
Qed.

Lemma solution_exists3 :
  (2 <= N_x)%nat -> (2 <= N_y)%nat -> (2 <= N_t)%nat -> dt2 grid <> 0 ->
  is_solution (map flatten3 eqs) col (flatten3 wave_field).
Proof.
  intros Hx Hy Ht Hdt. apply is_solution_iff3; try assumption.
  split; [apply (length_flatten3 N_t N_x N_y), shape3_wave_field|].
  rewrite reshape3_flatten3 by apply shape3_wave_field.
  now apply wave_field_solves3.
Qed.

Lemma solution_unique3 (u : list R) :
  (2 <= N_x)%nat -> (2 <= N_y)%nat -> (2 <= N_t)%nat -> dt2 grid <> 0 ->
  is_solution (map flatten3 eqs) col u -> reshape3 N_t N_x N_y u = wave_field.
Proof.
  intros Hx Hy Ht Hdt H. apply is_solution_iff3 in H as [Hlen H]; try assumption.
  apply discrete_problem_unique3; auto.
  - now apply shape3_reshape3.
  - apply shape3_wave_field.
  - now apply wave_field_solves3.
Qed.

End Facts.

Lemma zero_field_solves3 (c x_1 x_2 y_1 y_2 t_f : R) (N_x N_y N_t : nat) :
  Wave2DProblem.discrete_problem (fun _ _ _ => 0) c x_1 x_2 y_1 y_2 t_f 0 0
                                 (fun _ _ => 0) (fun _ _ => 0) N_x N_y N_t
                                 (zeros3 N_t N_x N_y).
Proof.
  unfold Wave2DProblem.discrete_problem, Wave2DProblem.stencil_eqn.
  repeat split; intros; rewrite ?entry3_zeros; lra.
Qed.

(** The matrix does not depend on the data; with zero data the zero field
    is the solution, so the kernel of the matrix is trivial. *)
Lemma matrix_nonsingular3 (c x_1 x_2 y_1 y_2 t_f : R) (N_x N_y N_t : nat) :
  (2 <= N_x)%nat -> (2 <= N_y)%nat -> (2 <= N_t)%nat -> 0 < t_f ->
  nonsingular
    (map flatten3
         (Wave2DEquations.pde_eqs c N_x N_y N_t (grid2 x_1 x_2 y_1 y_2 t_f N_x N_y N_t) ++
          Wave2DEquations.dirichlet_eqs N_x N_y N_t ++
          Wave2DEquations.neumann_eqs N_x N_y N_t ++
          Wave2DEquations.face_eqs N_x N_y N_t)).
Proof.
  intros Hx Hy Ht Lt u Hlen Hker.
  rewrite length_map in *. rewrite length_eqs3 in * by assumption.
  assert (Hdt : dt2 (grid2 x_1 x_2 y_1 y_2 t_f N_x N_y N_t) <> 0)
    by (apply Wave2DFacts.step_neq0; [lia|assumption]).
  assert (Hsol : is_solution
            (map flatten3
               (Wave2DEquations.pde_eqs c N_x N_y N_t
                  (grid2 x_1 x_2 y_1 y_2 t_f N_x N_y N_t) ++
                Wave2DEquations.dirichlet_eqs N_x N_y N_t ++
                Wave2DEquations.neumann_eqs N_x N_y N_t ++
                Wave2DEquations.face_eqs N_x N_y N_t))
            (Wave2DEquations.pde_col (fun _ _ _ => 0) N_x N_y N_t
               (grid2 x_1 x_2 y_1 y_2 t_f N_x N_y N_t) ++
             Wave2DEquations.dirichlet_col (fun _ _ => 0) N_x N_y
               (grid2 x_1 x_2 y_1 y_2 t_f N_x N_y N_t) ++
             Wave2DEquations.neumann_col (fun _ _ => 0) N_x N_y
               (grid2 x_1 x_2 y_1 y_2 t_f N_x N_y N_t) ++
             Wave2DEquations.face_col 0 0 N_x N_y N_t) u).
  { split; [now rewrite length_col3|].
    apply WaveSystem.Forall2_zero_col.
    - now rewrite length_map, length_eqs3, length_col3.
    - exact Hker.
    - apply Forall_forall. intros b Hb.
      unfold Wave2DEquations.pde_col, Wave2DEquations.dirichlet_col,
        Wave2DEquations.neumann_col, Wave2DEquations.face_col in Hb.
      repeat (apply in_app_or in Hb; destruct Hb as [Hb|Hb]);
        apply in_flat_map in Hb as (i & _ & Hb);
        try apply in_flat_map in Hb as (j & _ & Hb);
        apply in_map_iff in Hb as (k & <- & _); reflexivity. }
  apply is_solution_iff3 in Hsol as [_ Hsol]; try assumption.
  assert (E : reshape3 N_t N_x N_y u = zeros3 N_t N_x N_y).
  { apply (discrete_problem_unique3 (fun _ _ _ => 0) c x_1 x_2 y_1 y_2 t_f 0 0
             (fun _ _ => 0) (fun _ _ => 0) N_x N_y N_t); auto.
    - now apply shape3_reshape3.
    - apply shape3_zeros.
    - apply zero_field_solves3. }
  rewrite <- (flatten3_reshape3 N_t N_x N_y u) by assumption. rewrite E.
  now rewrite flatten3_zeros.
Qed.

Section Solve.

Variable f : R -> R -> R -> R.
Variable c : R.
Variables x_1 x_2 y_1 y_2 t_f : R.
Variables h_1 h_2 : R.
Variables g_0 g_1 : R -> R -> R.
Variables N_x N_y N_t : nat.

Local Abbreviation solved :=
  (Wave2DSolve.solved f c x_1 x_2 y_1 y_2 t_f h_1 h_2 g_0 g_1 N_x N_y N_t).
Local Abbreviation discrete_problem :=
  (Wave2DProblem.discrete_problem f c x_1 x_2 y_1 y_2 t_f h_1 h_2 g_0 g_1 N_x N_y N_t).
Local Abbreviation wave_field :=
  (Wave2DProblem.wave_field f c x_1 x_2 y_1 y_2 t_f h_1 h_2 g_0 g_1 N_x N_y N_t).

(** What the solve cell leaves in [u] is the field found by time
    marching, and nothing else. *)
Lemma solved_iff3 (U : array3) :
  (2 <= N_x)%nat -> (2 <= N_y)%nat -> (2 <= N_t)%nat ->
  x_1 < x_2 -> y_1 < y_2 -> 0 < t_f ->
  solved U <-> U = wave_field.
Proof.
  intros Hx Hy Ht Lx Ly Lt.
  pose proof (linear_system_ok3 f c x_1 x_2 y_1 y_2 t_f h_1 h_2 g_0 g_1 N_x N_y N_t
                Hx Hy Ht Lx Ly Lt) as Hsys.
  assert (Hdt : dt2 (grid2 x_1 x_2 y_1 y_2 t_f N_x N_y N_t) <> 0)
    by (apply Wave2DFacts.step_neq0; [lia|assumption]).
  split.
  - intros (A & b & u & HA & Hu & ->).
    rewrite Hsys in HA. injection HA as <- <-.
    now apply (solution_unique3 f c x_1 x_2 y_1 y_2 t_f h_1 h_2 g_0 g_1).
  - intros ->. eexists _, _, (flatten3 wave_field).
    split; [exact Hsys|]. split.
    + now apply solution_exists3.
    + symmetry. apply reshape3_flatten3, shape3_wave_field.
Qed.

Lemma solved_shape3 (U : array3) :
  (2 <= N_x)%nat -> (2 <= N_y)%nat -> (2 <= N_t)%nat ->
  x_1 < x_2 -> y_1 < y_2 -> 0 < t_f ->
  solved U -> shape3 N_t N_x N_y U.
Proof.
  intros Hx Hy Ht Lx Ly Lt H. apply solved_iff3 in H; try assumption. subst.
  apply shape3_wave_field.
Qed.

Lemma solved_problem3 (U : array3) :
  (2 <= N_x)%nat -> (2 <= N_y)%nat -> (2 <= N_t)%nat ->
  x_1 < x_2 -> y_1 < y_2 -> 0 < t_f ->
  solved U -> discrete_problem U.
Proof.
  intros Hx Hy Ht Lx Ly Lt H. apply solved_iff3 in H; try assumption. subst.
  apply wave_field_solves3; auto.
  apply Wave2DFacts.step_neq0; [lia|assumption].
Qed.

End Solve.
End Wave2DSystem.

(** ** Exceptions of the 2-D wave assembly *)

Lemma make_grid2_raises (x_1 x_2 y_1 y_2 t_f : R) (N_x N_y N_t : nat) :
  N_x = O \/ N_y = O \/ N_t = O ->
  make_grid2 x_1 x_2 y_1 y_2 t_f N_x N_y N_t = Raise ZeroDivisionError.
Proof.
  intros H. unfold make_grid2.
  destruct N_x as [|nx]; [simpl; now rewrite pydiv_zero|].
  rewrite pydiv_ok by (apply not_0_INR; lia). cbn [bind].
  destruct N_y as [|ny]; [simpl; now rewrite pydiv_zero|].
  rewrite pydiv_ok by (apply not_0_INR; lia). cbn [bind].
  destruct N_t as [|nt]; [simpl; now rewrite pydiv_zero|].
  destruct H as [H|[H|H]]; discriminate.
Qed.

Lemma getitem3_ok (n m p : nat) (a : array3) (i j k : Z) (i' j' k' : nat) :
  shape3 n m p a -> norm_index n i = Ok i' -> norm_index m j = Ok j' ->
  norm_index p k = Ok k' ->
  getitem3 a i j k = Ok (entry3 a i' j' k').
Proof.
  intros Ha Hi Hj Hk. pose proof (norm_index_lt _ _ _ Hi) as Hlt.
  unfold getitem3. rewrite (proj1 Ha), Hi. cbn [bind].
  apply (getitem2_ok m p); auto. now apply (shape3_plane n).
Qed.

Lemma iadd3_raises (n m p : nat) (a : array3) (i j k : Z) (i' j' k' : nat)
      (e : PyError) :
  shape3 n m p a -> norm_index n i = Ok i' -> norm_index m j = Ok j' ->
  norm_index p k = Ok k' ->
  iadd3 a i j k (Raise e) = Raise e.
Proof.
  intros Ha Hi Hj Hk. unfold iadd3.
  now rewrite (getitem3_ok n m p a i j k i' j' k' Ha Hi Hj Hk).
Qed.

Module Wave2DEdges.
Section Facts.

Variable f : R -> R -> R -> R.
Variable c : R.
Variables x_1 x_2 y_1 y_2 t_f : R.
Variables h_1 h_2 : R.
Variables g_0 g_1 : R -> R -> R.
Variables N_x N_y N_t : nat.

Local Abbreviation grid := (grid2 x_1 x_2 y_1 y_2 t_f N_x N_y N_t).
Local Abbreviation assemble :=
  (Wave2D.assemble f c x_1 x_2 y_1 y_2 t_f h_1 h_2 g_0 g_1 N_x N_y N_t).
Local Abbreviation eqs :=
  (Wave2DEquations.pde_eqs c N_x N_y N_t grid ++
   Wave2DEquations.dirichlet_eqs N_x N_y N_t ++
   Wave2DEquations.neumann_eqs N_x N_y N_t ++
   Wave2DEquations.face_eqs N_x N_y N_t).
Local Abbreviation col :=
  (Wave2DEquations.pde_col f N_x N_y N_t grid ++
   Wave2DEquations.dirichlet_col g_0 N_x N_y grid ++
   Wave2DEquations.neumann_col g_1 N_x N_y grid ++
   Wave2DEquations.face_col h_1 h_2 N_x N_y N_t).

Ltac idx :=
  first [ apply (norm_index_nat _ 1) | apply (norm_index_pred _ 1)
        | apply (norm_index_succ _ 1) ]; lia.

Ltac add3_ok i j k :=
  run_pydiv;
  rewrite (iadd3_ok N_t N_x N_y _ _ _ _ i j k) by first [ idx | shape3_tac ];
  cbn [bind].

Ltac add3_raise i j k :=
  rewrite ?div2_raises; cbn [bind];
  rewrite (iadd3_raises N_t N_x N_y _ _ _ _ i j k) by first [ idx | shape3_tac ];
  reflexivity.

(** The first stencil of the differential-equation loop divides by [dt],
    then by [dx], then by [dy]. *)
Lemma stencil3_raises (g : Grid2) (s : Wave2D.system) :
  (3 <= N_x)%nat -> (3 <= N_y)%nat -> (3 <= N_t)%nat ->
  dt2 g = 0 \/ dx2 g = 0 \/ dy2 g = 0 ->
  Wave2D.stencil f c N_x N_y N_t g 1 1 1 s = Raise ZeroDivisionError.
Proof.
  intros Hx Hy Ht Hz. unfold Wave2D.stencil.
  destruct (Req_dec_T (dt2 g) 0) as [Hdt|Hdt].
  { rewrite Hdt. add3_raise 1%nat 1%nat 1%nat. }
  add3_ok 1%nat 1%nat 1%nat. add3_ok 0%nat 1%nat 1%nat. add3_ok 2%nat 1%nat 1%nat.
  destruct (Req_dec_T (dx2 g) 0) as [Hdx|Hdx].
  { rewrite Hdx. add3_raise 1%nat 1%nat 1%nat. }
  add3_ok 1%nat 1%nat 1%nat. add3_ok 1%nat 2%nat 1%nat. add3_ok 1%nat 0%nat 1%nat.
  destruct Hz as [Hz|[Hz|Hdy]]; try contradiction.
  rewrite Hdy. add3_raise 1%nat 1%nat 1%nat.
Qed.

Lemma pde_loop3_raises (g : Grid2) (s : Wave2D.system) :
  (3 <= N_x)%nat -> (3 <= N_y)%nat -> (3 <= N_t)%nat ->
  dt2 g = 0 \/ dx2 g = 0 \/ dy2 g = 0 ->
  Wave2D.pde_loop f c N_x N_y N_t g s = Raise ZeroDivisionError.
Proof.
  intros Hx Hy Ht Hz. unfold Wave2D.pde_loop.
  rewrite (range_cons 1 (N_t - 1)) by lia. apply for_raise.
  rewrite (range_cons 1 (N_x - 1)) by lia. apply for_raise.
  rewrite (range_cons 1 (N_y - 1)) by lia. apply for_raise.
  now apply stencil3_raises.
Qed.

(** The differential-equation loop divides only when it has an interior
    node to visit. *)
Lemma pde_loop3_ok_interior (g : Grid2) (s : Wave2D.system) :
  ((3 <= N_x)%nat -> (3 <= N_y)%nat -> (3 <= N_t)%nat ->
   dt2 g <> 0 /\ dx2 g <> 0 /\ dy2 g <> 0) ->
  length (ts2 g) = N_t -> length (xs2 g) = N_x -> length (ys2 g) = N_y ->
  Wave2D.pde_loop f c N_x N_y N_t g s =
  Ok (fst s ++ Wave2DEquations.pde_eqs c N_x N_y N_t g,
      snd s ++ Wave2DEquations.pde_col f N_x N_y N_t g).
Proof.
  intros Hd Lt Lx Ly.
  unfold Wave2D.pde_loop, Wave2DEquations.pde_eqs, Wave2DEquations.pde_col.
  apply for_appends. intros i s' Hi. apply in_range in Hi.
  apply for2_appends. intros j k s'' Hj Hk. apply in_range in Hj, Hk.
  destruct Hd as (Hdt & Hdx & Hdy); try lia.
  apply Wave2DFacts.stencil3_ok; auto; lia.
Qed.

(** With one time plane the Neumann loop subscripts plane 1, which does
    not exist. *)
Lemma neumann3_raises (g : Grid2) (s : Wave2D.system) :
  N_t = 1%nat -> Wave2D.ivp_neumann g_1 N_x N_y N_t g 1 1 s = Raise IndexError.
Proof.
  intros ->. unfold Wave2D.ivp_neumann, setitem3, zeros3.
  rewrite repeat_length. now rewrite norm_index_out by (simpl; lia).
Qed.

Lemma dirichlet_loop3_ok (g : Grid2) (s : Wave2D.system) :
  (1 <= N_t)%nat -> length (xs2 g) = N_x -> length (ys2 g) = N_y ->
  for_ (range 0 N_x) (fun j => for_ (range 0 N_y) (Wave2D.ivp_dirichlet g_0 N_x N_y N_t g j)) s
  = Ok (fst s ++ Wave2DEquations.dirichlet_eqs N_x N_y N_t,
        snd s ++ Wave2DEquations.dirichlet_col g_0 N_x N_y g).
Proof.
  intros Ht Lx Ly. apply for2_appends.
  intros j k s' Hj Hk. apply in_range in Hj, Hk.
  apply Wave2DFacts.ivp_dirichlet3_ok; auto; lia.
Qed.

(** The boundary loops need a second time plane only when the Neumann
    loop has an iteration. *)
Lemma bc_loops3_ok_general (g : Grid2) (s : Wave2D.system) :
  (1 <= N_t)%nat -> (1 <= N_x)%nat -> (1 <= N_y)%nat ->
  ((3 <= N_x)%nat -> (3 <= N_y)%nat -> (2 <= N_t)%nat) ->
  length (xs2 g) = N_x -> length (ys2 g) = N_y ->
  Wave2D.bc_loops h_1 h_2 g_0 g_1 N_x N_y N_t g s =
  Ok (fst s ++ Wave2DEquations.dirichlet_eqs N_x N_y N_t ++
      Wave2DEquations.neumann_eqs N_x N_y N_t ++ Wave2DEquations.face_eqs N_x N_y N_t,
      snd s ++ Wave2DEquations.dirichlet_col g_0 N_x N_y g ++
      Wave2DEquations.neumann_col g_1 N_x N_y g ++
      Wave2DEquations.face_col h_1 h_2 N_x N_y N_t).
Proof.
  intros Ht Hx Hy Hrow Lx Ly. unfold Wave2D.bc_loops.
  rewrite dirichlet_loop3_ok by assumption. cbn [bind].
  rewrite (for2_appends _ _ _ (Wave2DEquations.neumann_mat N_x N_y N_t)
             (fun j k => g_1 (nth j (xs2 g) 0) (nth k (ys2 g) 0)))
    by (intros j k s' Hj Hk; apply in_range in Hj, Hk;
        apply Wave2DFacts.ivp_neumann3_ok; auto; try lia; apply Hrow; lia).
  cbn [bind].
  rewrite (for2_appends _ _ _ (Wave2DEquations.x1_mat N_x N_y N_t) (fun _ _ => h_1))
    by (intros i k s' Hi Hk; apply in_range in Hi, Hk;
        apply Wave2DFacts.bound_x1_ok; auto; lia).
  cbn [bind].
  rewrite (for2_appends _ _ _ (Wave2DEquations.x2_mat N_x N_y N_t) (fun _ _ => h_2))
    by (intros i k s' Hi Hk; apply in_range in Hi, Hk;
        apply Wave2DFacts.bound_x2_ok; auto; lia).
  cbn [bind].
  rewrite (for2_appends _ _ _ (Wave2DEquations.y1_mat N_x N_y N_t) (fun _ _ => h_1))
    by (intros i j s' Hi Hj; apply in_range in Hi, Hj;
        apply Wave2DFacts.bound_y1_ok; auto; lia).
  cbn [bind].
  rewrite (for2_appends _ _ _ (Wave2DEquations.y2_mat N_x N_y N_t) (fun _ _ => h_2))
    by (intros i j s' Hi Hj; apply in_range in Hi, Hj;
        apply Wave2DFacts.bound_y2_ok; auto; lia).
  cbn [fst snd].
  unfold Wave2DEquations.neumann_eqs, Wave2DEquations.neumann_col,
    Wave2DEquations.face_eqs, Wave2DEquations.face_col.
  now rewrite <- !app_assoc.
Qed.

Lemma assemble3_ok_general :
  (1 <= N_x)%nat -> (1 <= N_y)%nat -> (1 <= N_t)%nat ->
  ((3 <= N_x)%nat -> (3 <= N_y)%nat -> (2 <= N_t)%nat) ->
  ((3 <= N_x)%nat -> (3 <= N_y)%nat -> (3 <= N_t)%nat ->
   t_f <> 0 /\ x_1 <> x_2 /\ y_1 <> y_2) ->
  assemble = Ok (eqs, col).
Proof.
  intros Hx Hy Ht Hrow Hdeg. unfold Wave2D.assemble.
  rewrite make_grid2_ok by lia. cbn [bind].
  rewrite pde_loop3_ok_interior; try (simpl; apply length_linspace).
  - cbn [bind fst snd app].
    rewrite bc_loops3_ok_general; try (simpl; apply length_linspace); auto.
  - intros H3x H3y H3t. destruct (Hdeg H3x H3y H3t) as (Htf & Hxx & Hyy). simpl.
    repeat split; intros E; apply step_neq0_iff in E; try lia; lra.
Qed.

End Facts.
End Wave2DEdges.


(** ** The 2-D wave example: assembly and direct solve *)

(** X12: on every valid 2-D grid the assembly returns as many equations
    as the field has entries, [N_t * N_x * N_y], every one of them a
    coefficient grid of the shape of the field: the stencil loop gives
    one per interior node and the boundary loops the rest. *)
Theorem wave2d_assembly_is_square
  (f : R -> R -> R -> R) (c x_1 x_2 y_1 y_2 t_f h_1 h_2 : R) (g_0 g_1 : R -> R -> R)
  (N_x N_y N_t : nat) :
  (2 <= N_x)%nat -> (2 <= N_y)%nat -> (2 <= N_t)%nat ->
  x_1 < x_2 -> y_1 < y_2 -> 0 < t_f ->
  exists g s1 s2,
    make_grid2 x_1 x_2 y_1 y_2 t_f N_x N_y N_t = Ok g /\
    Wave2D.pde_loop f c N_x N_y N_t g ([], []) = Ok s1 /\
    Wave2D.bc_loops h_1 h_2 g_0 g_1 N_x N_y N_t g s1 = Ok s2 /\
    Wave2D.assemble f c x_1 x_2 y_1 y_2 t_f h_1 h_2 g_0 g_1 N_x N_y N_t = Ok s2 /\
    length (fst s1) = ((N_t - 2) * (N_x - 2) * (N_y - 2))%nat /\
    length (fst s2) =
      (length (fst s1) + N_x * N_y + (N_x - 2) * (N_y - 2)
       + 2 * ((N_t - 1) * N_y) + 2 * ((N_t - 1) * (N_x - 2)))%nat /\
    length (fst s2) = (N_t * N_x * N_y)%nat /\
    length (snd s2) = (N_t * N_x * N_y)%nat /\
    Forall (shape3 N_t N_x N_y) (fst s2).
Proof.
  intros Hx Hy Ht Lx Ly Lt.
  set (g := grid2 x_1 x_2 y_1 y_2 t_f N_x N_y N_t).
  assert (LX : length (xs2 g) = N_x) by apply length_linspace.
  assert (LY : length (ys2 g) = N_y) by apply length_linspace.
  assert (LT : length (ts2 g) = N_t) by apply length_linspace.
  eexists g, _, _.
  split; [apply make_grid2_ok; lia|].
  split.
  { apply Wave2DFacts.pde_loop3_ok; auto;
      apply Wave2DFacts.step_neq0; try lia; lra. }
  split; [apply Wave2DFacts.bc_loops3_ok; auto; lia|].
  cbn [fst snd app].
  split; [now apply Wave2DFacts.assemble3_ok|].
  pose proof (Wave2DSystem.length_eqs3 c x_1 x_2 y_1 y_2 t_f N_x N_y N_t Hx Hy Ht) as LE.
  pose proof (Wave2DSystem.length_col3 f x_1 x_2 y_1 y_2 t_f h_1 h_2 g_0 g_1
                N_x N_y N_t Hx Hy Ht) as LC.
  fold g in LE, LC.
  split; [rewrite Wave2DSystem.length_pde_eqs3; lia|].
  split.
  { rewrite !length_app, Wave2DSystem.length_face_eqs.
    unfold Wave2DEquations.dirichlet_eqs, Wave2DEquations.neumann_eqs.
    rewrite !length_flat_map2, !length_range. lia. }
  split; [rewrite LE; lia|]. split; [rewrite LC; lia|].
  apply Forall_forall. intros mat Hin.
  now apply (Wave2DSystem.shape3_eqs c x_1 x_2 y_1 y_2 t_f N_x N_y N_t).
Qed.

(** X13: on every valid 2-D grid the reshape succeeds, the matrix handed
    to the solver is square and nonsingular whatever the wave speed is,
    exactly one vector solves the system, and the solve cell leaves
    exactly one field. *)
Theorem wave2d_system_uniquely_solvable
  (f : R -> R -> R -> R) (c x_1 x_2 y_1 y_2 t_f h_1 h_2 : R) (g_0 g_1 : R -> R -> R)
  (N_x N_y N_t : nat) :
  (2 <= N_x)%nat -> (2 <= N_y)%nat -> (2 <= N_t)%nat ->
  x_1 < x_2 -> y_1 < y_2 -> 0 < t_f ->
  exists A b,
    Wave2DSolve.linear_system f c x_1 x_2 y_1 y_2 t_f h_1 h_2 g_0 g_1 N_x N_y N_t
    = Ok (A, b) /\
    length A = (N_t * N_x * N_y)%nat /\
    Forall (fun row => length row = (N_t * N_x * N_y)%nat) A /\
    length b = (N_t * N_x * N_y)%nat /\
    nonsingular A /\
    (exists u, is_solution A b u /\ forall v, is_solution A b v -> v = u) /\
    (exists U,
       Wave2DSolve.solved f c x_1 x_2 y_1 y_2 t_f h_1 h_2 g_0 g_1 N_x N_y N_t U /\
       forall V,
         Wave2DSolve.solved f c x_1 x_2 y_1 y_2 t_f h_1 h_2 g_0 g_1 N_x N_y N_t V ->
         V = U).
Proof.
  intros Hx Hy Ht Lx Ly Lt.
  assert (Hdt : dt2 (grid2 x_1 x_2 y_1 y_2 t_f N_x N_y N_t) <> 0)
    by (apply Wave2DFacts.step_neq0; [lia|assumption]).
  pose proof (Wave2DSystem.length_eqs3 c x_1 x_2 y_1 y_2 t_f N_x N_y N_t Hx Hy Ht) as LE.
  pose proof (Wave2DSystem.length_col3 f x_1 x_2 y_1 y_2 t_f h_1 h_2 g_0 g_1
                N_x N_y N_t Hx Hy Ht) as LC.
  eexists _, _.
  split; [now apply Wave2DSystem.linear_system_ok3|].
  split; [rewrite length_map, LE; lia|].
  split.
  { apply Forall_forall. intros row Hrow.
    apply in_map_iff in Hrow as (mat & <- & Hmat).
    rewrite (length_flatten3 N_t N_x N_y); [lia|].
    revert Hmat. now apply Wave2DSystem.shape3_eqs. }
  split; [rewrite LC; lia|].
  split; [now apply Wave2DSystem.matrix_nonsingular3|].
  split.
  - exists (flatten3 (Wave2DProblem.wave_field f c x_1 x_2 y_1 y_2 t_f h_1 h_2
                        g_0 g_1 N_x N_y N_t)).
    split; [now apply Wave2DSystem.solution_exists3|].
    intros v Hv.
    pose proof (Wave2DSystem.solution_unique3 f c x_1 x_2 y_1 y_2 t_f h_1 h_2
                  g_0 g_1 N_x N_y N_t v Hx Hy Ht Hdt Hv) as E.
    rewrite <- E. symmetry. apply flatten3_reshape3.
    destruct Hv as [Hlen _]. now rewrite Hlen.
  - eexists. split; [now apply Wave2DSystem.solved_iff3|].
    intros V HV. now apply Wave2DSystem.solved_iff3 in HV.
Qed.

(** X14: the direct solve of the 2-D system computes the explicit
    leapfrog recurrence: plane 1 is plane 0 plus the samples of [g_1],
    and each later plane follows from the two planes before it. *)
Theorem wave2d_solve_is_leapfrog
  (f : R -> R -> R -> R) (c x_1 x_2 y_1 y_2 t_f h_1 h_2 : R) (g_0 g_1 : R -> R -> R)
  (N_x N_y N_t : nat) :
  (2 <= N_x)%nat -> (2 <= N_y)%nat -> (2 <= N_t)%nat ->
  x_1 < x_2 -> y_1 < y_2 -> 0 < t_f ->
  exists g,
    make_grid2 x_1 x_2 y_1 y_2 t_f N_x N_y N_t = Ok g /\
    forall U,
      Wave2DSolve.solved f c x_1 x_2 y_1 y_2 t_f h_1 h_2 g_0 g_1 N_x N_y N_t U ->
      (forall j k, (1 <= j)%nat -> (j + 1 < N_x)%nat -> (1 <= k)%nat -> (k + 1 < N_y)%nat ->
         entry3 U 1 j k = entry3 U 0 j k + g_1 (nth j (xs2 g) 0) (nth k (ys2 g) 0)) /\
      (forall i j k, (1 <= i)%nat -> (i + 1 < N_t)%nat ->
                     (1 <= j)%nat -> (j + 1 < N_x)%nat ->
                     (1 <= k)%nat -> (k + 1 < N_y)%nat ->
         entry3 U (i + 1) j k =
         2 * entry3 U i j k - entry3 U (i - 1) j k
         + (c * dt2 g / dx2 g) ^ 2
           * (entry3 U i (j + 1) k + entry3 U i (j - 1) k - 2 * entry3 U i j k)
         + (c * dt2 g / dy2 g) ^ 2
           * (entry3 U i j (k + 1) + entry3 U i j (k - 1) - 2 * entry3 U i j k)
         + dt2 g ^ 2 * f (nth i (ts2 g) 0) (nth j (xs2 g) 0) (nth k (ys2 g) 0)).
Proof.
  intros Hx Hy Ht Lx Ly Lt. exists (grid2 x_1 x_2 y_1 y_2 t_f N_x N_y N_t).
  split; [apply make_grid2_ok; lia|].
  intros U HU.
  set (g := grid2 x_1 x_2 y_1 y_2 t_f N_x N_y N_t).
  assert (Hdt : dt2 g <> 0) by (apply Wave2DFacts.step_neq0; [lia|assumption]).
  assert (Hdx : dx2 g <> 0) by (apply Wave2DFacts.step_neq0; [lia|lra]).
  assert (Hdy : dy2 g <> 0) by (apply Wave2DFacts.step_neq0; [lia|lra]).
  destruct (Wave2DSystem.solved_problem3 f c x_1 x_2 y_1 y_2 t_f h_1 h_2 g_0 g_1
              N_x N_y N_t U Hx Hy Ht Lx Ly Lt HU) as (HS & _ & HN & _).
  split.
  - intros j k H1 H2 H3 H4. specialize (HN j k H1 H2 H3 H4). cbn [xs2 ys2 g grid2]. lra.
  - intros i j k Hi1 Hi2 Hj1 Hj2 Hk1 Hk2.
    specialize (HS i j k Hi1 Hi2 Hj1 Hj2 Hk1 Hk2).
    unfold Wave2DProblem.stencil_eqn in HS. fold g in HS.
    change (linspace 0 t_f N_t) with (ts2 g) in HS.
    change (linspace x_1 x_2 N_x) with (xs2 g) in HS.
    change (linspace y_1 y_2 N_y) with (ys2 g) in HS.
    rewrite <- HS. field. repeat split; assumption.
Qed.

(** X15: every field the 2-D solve leaves behind has the shape of the
    grid and the samples of [g_0] in the whole of plane 0.  From plane 1
    on, the faces [x = x_1] and [x = x_2] hold [h_1] and [h_2] along
    their whole length, edges included, and the faces [y = y_1] and
    [y = y_2] hold [h_1] and [h_2] between the edges. *)
Theorem wave2d_solve_boundary_data
  (f : R -> R -> R -> R) (c x_1 x_2 y_1 y_2 t_f h_1 h_2 : R) (g_0 g_1 : R -> R -> R)
  (N_x N_y N_t : nat) :
  (2 <= N_x)%nat -> (2 <= N_y)%nat -> (2 <= N_t)%nat ->
  x_1 < x_2 -> y_1 < y_2 -> 0 < t_f ->
  forall U,
    Wave2DSolve.solved f c x_1 x_2 y_1 y_2 t_f h_1 h_2 g_0 g_1 N_x N_y N_t U ->
    shape3 N_t N_x N_y U /\
    (forall j k, (j < N_x)%nat -> (k < N_y)%nat ->
       entry3 U 0 j k = g_0 (nth j (linspace x_1 x_2 N_x) 0)
                            (nth k (linspace y_1 y_2 N_y) 0)) /\
    (forall i k, (1 <= i)%nat -> (i < N_t)%nat -> (k < N_y)%nat ->
       entry3 U i 0 k = h_1 /\ entry3 U i (N_x - 1) k = h_2) /\
    (forall i j, (1 <= i)%nat -> (i < N_t)%nat -> (1 <= j)%nat -> (j + 1 < N_x)%nat ->
       entry3 U i j 0 = h_1 /\ entry3 U i j (N_y - 1) = h_2).
Proof.
  intros Hx Hy Ht Lx Ly Lt U HU.
  split; [now apply (Wave2DSystem.solved_shape3 f c x_1 x_2 y_1 y_2 t_f h_1 h_2 g_0 g_1)|].
  destruct (Wave2DSystem.solved_problem3 f c x_1 x_2 y_1 y_2 t_f h_1 h_2 g_0 g_1
              N_x N_y N_t U Hx Hy Ht Lx Ly Lt HU)
    as (_ & HD & _ & HX1 & HX2 & HY1 & HY2).
  split; [exact HD|]. split.
  - intros i k H1 H2 H3. split; [now apply HX1|now apply HX2].
  - intros i j H1 H2 H3 H4. split; [now apply HY1|now apply HY2].
Qed.

(** ** The 2-D example as a standing wave *)


(** ** The properties above on the examples of the notebook *)


Lemma heat_affine_profile_is_stationary_witness :
  exists u,
    Heat1D.solve HeatScenario.f HeatScenario.a HeatScenario.x_1 HeatScenario.x_2
                 HeatScenario.t_f (-5) 7 (fun y => 1 + 2 * y)
                 HeatScenario.N_x HeatScenario.N_t = Ok u /\
    entry u 99 10 = 1 + 2 * nth 10 (linspace HeatScenario.x_1 HeatScenario.x_2
                                             HeatScenario.N_x) 0.
Proof.
  destruct (heat_affine_profile_is_stationary
              HeatScenario.f HeatScenario.a HeatScenario.x_1 HeatScenario.x_2
              HeatScenario.t_f (-5) 7 (fun y => 1 + 2 * y)
              HeatScenario.N_x HeatScenario.N_t 1 2)
    as (u & Hu & H).
  - unfold HeatScenario.N_x. lia.
  - unfold HeatScenario.N_t. lia.
  - unfold HeatScenario.x_1, HeatScenario.x_2. lra.
  - intros s y. unfold HeatScenario.f. ring.
  - reflexivity.
  - unfold HeatScenario.x_1. lra.
  - unfold HeatScenario.x_2. lra.
  - exists u. split; [exact Hu|].
    apply (H 99%nat 10%nat); [unfold HeatScenario.N_t|unfold HeatScenario.N_x]; lia.
Defined.

Lemma heat_superposition_witness :
  exists u w,
    HeatScenario.solution = Ok u /\
    Heat1D.solve (fun s y => HeatScenario.f s y + HeatScenario.f s y) HeatScenario.a
                 HeatScenario.x_1 HeatScenario.x_2 HeatScenario.t_f
                 (HeatScenario.h_1 + HeatScenario.h_1)
                 (HeatScenario.h_2 + HeatScenario.h_2)
                 (fun y => HeatScenario.g_0 y + HeatScenario.g_0 y)
                 HeatScenario.N_x HeatScenario.N_t = Ok w /\
    entry w 99 10 = entry u 99 10 + entry u 99 10.
Proof.
  destruct (heat_superposition HeatScenario.f HeatScenario.f HeatScenario.a
              HeatScenario.x_1 HeatScenario.x_2 HeatScenario.t_f
              HeatScenario.h_1 HeatScenario.h_2 HeatScenario.h_1 HeatScenario.h_2
              HeatScenario.g_0 HeatScenario.g_0 HeatScenario.N_x HeatScenario.N_t)
    as (u & v & w & Hu & Hv & Hw & H);
    [unfold HeatScenario.N_x; lia | unfold HeatScenario.N_t; lia
     | unfold HeatScenario.x_1, HeatScenario.x_2; lra |].
  assert (E : v = u) by (unfold HeatScenario.solution in Hu; congruence).
  subst v. exists u, w. split; [exact Hu|]. split; [exact Hw|].
  apply (H 99%nat 10%nat); [unfold HeatScenario.N_t|unfold HeatScenario.N_x]; lia.
Defined.


Lemma wave_single_column_not_square_witness :
  Wave1D.linear_system WaveScenario.f WaveScenario.c WaveScenario.x_1 WaveScenario.x_2
                       WaveScenario.t_f WaveScenario.h_1 WaveScenario.h_2
                       WaveScenario.g_0 WaveScenario.g_1 1 WaveScenario.N_t
  = Raise ValueError.
Proof.
  apply (wave_single_column_not_square WaveScenario.f WaveScenario.c WaveScenario.x_1
           WaveScenario.x_2 WaveScenario.t_f WaveScenario.h_1 WaveScenario.h_2
           WaveScenario.g_0 WaveScenario.g_1 WaveScenario.N_t).
  unfold WaveScenario.N_t. lia.
Defined.

Lemma wave_scenario_valid :
  (2 <= WaveScenario.N_x)%nat /\ (2 <= WaveScenario.N_t)%nat /\
  WaveScenario.x_1 < WaveScenario.x_2 /\ 0 < WaveScenario.t_f.
Proof.
  pose proof PI_RGT_0 as Hpi.
  unfold WaveScenario.N_x, WaveScenario.N_t, WaveScenario.x_1, WaveScenario.x_2,
    WaveScenario.t_f.
  repeat split; try lia; lra.
Qed.

Lemma wave_scenario_solved : exists U, WaveScenario.solved U.
Proof.
  destruct wave_scenario_valid as (Hx & Ht & Lx & Lt).
  eexists. now apply WaveSolve.solved_iff.
Qed.

Lemma wave_system_uniquely_solvable_witness :
  exists A b,
    WaveScenario.linear_system = Ok (A, b) /\ length A = 2100%nat /\ nonsingular A.
Proof.
  destruct wave_scenario_valid as (Hx & Ht & Lx & Lt).
  destruct (wave_system_uniquely_solvable WaveScenario.f WaveScenario.c
              WaveScenario.x_1 WaveScenario.x_2 WaveScenario.t_f
              WaveScenario.h_1 WaveScenario.h_2 WaveScenario.g_0 WaveScenario.g_1
              WaveScenario.N_x WaveScenario.N_t Hx Ht Lx Lt)
    as (A & b & HA & L & _ & _ & Hns & _).
  exists A, b. repeat split; assumption.
Defined.

Lemma wave_solve_is_leapfrog_witness :
  exists g U,
    make_grid WaveScenario.x_1 WaveScenario.x_2 WaveScenario.t_f
              WaveScenario.N_x WaveScenario.N_t = Ok g /\
    WaveScenario.solved U /\
    entry U 1 1 = entry U 0 1 + WaveScenario.g_1 (nth 1 (x g) 0).
Proof.
  destruct wave_scenario_valid as (Hx & Ht & Lx & Lt).
  destruct wave_scenario_solved as [U HU].
  destruct (wave_solve_is_leapfrog WaveScenario.f WaveScenario.c
              WaveScenario.x_1 WaveScenario.x_2 WaveScenario.t_f
              WaveScenario.h_1 WaveScenario.h_2 WaveScenario.g_0 WaveScenario.g_1
              WaveScenario.N_x WaveScenario.N_t Hx Ht Lx Lt)
    as (g & Hg & H).
  exists g, U. split; [exact Hg|]. split; [exact HU|].
  destruct (H U HU) as [H1 _]. apply H1; [lia|unfold WaveScenario.N_x; lia].
Defined.

Lemma wave_solve_boundary_data_witness :
  exists U,
    WaveScenario.solved U /\ shape2 WaveScenario.N_t WaveScenario.N_x U /\
    entry U 0 0 = WaveScenario.g_0 WaveScenario.x_1.
Proof.
  destruct wave_scenario_valid as (Hx & Ht & Lx & Lt).
  destruct wave_scenario_solved as [U HU].
  destruct (wave_solve_boundary_data WaveScenario.f WaveScenario.c
              WaveScenario.x_1 WaveScenario.x_2 WaveScenario.t_f
              WaveScenario.h_1 WaveScenario.h_2 WaveScenario.g_0 WaveScenario.g_1
              WaveScenario.N_x WaveScenario.N_t Hx Ht Lx Lt U HU)
    as (HS & _ & H0 & _).
  exists U. split; [exact HU|]. split; [exact HS|exact H0].
Defined.

Lemma wave_superposition_witness :
  exists U W,
    WaveScenario.solved U /\
    Wave1D.solved (fun s y => WaveScenario.f s y + WaveScenario.f s y) WaveScenario.c
                  WaveScenario.x_1 WaveScenario.x_2 WaveScenario.t_f
                  (WaveScenario.h_1 + WaveScenario.h_1)
                  (WaveScenario.h_2 + WaveScenario.h_2)
                  (fun y => WaveScenario.g_0 y + WaveScenario.g_0 y)
                  (fun y => WaveScenario.g_1 y + WaveScenario.g_1 y)
                  WaveScenario.N_x WaveScenario.N_t W /\
    entry W 1 1 = entry U 1 1 + entry U 1 1.
Proof.
  destruct wave_scenario_valid as (Hx & Ht & Lx & Lt).
  destruct wave_scenario_solved as [U HU].
  assert (HW : exists W,
             Wave1D.solved (fun s y => WaveScenario.f s y + WaveScenario.f s y)
                           WaveScenario.c
                           WaveScenario.x_1 WaveScenario.x_2 WaveScenario.t_f
                           (WaveScenario.h_1 + WaveScenario.h_1)
                           (WaveScenario.h_2 + WaveScenario.h_2)
                           (fun y => WaveScenario.g_0 y + WaveScenario.g_0 y)
                           (fun y => WaveScenario.g_1 y + WaveScenario.g_1 y)
                           WaveScenario.N_x WaveScenario.N_t W)
    by (eexists; now apply WaveSolve.solved_iff).
  destruct HW as [W HW]. exists U, W.
  split; [exact HU|]. split; [exact HW|].
  apply (wave_superposition WaveScenario.f WaveScenario.f WaveScenario.c
           WaveScenario.x_1 WaveScenario.x_2 WaveScenario.t_f
           WaveScenario.h_1 WaveScenario.h_2 WaveScenario.h_1 WaveScenario.h_2
           WaveScenario.g_0 WaveScenario.g_1 WaveScenario.g_0 WaveScenario.g_1
           WaveScenario.N_x WaveScenario.N_t Hx Ht Lx Lt U U W HU HU HW);
    [unfold WaveScenario.N_t|unfold WaveScenario.N_x]; lia.
Defined.

Lemma wave_affine_profile_is_stationary_witness :
  exists U,
    Wave1D.solved WaveScenario.f WaveScenario.c (-3) 3 WaveScenario.t_f (-5) 7
                  (fun y => 1 + 2 * y) WaveScenario.g_1
                  WaveScenario.N_x WaveScenario.N_t U /\
    entry U 99 10 = 1 + 2 * nth 10 (linspace (-3) 3 WaveScenario.N_x) 0.
Proof.
  destruct wave_scenario_valid as (Hx & Ht & _ & Lt).
  assert (Lx : -3 < 3) by lra.
  assert (HU : exists U,
             Wave1D.solved WaveScenario.f WaveScenario.c (-3) 3 WaveScenario.t_f (-5) 7
                           (fun y => 1 + 2 * y) WaveScenario.g_1
                           WaveScenario.N_x WaveScenario.N_t U)
    by (eexists; now apply WaveSolve.solved_iff).
  destruct HU as [U HU]. exists U. split; [exact HU|].
  assert (Hf : forall s y, WaveScenario.f s y = 0)
    by (intros; unfold WaveScenario.f; ring).
  assert (Hg : forall y, WaveScenario.g_1 y = 0)
    by (intros; unfold WaveScenario.g_1; ring).
  assert (E1 : -5 = 1 + 2 * -3) by lra.
  assert (E2 : 7 = 1 + 2 * 3) by lra.
  assert (Hi : (99 < WaveScenario.N_t)%nat) by (unfold WaveScenario.N_t; lia).
  assert (Hj : (10 < WaveScenario.N_x)%nat) by (unfold WaveScenario.N_x; lia).
  exact (wave_affine_profile_is_stationary WaveScenario.f WaveScenario.c (-3) 3
           WaveScenario.t_f (-5) 7 (fun y => 1 + 2 * y) WaveScenario.g_1
           WaveScenario.N_x WaveScenario.N_t 1 2 Hx Ht Lx Lt Hf Hg
           (fun y => eq_refl) E1 E2 U HU 99%nat 10%nat Hi Hj).
Defined.

Lemma grid_nodes_witness :
  exists g,
    make_grid HeatScenario.x_1 HeatScenario.x_2 HeatScenario.t_f
              HeatScenario.N_x HeatScenario.N_t = Ok g /\
    length (x g) = HeatScenario.N_x /\ nth 0 (x g) 0 = HeatScenario.x_1.
Proof.
  destruct (grid_nodes HeatScenario.x_1 HeatScenario.x_2 HeatScenario.t_f
              HeatScenario.N_x HeatScenario.N_t)
    as (g & Hg & L & _ & H0 & _);
    [unfold HeatScenario.N_x; lia | unfold HeatScenario.N_t; lia |].
  exists g. repeat split; assumption.
Defined.

Lemma wave2d_scenario_valid :
  (2 <= Wave2DScenario.N_x)%nat /\ (2 <= Wave2DScenario.N_y)%nat /\
  (2 <= Wave2DScenario.N_t)%nat /\
  Wave2DScenario.x_1 < Wave2DScenario.x_2 /\
  Wave2DScenario.y_1 < Wave2DScenario.y_2 /\ 0 < Wave2DScenario.t_f.
Proof.
  unfold Wave2DScenario.N_x, Wave2DScenario.N_y, Wave2DScenario.N_t,
    Wave2DScenario.x_1, Wave2DScenario.x_2, Wave2DScenario.y_1, Wave2DScenario.y_2,
    Wave2DScenario.t_f.
  repeat split; try lia; lra.
Qed.

Lemma wave2d_scenario_solved : exists U, Wave2DScenario.solved U.
Proof.
  destruct wave2d_scenario_valid as (Hx & Hy & Ht & Lx & Ly & Lt).
  eexists. now apply Wave2DSystem.solved_iff3.
Qed.

Lemma wave2d_assembly_is_square_witness :
  exists s,
    Wave2DScenario.assemble = Ok s /\
    length (fst s) = (50 * 11 * 11)%nat /\ length (snd s) = (50 * 11 * 11)%nat.
Proof.
  destruct wave2d_scenario_valid as (Hx & Hy & Ht & Lx & Ly & Lt).
  destruct (wave2d_assembly_is_square Wave2DScenario.f Wave2DScenario.c
              Wave2DScenario.x_1 Wave2DScenario.x_2 Wave2DScenario.y_1
              Wave2DScenario.y_2 Wave2DScenario.t_f Wave2DScenario.h_1
              Wave2DScenario.h_2 Wave2DScenario.g_0 Wave2DScenario.g_1
              Wave2DScenario.N_x Wave2DScenario.N_y Wave2DScenario.N_t
              Hx Hy Ht Lx Ly Lt)
    as (g & s1 & s2 & _ & _ & _ & Ha & _ & _ & L1 & L2 & _).
  exists s2. split; [exact Ha|]. split; [exact L1|exact L2].
Defined.

Lemma wave2d_system_uniquely_solvable_witness :
  exists A b,
    Wave2DScenario.linear_system = Ok (A, b) /\
    length A = (50 * 11 * 11)%nat /\ nonsingular A.
Proof.
  destruct wave2d_scenario_valid as (Hx & Hy & Ht & Lx & Ly & Lt).
  destruct (wave2d_system_uniquely_solvable Wave2DScenario.f Wave2DScenario.c
              Wave2DScenario.x_1 Wave2DScenario.x_2 Wave2DScenario.y_1
              Wave2DScenario.y_2 Wave2DScenario.t_f Wave2DScenario.h_1
              Wave2DScenario.h_2 Wave2DScenario.g_0 Wave2DScenario.g_1
              Wave2DScenario.N_x Wave2DScenario.N_y Wave2DScenario.N_t
              Hx Hy Ht Lx Ly Lt)
    as (A & b & HA & L & _ & _ & Hns & _).
  exists A, b. split; [exact HA|]. split; [exact L|exact Hns].
Defined.

Lemma wave2d_solve_is_leapfrog_witness :
  exists g U,
    make_grid2 Wave2DScenario.x_1 Wave2DScenario.x_2 Wave2DScenario.y_1
               Wave2DScenario.y_2 Wave2DScenario.t_f
               Wave2DScenario.N_x Wave2DScenario.N_y Wave2DScenario.N_t = Ok g /\
    Wave2DScenario.solved U /\
    entry3 U 1 1 1 =
    entry3 U 0 1 1 + Wave2DScenario.g_1 (nth 1 (xs2 g) 0) (nth 1 (ys2 g) 0).
Proof.
  destruct wave2d_scenario_valid as (Hx & Hy & Ht & Lx & Ly & Lt).
  destruct wave2d_scenario_solved as [U HU].
  destruct (wave2d_solve_is_leapfrog Wave2DScenario.f Wave2DScenario.c
              Wave2DScenario.x_1 Wave2DScenario.x_2 Wave2DScenario.y_1
              Wave2DScenario.y_2 Wave2DScenario.t_f Wave2DScenario.h_1
              Wave2DScenario.h_2 Wave2DScenario.g_0 Wave2DScenario.g_1
              Wave2DScenario.N_x Wave2DScenario.N_y Wave2DScenario.N_t
              Hx Hy Ht Lx Ly Lt)
    as (g & Hg & H).
  exists g, U. split; [exact Hg|]. split; [exact HU|].
  destruct (H U HU) as [H1 _].
  apply H1; [lia|unfold Wave2DScenario.N_x; lia|lia|unfold Wave2DScenario.N_y; lia].
Defined.

Lemma wave2d_solve_boundary_data_witness :
  exists U,
    Wave2DScenario.solved U /\
    shape3 Wave2DScenario.N_t Wave2DScenario.N_x Wave2DScenario.N_y U /\
    entry3 U 1 0 (Wave2DScenario.N_y - 1) = Wave2DScenario.h_1.
Proof.
  destruct wave2d_scenario_valid as (Hx & Hy & Ht & Lx & Ly & Lt).
  destruct wave2d_scenario_solved as [U HU].
  destruct (wave2d_solve_boundary_data Wave2DScenario.f Wave2DScenario.c
              Wave2DScenario.x_1 Wave2DScenario.x_2 Wave2DScenario.y_1
              Wave2DScenario.y_2 Wave2DScenario.t_f Wave2DScenario.h_1
              Wave2DScenario.h_2 Wave2DScenario.g_0 Wave2DScenario.g_1
              Wave2DScenario.N_x Wave2DScenario.N_y Wave2DScenario.N_t
              Hx Hy Ht Lx Ly Lt U HU)
    as (HS & _ & HX & _).
  exists U. split; [exact HU|]. split; [exact HS|].
  apply (HX 1%nat (Wave2DScenario.N_y - 1)%nat);
    unfold Wave2DScenario.N_t, Wave2DScenario.N_y; lia.
Defined.




